(** * The godot-mcp test bridge: a shallow embedding and its properties

    The agent is [src/scripts/test_bridge.gd] (GDScript, one autoload node
    driven by the engine's frame loop); the controller client is the
    TypeScript class [BridgeClient].  Both are embedded as state machines:

    - script variables become fields of a state record;
    - every call the script makes into the engine (sending a text frame,
      looking a node up, evaluating an expression, injecting input,
      connecting a signal, creating a timer) is appended to an effect log,
      so that "what was done, and in which order" can be stated;
    - a GDScript coroutine suspended at an [await] is a value of type
      [Coroutine] holding its live local variables; the engine resumes it
      with an event;
    - whatever the engine decides (JSON parsing, [str], scene look-ups,
      expression evaluation, truthiness of a Variant) is a field of the
      class [Engine]: the theorems hold for every engine.

    Numbers: GDScript [int] is [Z] and [float] is [Q]; the 64-bit range of
    the one and the rounding of the other play no part in what is proved
    and are not modelled.  Timer durations are recorded in milliseconds,
    and the clock does not advance within one synchronous step. *)

From Stdlib Require Import ZArith QArith Qround String List Ascii Lia.
From stdpp Require Import gmap strings list pretty.

Local Open Scope string_scope.
Local Open Scope list_scope.

(** ** Variants *)

(** The values GDScript passes around.  A null object reference is [VNil]. *)
#[local] Unset Elimination Schemes.
Inductive Variant : Type :=
| VNil
| VBool (b : bool)
| VInt (z : Z)
| VFloat (q : Q)
| VString (s : string)
| VVector2 (x y : Q)
| VVector3 (x y z : Q)
| VColor (r g b a : Q)
| VRect2 (px py sx sy : Q)
| VTransform2D (ox oy xx xy yx yy : Q)
| VNodePath (p : string)
| VRID (rid : Z)
| VObject (cls : string) (node_path : option string)
| VArray (l : list Variant)
| VDictionary (d : list (Variant * Variant))
| VOther (type_name : string) (repr : string).

#[local] Set Elimination Schemes.

(** A Dictionary keeps insertion order; the script only ever indexes one
    with a String key. *)
Abbreviation Dict := (list (Variant * Variant)).

Definition is_key (k : string) (v : Variant) : bool :=
  match v with VString s => String.eqb k s | _ => false end.

(** [Dictionary.get(key, default)] *)
Fixpoint dict_get (d : Dict) (k : string) (default : Variant) : Variant :=
  match d with
  | [] => default
  | (k', v) :: d' => if is_key k k' then v else dict_get d' k default
  end.

(** [Dictionary.has(key)] *)
Fixpoint dict_has (d : Dict) (k : string) : bool :=
  match d with
  | [] => false
  | (k', _) :: d' => if is_key k k' then true else dict_has d' k
  end.

(** [d[key] = value] *)
Fixpoint dict_set (d : Dict) (k : string) (v : Variant) : Dict :=
  match d with
  | [] => [(VString k, v)]
  | (k', v') :: d' =>
      if is_key k k' then (k', v) :: d' else (k', v') :: dict_set d' k v
  end.

Definition is_nil (v : Variant) : bool :=
  match v with VNil => true | _ => false end.

(** [String.is_empty()] *)
Definition is_empty (s : string) : bool :=
  match s with EmptyString => true | _ => false end.

(** [needle in haystack] on Strings *)
Fixpoint contains (needle haystack : string) : bool :=
  String.prefix needle haystack ||
  match haystack with
  | EmptyString => false
  | String _ rest => contains needle rest
  end.

(** [Array.has] restricted to an array of Strings, as in
    [method_name in _BLOCKED_METHODS]. *)
Definition string_in (s : string) (l : list string) : bool :=
  existsb (String.eqb s) l.

(** ** Scene nodes *)

#[local] Unset Elimination Schemes.
Inductive Node : Type :=
  mkNode (instance_id : nat) (name : string) (class_name : string)
         (ancestors : list string) (path : string) (groups : list string)
         (children : list Node).
#[local] Set Elimination Schemes.

Definition node_id (n : Node) : nat := let 'mkNode i _ _ _ _ _ _ := n in i.
Definition node_name (n : Node) : string := let 'mkNode _ s _ _ _ _ _ := n in s.
Definition get_class (n : Node) : string := let 'mkNode _ _ c _ _ _ _ := n in c.
Definition node_ancestors (n : Node) : list string := let 'mkNode _ _ _ a _ _ _ := n in a.
Definition get_path (n : Node) : string := let 'mkNode _ _ _ _ p _ _ := n in p.
Definition node_groups (n : Node) : list string := let 'mkNode _ _ _ _ _ g _ := n in g.
Definition get_children (n : Node) : list Node := let 'mkNode _ _ _ _ _ _ c := n in c.

(** [Object.is_class]: the class itself or one it inherits from. *)
Definition is_class (n : Node) (c : string) : bool :=
  String.eqb c (get_class n) || string_in c (node_ancestors n).

Definition is_in_group (n : Node) (g : string) : bool :=
  string_in g (node_groups n).

(** ** The engine *)

Class Engine : Type := {
  Host : Type;
  (* global scope and String *)
  str : Variant → string;
  JSON_parse_string : string → Variant;
  String_to_int : string → Z;
  String_to_float : string → Q;
  String_to_upper : string → string;
  String_strip_edges : string → string;
  String_match : string → string → bool;
  booleanize : Variant → bool;
  (* scene tree and objects *)
  Host_get_node : Host → string → option Node;
  Host_is_valid : Host → nat → bool;
  Host_has_signal : Host → nat → string → bool;
  Host_get : Host → nat → string → Variant;
  Host_callv : Host → nat → string → list Variant → Variant * Host;
  (* Expression: [None] is OK, [Some text] the error text *)
  Expression_parse : string → option string;
  Host_execute : Host → string → nat → (Variant + string) * Host
}.

(** ** Input events, keys, mouse buttons *)

Inductive Key : Type :=
| KEY_SPACE | KEY_ENTER | KEY_ESCAPE | KEY_TAB | KEY_BACKSPACE | KEY_DELETE
| KEY_UP | KEY_DOWN | KEY_LEFT | KEY_RIGHT | KEY_HOME | KEY_END
| KEY_PAGEUP | KEY_PAGEDOWN | KEY_INSERT
| KEY_F1 | KEY_F2 | KEY_F3 | KEY_F4 | KEY_F5 | KEY_F6
| KEY_F7 | KEY_F8 | KEY_F9 | KEY_F10 | KEY_F11 | KEY_F12
| KEY_UNICODE (code : N).

Definition MOUSE_BUTTON_LEFT : Z := 1.
Definition MOUSE_BUTTON_RIGHT : Z := 2.
Definition MOUSE_BUTTON_MIDDLE : Z := 3.
Definition MOUSE_BUTTON_MASK_LEFT : Z := 1.
Definition MOUSE_BUTTON_MASK_RIGHT : Z := 2.
Definition MOUSE_BUTTON_MASK_MIDDLE : Z := 4.

Abbreviation Vector2 := (Q * Q)%type.

Inductive InputEvent : Type :=
| InputEventKey (keycode : Key) (pressed ctrl shift alt meta : bool)
| InputEventMouseMotion (position relative : Vector2) (button_mask : Z)
| InputEventMouseButton (position : Vector2) (button_index : Z) (pressed : bool).

(** ** Effects: the calls the script makes into the engine *)

Inductive Effect : Type :=
| SendText (peer : nat) (response : Variant)
| ClosePeer (peer : nat)
| GetNode (path : string)
| ExprParse (expr : string)
| ExprExecute (expr : string) (base : nat)
| ParseInputEvent (ev : InputEvent)
| Connect (node : nat) (signal : string)
| Disconnect (node : nat) (signal : string)
| Callv (node : nat) (method : string) (args : list Variant)
| CreateTimer (ms : Z)
| AwaitProcessFrame.

(** ** Coroutines suspended at an [await] *)

Inductive Coroutine : Type :=
| CoSendKey (id : Variant) (keycode : Key) (ctrl shift alt meta : bool)
            (key_string : string)
| CoMouseDrag (id : Variant) (from_pos to_pos : Vector2) (button_index : Z)
              (steps i : Z)
| CoPollCondition (id : Variant) (expr_string : string) (base_node : nat)
                  (timeout_ms poll_interval_ms start_time : Z)
                  (last_value : Variant)
| CoWaitFrames (id : Variant) (count i : Z)
| CoWaitForSignal (id : Variant) (node : nat) (signal_name : string)
                  (timeout_ms start_time : Z)
                  (received : bool) (signal_args : list Variant)
                  (connected : bool).

Definition co_id (c : Coroutine) : Variant :=
  match c with
  | CoSendKey id _ _ _ _ _ _ => id
  | CoMouseDrag id _ _ _ _ _ => id
  | CoPollCondition id _ _ _ _ _ _ => id
  | CoWaitFrames id _ _ => id
  | CoWaitForSignal id _ _ _ _ _ _ _ => id
  end.

(** What a suspended coroutine is waiting for: a SceneTree timer or the
    tree's [process_frame] signal. *)
Definition awaits_process_frame (c : Coroutine) : bool :=
  match c with CoWaitFrames _ _ _ => true | _ => false end.

(** ** Agent state *)

Inductive ReadyState : Type :=
| STATE_CONNECTING | STATE_OPEN | STATE_CLOSING | STATE_CLOSED.

Definition is_open (r : ReadyState) : bool :=
  match r with STATE_OPEN => true | _ => false end.

Record Peer : Type := { peer_id : nat; ready_state : ReadyState }.

(** How a script function ends: normally, or on a run-time error. *)
Inductive result (A : Type) : Type :=
| Done (a : A)
| Abort (why : string).
Arguments Done {A} a.
Arguments Abort {A} why.

Section Agent.
Context `{E : Engine}.

Record State : Type := mkState {
  _active : bool;
  _unsafe_mode : bool;
  _ws_peer : option Peer;
  _pending_responses : gmap string Variant;
  host : Host;
  ticks_msec : Z;
  coroutines : list (nat * Coroutine);
  next_handle : nat;
  next_peer : nat;
  effects : list Effect
}.

Definition set_peer (p : option Peer) (s : State) : State :=
  mkState (_active s) (_unsafe_mode s) p (_pending_responses s) (host s)
          (ticks_msec s) (coroutines s) (next_handle s) (next_peer s) (effects s).
Definition set_pending (m : gmap string Variant) (s : State) : State :=
  mkState (_active s) (_unsafe_mode s) (_ws_peer s) m (host s)
          (ticks_msec s) (coroutines s) (next_handle s) (next_peer s) (effects s).
Definition set_host (h : Host) (s : State) : State :=
  mkState (_active s) (_unsafe_mode s) (_ws_peer s) (_pending_responses s) h
          (ticks_msec s) (coroutines s) (next_handle s) (next_peer s) (effects s).
Definition set_ticks (t : Z) (s : State) : State :=
  mkState (_active s) (_unsafe_mode s) (_ws_peer s) (_pending_responses s) (host s)
          t (coroutines s) (next_handle s) (next_peer s) (effects s).
Definition set_coroutines (l : list (nat * Coroutine)) (s : State) : State :=
  mkState (_active s) (_unsafe_mode s) (_ws_peer s) (_pending_responses s) (host s)
          (ticks_msec s) l (next_handle s) (next_peer s) (effects s).
Definition set_next_handle (n : nat) (s : State) : State :=
  mkState (_active s) (_unsafe_mode s) (_ws_peer s) (_pending_responses s) (host s)
          (ticks_msec s) (coroutines s) n (next_peer s) (effects s).
Definition set_next_peer (n : nat) (s : State) : State :=
  mkState (_active s) (_unsafe_mode s) (_ws_peer s) (_pending_responses s) (host s)
          (ticks_msec s) (coroutines s) (next_handle s) n (effects s).
Definition set_effects (l : list Effect) (s : State) : State :=
  mkState (_active s) (_unsafe_mode s) (_ws_peer s) (_pending_responses s) (host s)
          (ticks_msec s) (coroutines s) (next_handle s) (next_peer s) l.

(** ** The script monad

    A computation transforms the state and either completes or stops on a
    GDScript run-time error (a value of the wrong type assigned to a typed
    variable or passed to a typed parameter).  What was done before the
    error stays done. *)

Definition M (A : Type) : Type := State → State * result A.

#[global] Instance M_ret : MRet M := fun A a s => (s, Done a).

#[global] Instance M_bind : MBind M := fun A B k m s =>
  match m s with
  | (s', Done a) => k a s'
  | (s', Abort why) => (s', Abort why)
  end.

Definition lift {A} (r : result A) : M A := fun s => (s, r).

Definition reads {A} (f : State → A) : M A := fun s => (s, Done (f s)).

Definition modify (f : State → State) : M unit := fun s => (f s, Done tt).

Definition effect (e : Effect) : M unit :=
  modify (fun s => set_effects (effects s ++ [e])%list s).




(** ** Conversions *)

(** Assignment to a variable (or parameter) declared [String],
    [Dictionary] or [Array]: the value must already be of that type. *)
Definition string_of (v : Variant) : result string :=
  match v with
  | VString s => Done s
  | _ => Abort "Trying to assign a value that is not a String to a variable of type String"
  end.

Definition dictionary_of (v : Variant) : result Dict :=
  match v with
  | VDictionary d => Done d
  | _ => Abort "Trying to assign a value that is not a Dictionary to a variable of type Dictionary"
  end.

Definition array_of (v : Variant) : result (list Variant) :=
  match v with
  | VArray l => Done l
  | _ => Abort "Trying to assign a value that is not an Array to a variable of type Array"
  end.

(** Truncation toward zero, as [int(float)] does. *)
Definition Qtrunc (q : Q) : Z := Z.quot (Qnum q) (Zpos (Qden q)).

(** [int(value)] *)
Definition int_of (v : Variant) : result Z :=
  match v with
  | VInt z => Done z
  | VFloat q => Done (Qtrunc q)
  | VBool b => Done (if b then 1 else 0)%Z
  | VString s => Done (String_to_int s)
  | _ => Abort "No constructor of int matches the value"
  end.

(** [float(value)] *)
Definition float_of (v : Variant) : result Q :=
  match v with
  | VInt z => Done (inject_Z z)
  | VFloat q => Done q
  | VBool b => Done (if b then 1 else 0)%Q
  | VString s => Done (String_to_float s)
  | _ => Abort "No constructor of float matches the value"
  end.

Definition as_String (v : Variant) : M string := lift (string_of v).
Definition as_Dictionary (v : Variant) : M Dict := lift (dictionary_of v).
Definition as_Array (v : Variant) : M (list Variant) := lift (array_of v).
Definition to_int (v : Variant) : M Z := lift (int_of v).
Definition to_float (v : Variant) : M Q := lift (float_of v).

(** ** Calls into the engine *)

Definition get_node_or_null (path : string) : M (option Node) :=
  effect (GetNode path);;
  h ← reads host;
  mret (Host_get_node h path).

Definition is_instance_valid (node : nat) : M bool :=
  h ← reads host; mret (Host_is_valid h node).

Definition has_signal (node : nat) (signal_name : string) : M bool :=
  h ← reads host; mret (Host_has_signal h node signal_name).

Definition Object_get (node : nat) (property : string) : M Variant :=
  h ← reads host; mret (Host_get h node property).

Definition callv (node : nat) (method : string) (args : list Variant) : M Variant :=
  effect (Callv node method args);;
  h ← reads host;
  let '(r, h') := Host_callv h node method args in
  modify (set_host h');;
  mret r.

Definition expr_parse (expr_string : string) : M (option string) :=
  effect (ExprParse expr_string);;
  mret (Expression_parse expr_string).

Definition expr_execute (expr_string : string) (base : nat) : M (Variant + string) :=
  effect (ExprExecute expr_string base);;
  h ← reads host;
  let '(r, h') := Host_execute h expr_string base in
  modify (set_host h');;
  mret r.

Definition Time_get_ticks_msec : M Z := reads ticks_msec.

(** ** Response helpers (test_bridge.gd, lines 177-196) *)

Definition error_dict (code : Z) (message : string) : Variant :=
  VDictionary [(VString "code", VInt code); (VString "message", VString message)].

Definition _send_raw_response (id result error : Variant) : M unit :=
  peer ← reads _ws_peer;
  match peer with
  | None => mret tt
  | Some p =>
      if negb (is_open (ready_state p)) then mret tt
      else
        let response := dict_set [] "id" id in
        let response :=
          if negb (is_nil error) then dict_set response "error" error
          else dict_set response "result" result in
        effect (SendText (peer_id p) (VDictionary response))
  end.

Definition erase_pending (id : Variant) : M unit :=
  modify (fun s => set_pending (delete (str id) (_pending_responses s)) s).

Definition _send_response (id result : Variant) : M unit :=
  _send_raw_response id result VNil;;
  erase_pending id.

Definition _send_error (id : Variant) (code : Z) (message : string) : M unit :=
  _send_raw_response id VNil (error_dict code message);;
  erase_pending id.

(** [_pending_responses[str(id)] = true] *)
Definition mark_pending (id : Variant) : M unit :=
  modify (fun s => set_pending (<[str id := VBool true]> (_pending_responses s)) s).

(** ** Variant serialization (lines 948-987) *)

Definition Qpair (a b : string) (x y : Q) : Variant :=
  VDictionary [(VString a, VFloat x); (VString b, VFloat y)].

Fixpoint _variant_to_json (value : Variant) : Variant :=
  match value with
  | VNil => VNil
  | VBool _ | VInt _ | VFloat _ | VString _ => value
  | VVector2 x y => Qpair "x" "y" x y
  | VVector3 x y z =>
      VDictionary [(VString "x", VFloat x); (VString "y", VFloat y); (VString "z", VFloat z)]
  | VColor r g b a =>
      VDictionary [(VString "r", VFloat r); (VString "g", VFloat g);
                   (VString "b", VFloat b); (VString "a", VFloat a)]
  | VRect2 px py sx sy =>
      VDictionary [(VString "position", Qpair "x" "y" px py);
                   (VString "size", Qpair "x" "y" sx sy)]
  | VTransform2D ox oy xx xy yx yy =>
      VDictionary [(VString "origin", Qpair "x" "y" ox oy);
                   (VString "x", Qpair "x" "y" xx xy);
                   (VString "y", Qpair "x" "y" yx yy)]
  | VNodePath _ => VString (str value)
  | VRID _ => VString (str value)
  | VObject cls node_path =>
      let result := [(VString "_class", VString cls)] in
      VDictionary (match node_path with
                   | Some p => dict_set result "_path" (VString p)
                   | None => result
                   end)
  | VArray l => VArray (map _variant_to_json l)
  | VDictionary d =>
      VDictionary
        (fold_left (fun dict kv =>
                      match kv with
                      | (key, item) => dict_set dict (str key) (_variant_to_json item)
                      end) d [])
  | VOther type_name _ =>
      VDictionary [(VString "_type", VString type_name);
                   (VString "_string", VString (str value))]
  end.

(** ** Scene inspection: find_nodes (lines 542-581) *)

Definition _MAX_FIND_RESULTS : Z := 1000.

Definition node_entry (node : Node) : Variant :=
  VDictionary [(VString "name", VString (node_name node));
               (VString "type", VString (get_class node));
               (VString "path", VString (get_path node))].

Fixpoint _find_nodes_recursive (node : Node)
    (type_filter name_pattern group_filter : string)
    (results : list Variant) {struct node} : list Variant :=
  if (Z.of_nat (length results) >=? _MAX_FIND_RESULTS)%Z then results
  else
    let matches := true in
    let matches :=
      if negb (is_empty type_filter) && negb (is_class node type_filter)
      then false else matches in
    let matches :=
      if negb (is_empty name_pattern) && negb (String_match (node_name node) name_pattern)
      then false else matches in
    let matches :=
      if negb (is_empty group_filter) && negb (is_in_group node group_filter)
      then false else matches in
    let results := if matches then (results ++ [node_entry node])%list else results in
    match node with
    | mkNode _ _ _ _ _ _ children =>
        fold_left (fun results child =>
                     _find_nodes_recursive child type_filter name_pattern
                                           group_filter results)
                  children results
    end.

Definition _handle_find_nodes (id : Variant) (params : Dict) : M unit :=
  root_path ← as_String (dict_get params "root_path" (VString "/root"));
  type_filter ← as_String (dict_get params "type" (VString ""));
  name_pattern ← as_String (dict_get params "name_pattern" (VString ""));
  group_filter ← as_String (dict_get params "group" (VString ""));
  root_node ← get_node_or_null root_path;
  match root_node with
  | None => _send_error id (-32602) ("Node not found: " +:+ root_path)
  | Some root =>
      let results :=
        _find_nodes_recursive root type_filter name_pattern group_filter [] in
      _send_response id (VArray results)
  end.

(** ** Game state queries (lines 612-696) *)

Definition _BLOCKED_METHODS : list string :=
  ["queue_free"; "free"; "set_script"; "remove_child";
   "call"; "callv"; "call_deferred"; "emit_signal"].

Definition _handle_call_method (id : Variant) (params : Dict) : M unit :=
  node_path ← as_String (dict_get params "node_path" (VString ""));
  if is_empty node_path
  then _send_error id (-32602) "Missing required parameter: node_path"
  else
    method_name ← as_String (dict_get params "method_name" (VString ""));
    if is_empty method_name
    then _send_error id (-32602) "Missing required parameter: method_name"
    else
      unsafe ← reads _unsafe_mode;
      if negb unsafe && string_in method_name _BLOCKED_METHODS
      then _send_error id (-32001)
             ("Method '" +:+ method_name +:+ "' is blocked without --unsafe flag")
      else
        node ← get_node_or_null node_path;
        match node with
        | None => _send_error id (-32602) ("Node not found: " +:+ node_path)
        | Some n =>
            method_args ← as_Array (dict_get params "args" (VArray []));
            result ← callv (node_id n) method_name method_args;
            _send_response id (_variant_to_json result)
        end.

(** The loop [for prop_name in properties: result[prop_name] = ...]. *)
Fixpoint read_properties (node : nat) (properties : list Variant) (result : Dict)
  : M Dict :=
  match properties with
  | [] => mret result
  | p :: rest =>
      prop_name ← as_String p;
      v ← Object_get node prop_name;
      read_properties node rest (dict_set result prop_name (_variant_to_json v))
  end.

Definition _handle_get_singleton (id : Variant) (params : Dict) : M unit :=
  singleton_name ← as_String (dict_get params "singleton_name" (VString ""));
  if is_empty singleton_name
  then _send_error id (-32602) "Missing required parameter: singleton_name"
  else if contains ".." singleton_name || contains "/" singleton_name
  then _send_error id (-32602)
         "Invalid singleton name: must be a simple name, not a path"
  else
    node ← get_node_or_null ("/root/" +:+ singleton_name);
    match node with
    | None => _send_error id (-32602) ("Singleton not found: " +:+ singleton_name)
    | Some n =>
        properties ← as_Array (dict_get params "properties" (VArray []));
        result ← read_properties (node_id n) properties [];
        _send_response id (VDictionary result)
    end.

Definition _handle_evaluate_expression (id : Variant) (params : Dict) : M unit :=
  unsafe ← reads _unsafe_mode;
  if negb unsafe
  then _send_error id (-32001)
         "evaluate_expression requires --unsafe flag on TestBridge"
  else
    expr_string ← as_String (dict_get params "expression" (VString ""));
    if is_empty expr_string
    then _send_error id (-32602) "Missing required parameter: expression"
    else
      base_path ← as_String (dict_get params "base_node_path" (VString "/root"));
      base_node ← get_node_or_null base_path;
      match base_node with
      | None => _send_error id (-32602) ("Base node not found: " +:+ base_path)
      | Some n =>
          parse_err ← expr_parse expr_string;
          match parse_err with
          | Some text =>
              _send_error id (-32602) ("Expression parse error: " +:+ text)
          | None =>
              r ← expr_execute expr_string (node_id n);
              match r with
              | inr text =>
                  _send_error id (-32603)
                    ("Expression execution failed: " +:+ text)
              | inl result => _send_response id (_variant_to_json result)
              end
          end
      end.

(** ** Input simulation: send_key (lines 232-301) *)

Definition _key_map : list (string * Key) :=
  [("Space", KEY_SPACE); ("Enter", KEY_ENTER); ("Escape", KEY_ESCAPE);
   ("Tab", KEY_TAB); ("Backspace", KEY_BACKSPACE); ("Delete", KEY_DELETE);
   ("Up", KEY_UP); ("Down", KEY_DOWN); ("Left", KEY_LEFT); ("Right", KEY_RIGHT);
   ("Home", KEY_HOME); ("End", KEY_END); ("PageUp", KEY_PAGEUP);
   ("PageDown", KEY_PAGEDOWN); ("Insert", KEY_INSERT);
   ("F1", KEY_F1); ("F2", KEY_F2); ("F3", KEY_F3); ("F4", KEY_F4);
   ("F5", KEY_F5); ("F6", KEY_F6); ("F7", KEY_F7); ("F8", KEY_F8);
   ("F9", KEY_F9); ("F10", KEY_F10); ("F11", KEY_F11); ("F12", KEY_F12)].

Fixpoint key_map_get (m : list (string * Key)) (k : string) : option Key :=
  match m with
  | [] => None
  | (k', v) :: m' => if String.eqb k k' then Some v else key_map_get m' k
  end.

(** [String.split(sep)] for a one-character separator. *)
Fixpoint split_on (sep : ascii) (s : string) : list string :=
  match s with
  | EmptyString => [""]
  | String c rest =>
      if Ascii.eqb c sep then "" :: split_on sep rest
      else match split_on sep rest with
           | [] => [String c ""]
           | w :: ws => String c w :: ws
           end
  end.

Definition unicode_at0 (s : string) : N :=
  match s with String a _ => N_of_ascii a | EmptyString => 0%N end.

(** Lines 262-270: the key map first, then a single letter or digit. *)
Definition resolve_keycode (key_name : string) : option Key :=
  match key_map_get _key_map key_name with
  | Some k => Some k
  | None =>
      if (String.length key_name =? 1)%nat then
        let ch := String_to_upper key_name in
        if String.leb "A" ch && String.leb ch "Z"
        then Some (KEY_UNICODE (unicode_at0 ch))
        else if String.leb "0" ch && String.leb ch "9"
        then Some (KEY_UNICODE (unicode_at0 ch))
        else None
      else None
  end.

Definition _inject_key (keycode : Key) (pressed ctrl shift alt meta : bool) : M unit :=
  effect (ParseInputEvent (InputEventKey keycode pressed ctrl shift alt meta)).

Definition key_names (m : list (string * Key)) : list string := map fst m.

Fixpoint join (sep : string) (l : list string) : string :=
  match l with
  | [] => ""
  | [x] => x
  | x :: rest => x +:+ sep +:+ join sep rest
  end.

(** An asynchronous handler runs up to its first [await] and hands back
    the suspended coroutine, or [None] when it ran to its end. *)
Definition _handle_send_key (id : Variant) (params : Dict) : M (option Coroutine) :=
  key_string ← as_String (dict_get params "key" (VString ""));
  if is_empty key_string
  then _send_error id (-32602) "Missing required parameter: key";; mret None
  else
    action ← as_String (dict_get params "action" (VString "tap"));
    hold_ms ← to_int (dict_get params "hold_ms" (VInt 100));
    let parts := split_on "+"%char key_string in
    let key_name := default "" (last parts) in
    let mods := map String_strip_edges (removelast parts) in
    let ctrl := string_in "Ctrl" mods in
    let shift := string_in "Shift" mods in
    let alt := string_in "Alt" mods in
    let meta := string_in "Meta" mods in
    match resolve_keycode key_name with
    | None =>
        _send_error id (-32602)
          ("Unknown key: " +:+ key_name +:+ ". Valid keys: A-Z, 0-9, "
             +:+ join ", " (key_names _key_map));;
        mret None
    | Some keycode =>
        if String.eqb action "press" then
          _inject_key keycode true ctrl shift alt meta;;
          _send_response id
            (VDictionary [(VString "action", VString "press");
                          (VString "key", VString key_string)]);;
          mret None
        else if String.eqb action "release" then
          _inject_key keycode false ctrl shift alt meta;;
          _send_response id
            (VDictionary [(VString "action", VString "release");
                          (VString "key", VString key_string)]);;
          mret None
        else if String.eqb action "tap" then
          mark_pending id;;
          _inject_key keycode true ctrl shift alt meta;;
          effect (CreateTimer hold_ms);;
          mret (Some (CoSendKey id keycode ctrl shift alt meta key_string))
        else
          _send_error id (-32602)
            ("Invalid action: " +:+ action +:+ ". Must be press, release, or tap");;
          mret None
    end.

(** Lines 287-288, after the hold timer fired. *)
Definition resume_send_key (id : Variant) (keycode : Key)
    (ctrl shift alt meta : bool) (key_string : string) : M (option Coroutine) :=
  _inject_key keycode false ctrl shift alt meta;;
  _send_response id
    (VDictionary [(VString "action", VString "tap");
                  (VString "key", VString key_string)]);;
  mret None.

(** ** Input simulation: send_mouse_drag (lines 357-412, 441-462) *)

Definition _resolve_mouse_button (name : string) : Z :=
  if String.eqb name "left" then MOUSE_BUTTON_LEFT
  else if String.eqb name "right" then MOUSE_BUTTON_RIGHT
  else if String.eqb name "middle" then MOUSE_BUTTON_MIDDLE
  else 0%Z.

Definition _resolve_button_mask (button_index : Z) : Z :=
  if (button_index =? MOUSE_BUTTON_LEFT)%Z then MOUSE_BUTTON_MASK_LEFT
  else if (button_index =? MOUSE_BUTTON_RIGHT)%Z then MOUSE_BUTTON_MASK_RIGHT
  else if (button_index =? MOUSE_BUTTON_MIDDLE)%Z then MOUSE_BUTTON_MASK_MIDDLE
  else 0%Z.

Definition lerp (a b : Vector2) (t : Q) : Vector2 :=
  (fst a + (fst b - fst a) * t, snd a + (snd b - snd a) * t)%Q.

Definition vec_json (v : Vector2) : Variant :=
  VDictionary [(VString "x", VFloat (fst v)); (VString "y", VFloat (snd v))].

(** One turn of the interpolation loop: lines 394-402, up to the [await]. *)
Definition drag_step (from_pos to_pos : Vector2) (button_index steps i : Z) : M unit :=
  let t := (inject_Z i / inject_Z steps)%Q in
  let pos := lerp from_pos to_pos t in
  let relative := ((fst to_pos - fst from_pos) / inject_Z steps,
                   (snd to_pos - snd from_pos) / inject_Z steps)%Q in
  effect (ParseInputEvent
            (InputEventMouseMotion pos relative (_resolve_button_mask button_index)));;
  effect (CreateTimer 16).

Definition _do_mouse_drag (id : Variant) (from_pos to_pos : Vector2)
    (button_index duration_ms : Z) : M (option Coroutine) :=
  effect (ParseInputEvent (InputEventMouseMotion from_pos (0, 0)%Q 0));;
  effect (ParseInputEvent (InputEventMouseButton from_pos button_index true));;
  let steps := Z.max 1 (Z.quot duration_ms 16) in
  drag_step from_pos to_pos button_index steps 1;;
  mret (Some (CoMouseDrag id from_pos to_pos button_index steps 1)).

(** After the 16 ms timer: the next turn of the loop, or lines 405-412. *)
Definition resume_mouse_drag (id : Variant) (from_pos to_pos : Vector2)
    (button_index steps i : Z) : M (option Coroutine) :=
  if (i + 1 <=? steps)%Z then
    drag_step from_pos to_pos button_index steps (i + 1);;
    mret (Some (CoMouseDrag id from_pos to_pos button_index steps (i + 1)))
  else
    effect (ParseInputEvent (InputEventMouseButton to_pos button_index false));;
    _send_response id
      (VDictionary [(VString "action", VString "drag");
                    (VString "from", vec_json from_pos);
                    (VString "to", vec_json to_pos)]);;
    mret None.

Definition _handle_send_mouse_drag (id : Variant) (params : Dict)
  : M (option Coroutine) :=
  if negb (dict_has params "from_x") || negb (dict_has params "from_y")
     || negb (dict_has params "to_x") || negb (dict_has params "to_y")
  then _send_error id (-32602)
         "Missing required parameters: from_x, from_y, to_x, to_y";;
       mret None
  else
    from_x ← to_float (dict_get params "from_x" VNil);
    from_y ← to_float (dict_get params "from_y" VNil);
    to_x ← to_float (dict_get params "to_x" VNil);
    to_y ← to_float (dict_get params "to_y" VNil);
    button_name ← as_String (dict_get params "button" (VString "left"));
    duration_ms ← to_int (dict_get params "duration_ms" (VInt 500));
    let button_index := _resolve_mouse_button button_name in
    if (button_index =? 0)%Z
    then _send_error id (-32602) ("Invalid button: " +:+ button_name);; mret None
    else
      mark_pending id;;
      _do_mouse_drag id (from_x, from_y) (to_x, to_y) button_index duration_ms.

(** ** Waiting: wait_for_condition (lines 701-764) *)

Definition timeout_result (last_value : Variant) (elapsed : Z) : Variant :=
  VDictionary [(VString "satisfied", VBool false);
               (VString "timeout", VBool true);
               (VString "last_value", _variant_to_json last_value);
               (VString "elapsed_ms", VInt elapsed)].

Definition satisfied_result (result : Variant) (elapsed : Z) : Variant :=
  VDictionary [(VString "satisfied", VBool true);
               (VString "value", _variant_to_json result);
               (VString "elapsed_ms", VInt elapsed)].

(** One turn of [while true] in [_poll_condition], from the top of the
    loop to a [return] or to the [await] at its bottom. *)
Definition poll_turn (id : Variant) (expr_string : string) (base_node : nat)
    (timeout_ms poll_interval_ms start_time : Z) (last_value : Variant)
  : M (option Coroutine) :=
  now ← Time_get_ticks_msec;
  let elapsed := (now - start_time)%Z in
  if (elapsed >=? timeout_ms)%Z then
    _send_response id (timeout_result last_value elapsed);; mret None
  else
    valid ← is_instance_valid base_node;
    if negb valid then
      _send_error id (-32603) "Base node was freed (scene changed during wait)";;
      mret None
    else
      parse_err ← expr_parse expr_string;
      match parse_err with
      | Some text =>
          _send_error id (-32603) ("Expression error during polling: " +:+ text);;
          mret None
      | None =>
          r ← expr_execute expr_string base_node;
          match r with
          | inr text =>
              _send_error id (-32603) ("Expression execution failed: " +:+ text);;
              mret None
          | inl result =>
              if booleanize result then
                now' ← Time_get_ticks_msec;
                _send_response id (satisfied_result result (now' - start_time));;
                mret None
              else
                effect (CreateTimer poll_interval_ms);;
                mret (Some (CoPollCondition id expr_string base_node timeout_ms
                                            poll_interval_ms start_time result))
          end
      end.

Definition _poll_condition (id : Variant) (expr_string : string) (base_node : nat)
    (timeout_ms poll_interval_ms : Z) : M (option Coroutine) :=
  start_time ← Time_get_ticks_msec;
  poll_turn id expr_string base_node timeout_ms poll_interval_ms start_time VNil.

Definition _handle_wait_for_condition (id : Variant) (params : Dict)
  : M (option Coroutine) :=
  unsafe ← reads _unsafe_mode;
  if negb unsafe
  then _send_error id (-32001)
         "wait_for_condition uses expression evaluation and requires --unsafe flag";;
       mret None
  else
    expr_string ← as_String (dict_get params "expression" (VString ""));
    if is_empty expr_string
    then _send_error id (-32602) "Missing required parameter: expression";;
         mret None
    else
      timeout_ms ← to_int (dict_get params "timeout_ms" (VInt 5000));
      requested ← to_int (dict_get params "poll_interval_ms" (VInt 100));
      let poll_interval_ms := Z.max 16 requested in
      base_path ← as_String (dict_get params "base_node_path" (VString "/root"));
      base_node ← get_node_or_null base_path;
      match base_node with
      | None =>
          _send_error id (-32602) ("Base node not found: " +:+ base_path);;
          mret None
      | Some n =>
          parse_err ← expr_parse expr_string;
          match parse_err with
          | Some text =>
              _send_error id (-32602) ("Expression parse error: " +:+ text);;
              mret None
          | None =>
              mark_pending id;;
              _poll_condition id expr_string (node_id n) timeout_ms poll_interval_ms
          end
      end.

(** ** Waiting: wait_frames (lines 767-780) *)

(** [for i in range(count): await get_tree().process_frame], entered with
    the loop variable about to take the value [i]. *)
Definition wait_frames_from (id : Variant) (count i : Z) : M (option Coroutine) :=
  if (i <? count)%Z then
    effect AwaitProcessFrame;;
    mret (Some (CoWaitFrames id count i))
  else
    _send_response id (VDictionary [(VString "frames_waited", VInt count)]);;
    mret None.

Definition _do_wait_frames (id : Variant) (count : Z) : M (option Coroutine) :=
  wait_frames_from id count 0.

Definition _handle_wait_frames (id : Variant) (params : Dict) : M (option Coroutine) :=
  count ← to_int (dict_get params "count" (VInt 1));
  if (count <? 1)%Z
  then _send_error id (-32602) "count must be >= 1";; mret None
  else
    mark_pending id;;
    _do_wait_frames id count.

(** ** Waiting: wait_for_signal (lines 783-837) *)

(** The callable of line 814 takes up to four positional arguments, each
    defaulting to null; a call with more is refused and its body does not
    run. *)
Definition bind4 (args : list Variant) : option (list Variant) :=
  match args with
  | [] => Some [VNil; VNil; VNil; VNil]
  | [a1] => Some [a1; VNil; VNil; VNil]
  | [a1; a2] => Some [a1; a2; VNil; VNil]
  | [a1; a2; a3] => Some [a1; a2; a3; VNil]
  | [a1; a2; a3; a4] => Some [a1; a2; a3; a4]
  | _ => None
  end.

(** Lines 816-818: what the body appends to [signal_args]. *)
Definition captured (l : list Variant) : list Variant :=
  map _variant_to_json (List.filter (fun arg => negb (is_nil arg)) l).

Definition received_result (signal_args : list Variant) (elapsed : Z) : Variant :=
  VDictionary [(VString "received", VBool true);
               (VString "args", VArray signal_args);
               (VString "elapsed_ms", VInt elapsed)].

Definition not_received_result (elapsed : Z) : Variant :=
  VDictionary [(VString "received", VBool false);
               (VString "timeout", VBool true);
               (VString "elapsed_ms", VInt elapsed)].

(** One test of [while not received] and, when it holds, one turn of the
    loop body, up to a [return] or to the [await]. *)
Definition signal_turn (id : Variant) (node : nat) (signal_name : string)
    (timeout_ms start_time : Z) (received : bool) (signal_args : list Variant)
    (connected : bool) : M (option Coroutine) :=
  if received then
    now ← Time_get_ticks_msec;
    _send_response id (received_result signal_args (now - start_time));;
    mret None
  else
    valid ← is_instance_valid node;
    if negb valid then
      _send_error id (-32603) "Node was freed (scene changed during wait)";;
      mret None
    else
      now ← Time_get_ticks_msec;
      let elapsed := (now - start_time)%Z in
      if (elapsed >=? timeout_ms)%Z then
        still_valid ← is_instance_valid node;
        (if still_valid && connected
         then effect (Disconnect node signal_name) else mret tt);;
        _send_response id (not_received_result elapsed);;
        mret None
      else
        effect (CreateTimer 16);;
        mret (Some (CoWaitForSignal id node signal_name timeout_ms start_time
                                    received signal_args connected)).

Definition _do_wait_for_signal (id : Variant) (node : nat) (signal_name : string)
    (timeout_ms : Z) : M (option Coroutine) :=
  effect (Connect node signal_name);;
  start_time ← Time_get_ticks_msec;
  signal_turn id node signal_name timeout_ms start_time false [] true.

Definition _handle_wait_for_signal (id : Variant) (params : Dict)
  : M (option Coroutine) :=
  node_path ← as_String (dict_get params "node_path" (VString ""));
  if is_empty node_path
  then _send_error id (-32602) "Missing required parameter: node_path";; mret None
  else
    signal_name ← as_String (dict_get params "signal_name" (VString ""));
    if is_empty signal_name
    then _send_error id (-32602) "Missing required parameter: signal_name";;
         mret None
    else
      timeout_ms ← to_int (dict_get params "timeout_ms" (VInt 5000));
      node ← get_node_or_null node_path;
      match node with
      | None =>
          _send_error id (-32602) ("Node not found: " +:+ node_path);; mret None
      | Some n =>
          known ← has_signal (node_id n) signal_name;
          if negb known
          then _send_error id (-32602)
                 ("Signal not found: " +:+ signal_name +:+ " on node " +:+ node_path);;
               mret None
          else
            mark_pending id;;
            _do_wait_for_signal id (node_id n) signal_name timeout_ms
      end.

(** The signal is emitted: a connected one-shot callable is disconnected
    and called. *)
Definition deliver_signal (node : nat) (signal : string) (args : list Variant)
    (c : Coroutine) : Coroutine :=
  match c with
  | CoWaitForSignal id n sg timeout_ms start_time received signal_args true =>
      if (n =? node)%nat && String.eqb sg signal then
        match bind4 args with
        | Some l =>
            CoWaitForSignal id n sg timeout_ms start_time true
                            (signal_args ++ captured l)%list false
        | None =>
            CoWaitForSignal id n sg timeout_ms start_time received signal_args false
        end
      else c
  | _ => c
  end.

(** ** Resuming a coroutine at the statement after its [await] *)

Definition resume (c : Coroutine) : M (option Coroutine) :=
  match c with
  | CoSendKey id keycode ctrl shift alt meta key_string =>
      resume_send_key id keycode ctrl shift alt meta key_string
  | CoMouseDrag id from_pos to_pos button_index steps i =>
      resume_mouse_drag id from_pos to_pos button_index steps i
  | CoPollCondition id expr_string base_node timeout_ms poll_interval_ms
                    start_time last_value =>
      poll_turn id expr_string base_node timeout_ms poll_interval_ms
                start_time last_value
  | CoWaitFrames id count i => wait_frames_from id count (i + 1)
  | CoWaitForSignal id node signal_name timeout_ms start_time received
                    signal_args connected =>
      signal_turn id node signal_name timeout_ms start_time received
                  signal_args connected
  end.

(** ** Dispatch (lines 108-172) *)

Inductive Method : Type :=
| hello | send_key | send_mouse_click | send_mouse_move | send_mouse_drag
| send_input_action | get_scene_tree | get_node_properties | find_nodes
| get_viewport_info | call_method | get_singleton | evaluate_expression
| wait_for_condition | wait_frames | wait_for_signal | take_screenshot
| get_pixel_color | reset_scene | load_scene.

Definition method_table : list (string * Method) :=
  [("hello", hello); ("send_key", send_key);
   ("send_mouse_click", send_mouse_click); ("send_mouse_move", send_mouse_move);
   ("send_mouse_drag", send_mouse_drag); ("send_input_action", send_input_action);
   ("get_scene_tree", get_scene_tree); ("get_node_properties", get_node_properties);
   ("find_nodes", find_nodes); ("get_viewport_info", get_viewport_info);
   ("call_method", call_method); ("get_singleton", get_singleton);
   ("evaluate_expression", evaluate_expression);
   ("wait_for_condition", wait_for_condition); ("wait_frames", wait_frames);
   ("wait_for_signal", wait_for_signal); ("take_screenshot", take_screenshot);
   ("get_pixel_color", get_pixel_color); ("reset_scene", reset_scene);
   ("load_scene", load_scene)].

(** The arms of [match method:]; [None] is the wildcard arm. *)
Fixpoint route_in (t : list (string * Method)) (method : string) : option Method :=
  match t with
  | [] => None
  | (name, m) :: t' => if String.eqb method name then Some m else route_in t' method
  end.

Definition route (method : string) : option Method := route_in method_table method.

(** The handlers embedded in this development. *)
Definition embedded (m : Method) : bool :=
  match m with
  | send_key | send_mouse_drag | find_nodes | call_method | get_singleton
  | evaluate_expression | wait_for_condition | wait_frames | wait_for_signal => true
  | _ => false
  end.

(** The other eleven handlers are left open. *)
Variable other_handler : Method → Variant → Dict → M unit.

(** A handler that stopped at an [await] leaves its coroutine with the
    engine. *)
Definition spawn (c : Coroutine) (s : State) : State :=
  set_next_handle (S (next_handle s))
    (set_coroutines (coroutines s ++ [(next_handle s, c)])%list s).

Definition start (handler : M (option Coroutine)) : M unit :=
  c ← handler;
  match c with
  | Some co => modify (spawn co)
  | None => mret tt
  end.

Definition _dispatch (id : Variant) (method : string) (params : Dict) : M unit :=
  match route method with
  | Some send_key => start (_handle_send_key id params)
  | Some send_mouse_drag => start (_handle_send_mouse_drag id params)
  | Some find_nodes => _handle_find_nodes id params
  | Some call_method => _handle_call_method id params
  | Some get_singleton => _handle_get_singleton id params
  | Some evaluate_expression => _handle_evaluate_expression id params
  | Some wait_for_condition => start (_handle_wait_for_condition id params)
  | Some wait_frames => start (_handle_wait_frames id params)
  | Some wait_for_signal => start (_handle_wait_for_signal id params)
  | Some m => other_handler m id params
  | None => _send_error id (-32601) ("Method not found: " +:+ method)
  end.

Definition _handle_packet (text : string) : M unit :=
  let parsed := JSON_parse_string text in
  if is_nil parsed then
    _send_raw_response VNil VNil (error_dict (-32700) "Parse error: invalid JSON")
  else
    match parsed with
    | VDictionary d =>
        let id := dict_get d "id" VNil in
        method ← as_String (dict_get d "method" (VString ""));
        let params := dict_get d "params" (VDictionary []) in
        if is_empty method then
          _send_raw_response id VNil
            (error_dict (-32600) "Invalid request: missing method")
        else
          params ← as_Dictionary params;
          _dispatch id method params
    | _ =>
        _send_raw_response VNil VNil
          (error_dict (-32700) "Parse error: expected JSON object")
    end.

(** ** The frame callback (lines 66-103) *)

(** What the engine presents to one call of [_process]: whether a TCP
    connection was available and taken (and, if so, whether
    [accept_stream] returned OK), the state the socket reports after
    [poll()], and the packets it holds. *)
Record ProcessInput : Type := {
  connection : option bool;
  polled : ReadyState;
  packets : list string
}.

(** A run-time error ends the function it occurs in; the caller goes on. *)
Definition guarded (m : M unit) : M unit :=
  fun s => (fst (m s), Done tt).

Fixpoint handle_packets (l : list string) : M unit :=
  match l with
  | [] => mret tt
  | text :: rest => guarded (_handle_packet text);; handle_packets rest
  end.

Definition accept_connection (ok : bool) : M unit :=
  old ← reads _ws_peer;
  match old with
  | Some p => effect (ClosePeer (peer_id p));; modify (set_peer None)
  | None => mret tt
  end;;
  n ← reads next_peer;
  modify (set_next_peer (S n));;
  if ok then modify (set_peer (Some {| peer_id := n; ready_state := STATE_CONNECTING |}))
  else modify (set_peer None).

Definition _process (inp : ProcessInput) : M unit :=
  active ← reads _active;
  if negb active then mret tt
  else
    match connection inp with
    | Some ok => accept_connection ok
    | None => mret tt
    end;;
    peer ← reads _ws_peer;
    match peer with
    | Some p =>
        modify (set_peer (Some {| peer_id := peer_id p; ready_state := polled inp |}));;
        match polled inp with
        | STATE_OPEN => handle_packets (packets inp)
        | STATE_CLOSED => modify (set_peer None)
        | _ => mret tt
        end
    | None => mret tt
    end.


(** ** The agent as a machine driven by the engine *)

Inductive Event : Type :=
| EvProcess (inp : ProcessInput)
| EvTimeout (handle : nat)
| EvProcessFrame
| EvSignal (node : nat) (signal : string) (args : list Variant)
| EvWorld (h : Host) (elapsed_ms : N).

(** The world changes and time passes. *)
Definition advance (h : Host) (dt : N) (s : State) : State :=
  set_ticks (ticks_msec s + Z.of_N dt) (set_host h s).

Fixpoint take_coroutine (k : nat) (l : list (nat * Coroutine))
  : option (Coroutine * list (nat * Coroutine)) :=
  match l with
  | [] => None
  | (k', c) :: l' =>
      if (k =? k')%nat then Some (c, l')
      else match take_coroutine k l' with
           | Some (c', rest) => Some (c', (k', c) :: rest)
           | None => None
           end
  end.

(** The engine resumes coroutine [k]; if it suspends again it keeps its
    handle, otherwise (end of function or run-time error) it is gone. *)
Definition resume_handle (k : nat) (s : State) : State :=
  match take_coroutine k (coroutines s) with
  | None => s
  | Some (c, rest) =>
      match resume c (set_coroutines rest s) with
      | (s', Done (Some c')) => set_coroutines (coroutines s' ++ [(k, c')])%list s'
      | (s', _) => s'
      end
  end.

Definition frame_waiters (s : State) : list nat :=
  map fst (List.filter (fun kc => awaits_process_frame (snd kc)) (coroutines s)).

Definition step (s : State) (ev : Event) : State :=
  match ev with
  | EvProcess inp => fst (_process inp s)
  | EvTimeout k =>
      match take_coroutine k (coroutines s) with
      | Some (c, _) => if awaits_process_frame c then s else resume_handle k s
      | None => s
      end
  | EvProcessFrame => fold_left (fun s k => resume_handle k s) (frame_waiters s) s
  | EvSignal node signal args =>
      if Host_is_valid (host s) node
      then set_coroutines
             (map (fun kc => (fst kc, deliver_signal node signal args (snd kc)))
                  (coroutines s)) s
      else s
  | EvWorld h dt => advance h dt s
  end.

Definition run (s : State) (evs : list Event) : State := fold_left step evs s.

(** The state with [new] appended to the effect log. *)
Definition emit (new : list Effect) (s : State) : State :=
  set_effects (effects s ++ new)%list s.

(** ** One operation on its own *)

(** The engine wakes a suspended coroutine on its own schedule; each
    wake-up finds the world as it then is, some time having passed. *)
Fixpoint drive (c : option Coroutine) (wakes : list (Host * N)) (s : State)
  : State * option Coroutine :=
  match c, wakes with
  | Some co, (h, dt) :: rest =>
      match resume co (advance h dt s) with
      | (s', Done c') => drive c' rest s'
      | (s', Abort _) => (s', None)
      end
  | _, _ => (s, c)
  end.

Definition total_ms (wakes : list (Host * N)) : Z :=
  fold_right (fun w acc => (Z.of_N (snd w) + acc)%Z) 0%Z wakes.


(** The state once the expression was parsed and executed. *)
Definition evaluated (expr_string : string) (base_node : nat) (h' : Host) (s : State)
  : State :=
  set_host h' (emit [ExprParse expr_string; ExprExecute expr_string base_node] s).

(** The ways one turn of the condition poll can go. *)
Inductive poll_outcome (id : Variant) (expr_string : string) (base_node : nat)
    (timeout_ms poll_interval_ms start_time : Z) (last_value : Variant) (s : State)
  : State * result (option Coroutine) → Prop :=
| poll_timed_out :
    (timeout_ms ≤ ticks_msec s - start_time)%Z →
    poll_outcome id expr_string base_node timeout_ms poll_interval_ms start_time
      last_value s
      (fst (_send_response id
              (timeout_result last_value (ticks_msec s - start_time)) s),
       Done None)
| poll_node_freed :
    (ticks_msec s - start_time < timeout_ms)%Z →
    Host_is_valid (host s) base_node = false →
    poll_outcome id expr_string base_node timeout_ms poll_interval_ms start_time
      last_value s
      (fst (_send_error id (-32603)
              "Base node was freed (scene changed during wait)" s),
       Done None)
| poll_failed text h' :
    (ticks_msec s - start_time < timeout_ms)%Z →
    Host_is_valid (host s) base_node = true →
    Host_execute (host s) expr_string base_node = (inr text, h') →
    poll_outcome id expr_string base_node timeout_ms poll_interval_ms start_time
      last_value s
      (fst (_send_error id (-32603) ("Expression execution failed: " +:+ text)
              (evaluated expr_string base_node h' s)),
       Done None)
| poll_satisfied value h' :
    (ticks_msec s - start_time < timeout_ms)%Z →
    Host_is_valid (host s) base_node = true →
    Host_execute (host s) expr_string base_node = (inl value, h') →
    booleanize value = true →
    poll_outcome id expr_string base_node timeout_ms poll_interval_ms start_time
      last_value s
      (fst (_send_response id
              (satisfied_result value (ticks_msec s - start_time))
              (evaluated expr_string base_node h' s)),
       Done None)
| poll_again value h' :
    (ticks_msec s - start_time < timeout_ms)%Z →
    Host_is_valid (host s) base_node = true →
    Host_execute (host s) expr_string base_node = (inl value, h') →
    booleanize value = false →
    poll_outcome id expr_string base_node timeout_ms poll_interval_ms start_time
      last_value s
      (emit [CreateTimer poll_interval_ms] (evaluated expr_string base_node h' s),
       Done (Some (CoPollCondition id expr_string base_node timeout_ms
                                   poll_interval_ms start_time value))).

(** A response of the form [{satisfied: false, timeout: true, ...}]. *)
Definition is_timeout_reply (r : Variant) : bool :=
  match r with
  | VDictionary d =>
      match dict_get d "result" VNil with
      | VDictionary res =>
          match dict_get res "timeout" VNil with
          | VBool true => true
          | _ => false
          end
      | _ => false
      end
  | _ => false
  end.


(** The ways one test of [while not received] can go. *)
Inductive signal_outcome (id : Variant) (node : nat) (signal_name : string)
    (timeout_ms start_time : Z) (signal_args : list Variant) (connected : bool)
    (s : State) : bool → State * result (option Coroutine) → Prop :=
| signal_received :
    signal_outcome id node signal_name timeout_ms start_time signal_args connected s
      true
      (fst (_send_response id
              (received_result signal_args (ticks_msec s - start_time)) s),
       Done None)
| signal_node_freed :
    Host_is_valid (host s) node = false →
    signal_outcome id node signal_name timeout_ms start_time signal_args connected s
      false
      (fst (_send_error id (-32603) "Node was freed (scene changed during wait)" s),
       Done None)
| signal_timed_out :
    Host_is_valid (host s) node = true →
    (timeout_ms ≤ ticks_msec s - start_time)%Z →
    signal_outcome id node signal_name timeout_ms start_time signal_args connected s
      false
      (fst (_send_response id (not_received_result (ticks_msec s - start_time))
              (emit (if connected then [Disconnect node signal_name] else []) s)),
       Done None)
| signal_wait_on :
    Host_is_valid (host s) node = true →
    (ticks_msec s - start_time < timeout_ms)%Z →
    signal_outcome id node signal_name timeout_ms start_time signal_args connected s
      false
      (emit [CreateTimer 16] s,
       Done (Some (CoWaitForSignal id node signal_name timeout_ms start_time
                                   false signal_args connected))).

(** ** Vocabulary for the properties *)

(** The socket a response would go to: the current peer, if open. *)
Definition peer_open (p : option Peer) : option nat :=
  match p with
  | Some p => if is_open (ready_state p) then Some (peer_id p) else None
  | None => None
  end.

(** The Dictionary that [_send_raw_response] serializes. *)
Definition reply (id result error : Variant) : Variant :=
  VDictionary
    (let response := dict_set [] "id" id in
     if negb (is_nil error) then dict_set response "error" error
     else dict_set response "result" result).

Definition deliver (p : option Peer) (response : Variant) : list Effect :=
  match peer_open p with
  | Some n => [SendText n response]
  | None => []
  end.

(** The text frames sent and the sockets closed, in order. *)
Definition sends (l : list Effect) : list (nat * Variant) :=
  omap (fun e => match e with SendText p r => Some (p, r) | _ => None end) l.

Definition closes (l : list Effect) : list nat :=
  omap (fun e => match e with ClosePeer p => Some p | _ => None end) l.

Definition response_id (r : Variant) : Variant :=
  match r with VDictionary d => dict_get d "id" VNil | _ => VNil end.

(** What neither a handler nor a resumed coroutine touches. *)
Definition same_frame (s s' : State) : Prop :=
  _active s' = _active s ∧ _unsafe_mode s' = _unsafe_mode s
  ∧ _ws_peer s' = _ws_peer s ∧ next_peer s' = next_peer s
  ∧ ticks_msec s' = ticks_msec s ∧ coroutines s' = coroutines s
  ∧ next_handle s' = next_handle s.

(** A computation that sends nothing and closes nothing. *)
Definition quiet {A} (m : M A) : Prop :=
  ∀ s, same_frame s (fst (m s))
       ∧ ∃ new, effects (fst (m s)) = (effects s ++ new)%list
                ∧ sends new = [] ∧ closes new = [].

(** A computation working for request [id]: if it ends it has handed
    exactly one response for [id] to the current peer (nothing goes out
    when that peer is absent or not open); if it suspends or stops on a
    run-time error it has sent nothing.  [view] tells a suspension from an
    end. *)
Definition answers {A} (view : A → option Coroutine) (id : Variant) (m : M A) : Prop :=
  ∀ s, same_frame s (fst (m s))
       ∧ ∃ new, effects (fst (m s)) = (effects s ++ new)%list
                ∧ closes new = []
                ∧ match snd (m s) with
                  | Done a =>
                      match view a with
                      | Some c => co_id c = id ∧ sends new = []
                      | None =>
                          ∃ response,
                            response_id response = id
                            ∧ sends new = sends (deliver (_ws_peer s) response)
                      end
                  | Abort _ => sends new = []
                  end.





(** A message that does not reach one of the handlers left open. *)
Definition in_scope (text : string) : bool :=
  match JSON_parse_string text with
  | VDictionary d =>
      match string_of (dict_get d "method" (VString "")) with
      | Done method =>
          match route method with
          | Some m => embedded m
          | None => true
          end
      | Abort _ => true
      end
  | _ => true
  end.

Definition event_in_scope (ev : Event) : bool :=
  match ev with
  | EvProcess inp => forallb in_scope (packets inp)
  | _ => true
  end.





End Agent.

Arguments State E : clear implicits.
Arguments M E A : clear implicits.

(** * The controller client (class BridgeClient)

    The client is event-driven: a call of [send], a timer firing, a
    message arriving, [disconnect], the socket closing.  The n-th call of
    [send] creates promise n and timer n, so one number stands for the
    [resolve]/[reject] pair and the timer of one request.  Every call of
    [resolve] or [reject] is recorded, in order. *)

Module BridgeClient.

#[local] Unset Elimination Schemes.
Inductive Js : Type :=
| JUndefined
| JNull
| JBool (b : bool)
| JNumber (z : Z)
| JString (s : string)
| JArray (l : list Js)
| JObject (fields : list (string * Js)).
#[local] Set Elimination Schemes.

(** What the JavaScript runtime decides. *)
Class Runtime : Type := {
  JSON_parse : string → option Js;   (* [None]: a SyntaxError is thrown *)
  JSON_stringify : Js → string;
  ToString : Js → string             (* [String(v)] of a value that is not a string *)
}.

Fixpoint field (fields : list (string * Js)) (k : string) : Js :=
  match fields with
  | [] => JUndefined
  | (k', v) :: rest => if String.eqb k k' then v else field rest k
  end.

(** [v.k] for one of the property names used by the client (id, error,
    result, code, message): a TypeError on null and undefined, the field
    of an object, undefined on anything else. *)
Definition prop (v : Js) (k : string) : option Js :=
  match v with
  | JUndefined | JNull => None
  | JObject fields => Some (field fields k)
  | _ => Some JUndefined
  end.

(** [v === undefined || v === null] *)
Definition nullish (v : Js) : bool :=
  match v with JUndefined | JNull => true | _ => false end.

Definition truthy (v : Js) : bool :=
  match v with
  | JUndefined | JNull => false
  | JBool b => b
  | JNumber z => negb (z =? 0)%Z
  | JString s => negb (is_empty s)
  | JArray _ | JObject _ => true
  end.

Section Client.
Context `{R : Runtime}.

(** [String(v)] *)
Definition String_ (v : Js) : string :=
  match v with JString s => s | _ => ToString v end.

Inductive Settlement : Type :=
| Resolved (value : Js)
| Rejected (message : string).

(** The closure of the timer callback of [send]. *)
Record TimerClosure : Type := {
  timer_id : string;
  timer_method : string;
  timer_ms : Z
}.

Record Client : Type := mkClient {
  ws_open : bool;
  pendingRequests : gmap string nat;
  timers : gmap nat TimerClosure;
  settlements : list (nat * Settlement);
  next_request : nat;
  sent : list string;
  console : list string;
  uncaught : list string
}.

Definition new_client : Client := mkClient false ∅ ∅ [] 0 [] [] [].

Definition set_ws (b : bool) (c : Client) : Client :=
  mkClient b (pendingRequests c) (timers c) (settlements c) (next_request c)
           (sent c) (console c) (uncaught c).
Definition set_pendingRequests (m : gmap string nat) (c : Client) : Client :=
  mkClient (ws_open c) m (timers c) (settlements c) (next_request c)
           (sent c) (console c) (uncaught c).
Definition set_timers (m : gmap nat TimerClosure) (c : Client) : Client :=
  mkClient (ws_open c) (pendingRequests c) m (settlements c) (next_request c)
           (sent c) (console c) (uncaught c).
Definition settle (n : nat) (o : Settlement) (c : Client) : Client :=
  mkClient (ws_open c) (pendingRequests c) (timers c) (settlements c ++ [(n, o)])
           (next_request c) (sent c) (console c) (uncaught c).
Definition set_next_request (n : nat) (c : Client) : Client :=
  mkClient (ws_open c) (pendingRequests c) (timers c) (settlements c) n
           (sent c) (console c) (uncaught c).
Definition ws_send (message : string) (c : Client) : Client :=
  mkClient (ws_open c) (pendingRequests c) (timers c) (settlements c) (next_request c)
           (sent c ++ [message]) (console c) (uncaught c).
Definition console_error (line : string) (c : Client) : Client :=
  mkClient (ws_open c) (pendingRequests c) (timers c) (settlements c) (next_request c)
           (sent c) (console c ++ [line]) (uncaught c).
Definition throw (error : string) (c : Client) : Client :=
  mkClient (ws_open c) (pendingRequests c) (timers c) (settlements c) (next_request c)
           (sent c) (console c) (uncaught c ++ [error]).

Definition timeout_message (method : string) (timeoutMs : Z) : string :=
  "Request '" +:+ method +:+ "' timed out after " +:+ ToString (JNumber timeoutMs)
    +:+ "ms".

Definition unknown_id_line (id : Js) : string :=
  "[BRIDGE] Received response for unknown request id: " +:+ String_ id.

(** [send] (lines 180-200); [uuid] is what [randomUUID()] returns. *)
Definition send (uuid method : string) (params : option Js) (timeoutMs : Z)
    (c : Client) : Client :=
  let n := next_request c in
  let c := set_next_request (S n) c in
  if negb (ws_open c) then
    settle n (Rejected "Not connected to game — call connect_to_game first") c
  else
    let c := set_timers (<[n := {| timer_id := uuid; timer_method := method;
                                   timer_ms := timeoutMs |}]> (timers c)) c in
    let c := set_pendingRequests (<[uuid := n]> (pendingRequests c)) c in
    let message :=
      JSON_stringify (JObject [("id", JString uuid); ("method", JString method);
                               ("params", default (JObject []) params)]) in
    ws_send message c.

(** Timer [n] fires, unless it was cleared: the callback of lines 188-193. *)
Definition timer_fires (n : nat) (c : Client) : Client :=
  match timers c !! n with
  | None => c
  | Some cl =>
      let c := set_timers (delete n (timers c)) c in
      match pendingRequests c !! timer_id cl with
      | None => c
      | Some _ =>
          let c := set_pendingRequests (delete (timer_id cl) (pendingRequests c)) c in
          settle n (Rejected (timeout_message (timer_method cl) (timer_ms cl))) c
      end
  end.

Definition clearTimeout (n : nat) (c : Client) : Client :=
  set_timers (delete n (timers c)) c.

Definition error_message (error : Js) : string :=
  "TestBridge error [" +:+ String_ (default JUndefined (prop error "code")) +:+ "]: "
    +:+ String_ (default JUndefined (prop error "message")).

(** [handleMessage] (lines 125-155).  The result tells whether the call
    returned ([None]) or threw. *)
Definition handleMessage (data : string) (c : Client) : Client * option string :=
  match JSON_parse data with
  | None => (console_error "[BRIDGE] Received malformed JSON, ignoring" c, None)
  | Some parsed =>
      match prop parsed "id" with
      | None => (c, Some "TypeError: Cannot read properties of null (reading 'id')")
      | Some id =>
          if nullish id then
            (console_error "[BRIDGE] Received message without id, ignoring" c, None)
          else
            match pendingRequests c !! String_ id with
            | None => (console_error (unknown_id_line id) c, None)
            | Some n =>
                let c := clearTimeout n c in
                let c :=
                  set_pendingRequests (delete (String_ id) (pendingRequests c)) c in
                let error := default JUndefined (prop parsed "error") in
                if truthy error
                then (settle n (Rejected (error_message error)) c, None)
                else (settle n (Resolved (default JUndefined (prop parsed "result"))) c,
                      None)
            end
      end
  end.

(** [rejectAllPending] (lines 219-225).  The source visits the entries in
    insertion order, this model in the order of [map_to_list]. *)
Definition rejectAllPending (error : string) (c : Client) : Client :=
  let c :=
    fold_left (fun c entry => settle (snd entry) (Rejected error)
                                (clearTimeout (snd entry) c))
              (map_to_list (pendingRequests c)) c in
  set_pendingRequests ∅ c.

(** [disconnect] (lines 160-170). *)
Definition disconnect (c : Client) : Client :=
  set_ws false (rejectAllPending "Disconnected from game" c).

(** What can happen to a client: the socket opens; [send] is called; a
    timer fires; a message arrives; [disconnect] is called; the socket is
    closed by the other side or fails (the handlers of [setupHandlers],
    lines 100-118); the socket is lost during the handshake (the handlers
    and the connection timer of [connect]). *)
Inductive ClientEvent : Type :=
| CConnected
| CSend (uuid method : string) (params : option Js) (timeoutMs : Z)
| CTimer (n : nat)
| CMessage (data : string)
| CDisconnect
| CClosed
| CError (message : string)
| CLost.

Definition client_step (c : Client) (ev : ClientEvent) : Client :=
  match ev with
  | CConnected => set_ws true c
  | CSend uuid method params timeoutMs => send uuid method params timeoutMs c
  | CTimer n => timer_fires n c
  | CMessage data =>
      match handleMessage data c with
      | (c', None) => c'
      | (c', Some error) => throw error c'
      end
  | CDisconnect => disconnect c
  | CClosed => set_ws false (rejectAllPending "WebSocket connection closed" c)
  | CError message =>
      let c := console_error ("[BRIDGE] WebSocket error: " +:+ message) c in
      set_ws false (rejectAllPending ("WebSocket error: " +:+ message) c)
  | CLost => set_ws false c
  end.

Definition client_run (c : Client) (evs : list ClientEvent) : Client :=
  fold_left client_step evs c.

(** The calls of [resolve] and [reject] made on promise [n]. *)
Definition settlements_of (n : nat) (c : Client) : list Settlement :=
  map snd (List.filter (fun ns => Nat.eqb (fst ns) n) (settlements c)).

(** No pending entry and no timer refers to request [n] any more. *)
Definition forgotten (n : nat) (c : Client) : Prop :=
  timers c !! n = None
  ∧ (∀ id, pendingRequests c !! id ≠ Some n)
  ∧ (n < next_request c)%nat.

(** [ev] is a call of [send] for which [randomUUID()] returns [id] again. *)
Definition reuses (id : string) (ev : ClientEvent) : bool :=
  match ev with
  | CSend uuid _ _ _ => String.eqb uuid id
  | _ => false
  end.

(** A request that has not been issued yet, or whose timer is still armed,
    has had neither [resolve] nor [reject] called. *)
Definition unsettled (c : Client) : Prop :=
  ∀ n, (next_request c ≤ n)%nat ∨ is_Some (timers c !! n) → settlements_of n c = [].

(** The pending entries and timers of a client are those of distinct,
    already issued requests. *)
Definition client_ok (c : Client) : Prop :=
  (∀ id n, pendingRequests c !! id = Some n → (n < next_request c)%nat)
  ∧ (∀ n cl, timers c !! n = Some cl → (n < next_request c)%nat)
  ∧ (∀ id1 id2 n, pendingRequests c !! id1 = Some n →
                  pendingRequests c !! id2 = Some n → id1 = id2).

End Client.
End BridgeClient.

(** ** A small concrete engine, for examples

    JSON texts are looked up in a table; every expression evaluates to the
    value the host holds; the scene is a list of nodes found by path. *)

Record ToyHost : Type := {
  toy_scene : list (string * Node);
  toy_valid : list nat;
  toy_value : Variant + string
}.

Fixpoint toy_lookup {A} (t : list (string * A)) (k : string) : option A :=
  match t with
  | [] => None
  | (k', v) :: t' => if String.eqb k k' then Some v else toy_lookup t' k
  end.

Definition toy_str (v : Variant) : string :=
  match v with
  | VString s => s
  | VInt z => pretty z
  | VNodePath p => p
  | _ => "?"
  end.

Definition toy_booleanize (v : Variant) : bool :=
  match v with
  | VNil => false
  | VBool b => b
  | VInt z => negb (z =? 0)%Z
  | VString s => negb (is_empty s)
  | VArray l => negb (Nat.eqb (length l) 0)
  | VDictionary d => negb (Nat.eqb (length d) 0)
  | _ => true
  end.

Definition toy_engine (json : list (string * Variant)) : Engine := {|
  Host := ToyHost;
  str := toy_str;
  JSON_parse_string := fun text => default VNil (toy_lookup json text);
  String_to_int := fun _ => 0%Z;
  String_to_float := fun _ => 0%Q;
  String_to_upper := fun s => s;
  String_strip_edges := fun s => s;
  String_match := String.eqb;
  booleanize := toy_booleanize;
  Host_get_node := fun h path => toy_lookup (toy_scene h) path;
  Host_is_valid := fun h n => existsb (Nat.eqb n) (toy_valid h);
  Host_has_signal := fun _ _ _ => true;
  Host_get := fun _ _ _ => VNil;
  Host_callv := fun h _ _ _ => (VNil, h);
  Expression_parse := fun e => if String.eqb e "(" then Some "syntax error" else None;
  Host_execute := fun h _ _ => (toy_value h, h)
|}.

Definition toy_other {E : Engine} : Method → Variant → Dict → M E unit :=
  fun _ _ _ => mret tt.

(** The state [_ready] leaves behind when the bridge is activated. *)
Definition ready {E : Engine} (unsafe : bool) (h : Host) : State E :=
  mkState true unsafe None ∅ h 0 [] 0 0 [].

Definition toy_root : Node := mkNode 1 "root" "Window" ["Node"; "Object"] "/root" [] [].

Definition toy_host (v : Variant + string) : ToyHost :=
  {| toy_scene := [("/root", toy_root)]; toy_valid := [1]; toy_value := v |}.

Definition open_with (texts : list string) : ProcessInput :=
  {| connection := Some true; polled := STATE_OPEN; packets := texts |}.



Definition request (id : Variant) (method : string) (params : Dict) : Variant :=
  VDictionary [(VString "id", id); (VString "method", VString method);
               (VString "params", VDictionary params)].


(** The messages of the examples, under the texts that stand for them. *)
Definition toy_json : list (string * Variant) :=
  [("no method", VDictionary [(VString "id", VInt 7)]);
   ("two frames", request (VInt 1) "wait_frames" [(VString "count", VInt 2)]);
   ("one frame", request (VInt 1) "wait_frames" [(VString "count", VInt 1)]);
   ("three frames", request (VInt 5) "wait_frames" [(VString "count", VInt 3)]);
   ("free", request (VInt 2) "call_method" [(VString "method_name", VString "free")]);
   ("poll", request (VInt 3) "wait_for_condition"
              [(VString "expression", VString "x"); (VString "timeout_ms", VInt 1000)]);
   ("poll 0", request (VInt 3) "wait_for_condition"
                [(VString "expression", VString "x"); (VString "timeout_ms", VInt 0)]);
   ("signal", request (VInt 4) "wait_for_signal"
                [(VString "node_path", VString "/root");
                 (VString "signal_name", VString "sig");
                 (VString "timeout_ms", VInt 100)])].

Definition toy : Engine := toy_engine toy_json.

(** A runtime for the client: JSON texts are looked up in a table. *)
Definition toy_runtime : BridgeClient.Runtime := {|
  BridgeClient.JSON_parse := toy_lookup
    [("late", BridgeClient.JObject [("id", BridgeClient.JString "u1");
                                    ("result", BridgeClient.JBool true)])];
  BridgeClient.JSON_stringify := fun _ => "{}";
  BridgeClient.ToString := fun v =>
    match v with BridgeClient.JNumber z => pretty z | _ => "?" end
|}.

(** * More of the agent and of the client

    Vocabulary for the properties of the second half of this development,
    and the handlers of the scene-tree inspection that the first half
    leaves out. *)

Section AgentVocabulary.
Context `{E : Engine}.

(** ** find_nodes *)

(** The three tests of [_find_nodes_recursive] (lines 565-570): an empty
    filter lets every node through. *)
Definition passes_filters (type_filter name_pattern group_filter : string)
    (node : Node) : bool :=
  (is_empty type_filter || is_class node type_filter)
  && (is_empty name_pattern || String_match (node_name node) name_pattern)
  && (is_empty group_filter || is_in_group node group_filter).

(** The nodes of a subtree, a node before its children and the children
    in their order. *)
Fixpoint preorder (node : Node) : list Node :=
  match node with
  | mkNode _ _ _ _ _ _ children => node :: flat_map preorder children
  end.

End AgentVocabulary.

Section Serialization.
Context `{E : Engine}.

(** ** JSON values *)

Fixpoint distinct (l : list string) : bool :=
  match l with
  | [] => true
  | x :: rest => negb (string_in x rest) && distinct rest
  end.

(** The key of a Dictionary entry, when it is a String. *)
Definition key_text (kv : Variant * Variant) : option string :=
  match fst kv with VString s => Some s | _ => None end.

(** What JSON can carry as it is: null, booleans, numbers, strings, arrays
    of such values, and dictionaries of such values under String keys, no
    key twice. *)
Fixpoint is_json (v : Variant) : bool :=
  match v with
  | VNil | VBool _ | VInt _ | VFloat _ | VString _ => true
  | VArray l => forallb is_json l
  | VDictionary d =>
      forallb (fun kv => match kv with
                         | (VString _, item) => is_json item
                         | _ => false
                         end) d
      && distinct (omap key_text d)
  | _ => false
  end.

(** A Dictionary of JSON values under distinct String keys. *)
Definition json_entries (d : Dict) : Prop := is_json (VDictionary d) = true.

End Serialization.

Section Privilege.
Context `{E : Engine}.

(** ** What only unsafe mode allows *)

(** Parsing or executing an expression, and calling one of the blocked
    methods. *)
Definition privileged (e : Effect) : bool :=
  match e with
  | ExprParse _ | ExprExecute _ _ => true
  | Callv _ method _ => string_in method _BLOCKED_METHODS
  | _ => false
  end.

Definition is_poll (c : Coroutine) : bool :=
  match c with CoPollCondition _ _ _ _ _ _ _ => true | _ => false end.

(** The flag is unset, nothing privileged was done and no condition poll
    is suspended. *)
Definition unprivileged (s : State E) : Prop :=
  _unsafe_mode s = false
  ∧ (∀ e, In e (effects s) → privileged e = false)
  ∧ (∀ kc, In kc (coroutines s) → is_poll (snd kc) = false).

(** A computation that leaves an unprivileged state unprivileged, and,
    for a handler that may suspend, does not suspend as a condition
    poll. *)
Definition mild {A} (m : M E A) : Prop :=
  ∀ s, unprivileged s → unprivileged (fst (m s)).

Definition calm (m : M E (option Coroutine)) : Prop :=
  ∀ s, unprivileged s →
       unprivileged (fst (m s))
       ∧ ∀ c, snd (m s) = Done (Some c) → is_poll c = false.

End Privilege.

Section Lives.
Context `{E : Engine}.

(** ** An asynchronous request from its arrival through its wake-ups *)

Definition life (handler : M E (option Coroutine)) (wakes : list (Host * N))
    (s : State E) : State E * option Coroutine :=
  match handler s with
  | (s', Done c) => drive c wakes s'
  | (s', Abort _) => (s', None)
  end.

(** The modifiers and the key name of a key string such as "Ctrl+Shift+A"
    (lines 241-256): the name is what follows the last "+". *)
Definition key_name_of (key_string : string) : string :=
  default "" (last (split_on "+"%char key_string)).

Definition modifier_of (name key_string : string) : bool :=
  string_in name (map String_strip_edges (removelast (split_on "+"%char key_string))).


End Lives.

Section SceneTree.
Context `{E : Engine}.

(** ** Scene inspection: get_scene_tree (lines 466-499) *)

(** [_build_tree]; [h] is the scene the node lives in, from which
    [node.visible] is read. *)
Fixpoint _build_tree (h : Host) (node : Node) (depth max_depth : Z) : Variant :=
  let result := [(VString "name", VString (node_name node));
                 (VString "type", VString (get_class node));
                 (VString "path", VString (get_path node))] in
  let result :=
    if is_class node "CanvasItem"
    then dict_set result "visible" (Host_get h (node_id node) "visible")
    else if is_class node "Node3D"
    then dict_set result "visible" (Host_get h (node_id node) "visible")
    else result in
  VDictionary
    (if (depth <? max_depth)%Z then
       let children :=
         match node with
         | mkNode _ _ _ _ _ _ children =>
             map (fun child => _build_tree h child (depth + 1) max_depth) children
         end in
       dict_set result "children" (VArray children)
     else dict_set result "children" (VArray [])).

Definition _handle_get_scene_tree (id : Variant) (params : Dict) : M E unit :=
  root_path ← as_String (dict_get params "root_path" (VString "/root"));
  max_depth ← to_int (dict_get params "max_depth" (VInt 4));
  root_node ← get_node_or_null root_path;
  match root_node with
  | None => _send_error id (-32602) ("Node not found: " +:+ root_path)
  | Some root =>
      h ← reads host;
      _send_response id (_build_tree h root 0 max_depth)
  end.

(** How many levels of children a node has below it, and how many levels
    of non-empty "children" arrays a tree description has. *)
Fixpoint height (node : Node) : nat :=
  match node with
  | mkNode _ _ _ _ _ _ children =>
      fold_right (fun child n => Nat.max (S (height child)) n) 0%nat children
  end.

Fixpoint tree_levels (v : Variant) : nat :=
  match v with
  | VDictionary d =>
      (fix find (d : Dict) : nat :=
         match d with
         | [] => 0%nat
         | (k, item) :: rest =>
             if is_key "children" k then
               match item with
               | VArray l =>
                   fold_right (fun child n => Nat.max (S (tree_levels child)) n) 0%nat l
               | _ => 0%nat
               end
             else find rest
         end) d
  | _ => 0%nat
  end.

End SceneTree.

Section ClientVocabulary.
Import BridgeClient.
Context `{R : Runtime}.

(** ** Requests, their timers and their entries *)

(** A pending entry stands under the id its request was sent with, and
    the timer of that request is armed. *)
Definition linked (c : Client) : Prop :=
  ∀ id n, pendingRequests c !! id = Some n →
          ∃ cl, timers c !! n = Some cl ∧ timer_id cl = id.





End ClientVocabulary.

Section Wire.
Context `{E : Engine}.

(** ** What goes over the wire *)

(** The request id a coroutine will answer under is a JSON value, and so
    are the signal arguments it has captured. *)
Definition co_json (c : Coroutine) : bool :=
  is_json (co_id c)
  && match c with
     | CoWaitForSignal _ _ _ _ _ _ signal_args _ => forallb is_json signal_args
     | _ => true
     end.

(** Every response sent so far is a JSON value and every suspended
    coroutine holds JSON values. *)
Definition speaks_json (s : State E) : Prop :=
  (∀ p r, In (SendText p r) (effects s) → is_json r = true)
  ∧ (∀ kc, In kc (coroutines s) → co_json (snd kc) = true).

Definition tidy {A} (m : M E A) : Prop :=
  ∀ s, speaks_json s → speaks_json (fst (m s)).

Definition tidy_co (m : M E (option Coroutine)) : Prop :=
  ∀ s, speaks_json s →
       speaks_json (fst (m s))
       ∧ ∀ c, snd (m s) = Done (Some c) → co_json c = true.

End Wire.

Section Bookkeeping.
Context `{E : Engine}.

(** ** The pending table *)

(** A computation that adds nothing to the pending table and leaves the
    suspended coroutines alone. *)
Definition shrinks {A} (m : M E A) : Prop :=
  ∀ s, coroutines (fst (m s)) = coroutines s
       ∧ dom (_pending_responses (fst (m s))) ⊆ dom (_pending_responses s).

(** A handler working for request [id]: the one entry it may add to the
    pending table is that of [id], and only when it suspends. *)
Definition books (id : Variant) (m : M E (option Coroutine)) : Prop :=
  ∀ s, coroutines (fst (m s)) = coroutines s
       ∧ match snd (m s) with
         | Done (Some c) =>
             co_id c = id
             ∧ dom (_pending_responses (fst (m s)))
                 ⊆ dom (_pending_responses s) ∪ {[str id]}
         | _ => dom (_pending_responses (fst (m s))) ⊆ dom (_pending_responses s)
         end.

(** What is left of a handler once it has registered [id]: it suspends,
    or it ends and erases [id]; it does not stop on a run-time error. *)
Definition settles (id : Variant) (m : M E (option Coroutine)) : Prop :=
  ∀ s, coroutines (fst (m s)) = coroutines s
       ∧ match snd (m s) with
         | Done (Some c) =>
             co_id c = id ∧ _pending_responses (fst (m s)) = _pending_responses s
         | Done None =>
             _pending_responses (fst (m s)) = delete (str id) (_pending_responses s)
         | Abort _ => False
         end.

(** Every id in the pending table is that of a suspended coroutine. *)
Definition in_flight (s : State E) : Prop :=
  ∀ key, key ∈ dom (_pending_responses s) →
         ∃ kc, In kc (coroutines s) ∧ str (co_id (snd kc)) = key.

End Bookkeeping.
(** * Properties *)

Section Properties.
Context `{E : Engine}.
Variable other : Method → Variant → Dict → M E unit.

Implicit Types (s : State E) (id : Variant) (params : Dict).

(** ** Running the primitives *)

Ltac exec1 :=
  progress (unfold mbind, M_bind, mret, M_ret, reads, modify, effect, lift;
            cbn [negb andb orb fst snd
                 _active _unsafe_mode _ws_peer _pending_responses host ticks_msec
                 coroutines next_handle next_peer effects
                 set_peer set_pending set_host set_ticks set_coroutines
                 set_next_handle set_next_peer set_effects]).
Ltac exec := repeat exec1.

Lemma emit_nil s : emit [] s = s.
Proof. destruct s; unfold emit, set_effects; cbn. by rewrite app_nil_r. Qed.

Lemma emit_emit l1 l2 s : emit l2 (emit l1 s) = emit (l1 ++ l2) s.
Proof. unfold emit, set_effects; cbn. by rewrite app_assoc. Qed.

Lemma send_raw_run id result error s :
  _send_raw_response id result error s
  = (emit (deliver (_ws_peer s) (reply id result error)) s, Done tt).
Proof.
  unfold _send_raw_response, deliver, peer_open, reply; exec.
  destruct (_ws_peer s) as [p|]; exec; [|by rewrite emit_nil].
  destruct (is_open (ready_state p)); exec; [done|by rewrite emit_nil].
Qed.

Lemma send_response_run id result s :
  _send_response id result s
  = (set_pending (delete (str id) (_pending_responses s))
       (emit (deliver (_ws_peer s) (reply id result VNil)) s), Done tt).
Proof. unfold _send_response, erase_pending; exec. by rewrite send_raw_run. Qed.

Lemma send_error_run id code message s :
  _send_error id code message s
  = (set_pending (delete (str id) (_pending_responses s))
       (emit (deliver (_ws_peer s) (reply id VNil (error_dict code message))) s),
     Done tt).
Proof. unfold _send_error, erase_pending; exec. by rewrite send_raw_run. Qed.




(** ** C5: messages that fail the dispatcher's contract *)


(** ** C6: the unsafe-mode gate *)

(** C6 (as amended).  With [_unsafe_mode] unset, [evaluate_expression] and
    [wait_for_condition] answer -32001 before anything else, whatever the
    parameters.  [call_method] first reads [node_path] (answering -32602
    when it is missing or empty) and [method_name]; once both are
    non-empty strings, a blocked method name is answered with -32001,
    before any node look-up or call. *)
Theorem unsafe_gate id params s :
  _unsafe_mode s = false →
  _handle_evaluate_expression id params s
  = _send_error id (-32001) "evaluate_expression requires --unsafe flag on TestBridge" s
  ∧ _handle_wait_for_condition id params s
    = (fst (_send_error id (-32001)
              "wait_for_condition uses expression evaluation and requires --unsafe flag" s),
       Done None)
  ∧ (dict_get params "node_path" (VString "") = VString "" →
     _handle_call_method id params s
     = _send_error id (-32602) "Missing required parameter: node_path" s)
  ∧ (∀ node_path method_name,
       dict_get params "node_path" (VString "") = VString node_path →
       is_empty node_path = false →
       dict_get params "method_name" (VString "") = VString method_name →
       string_in method_name _BLOCKED_METHODS = true →
       _handle_call_method id params s
       = _send_error id (-32001)
           ("Method '" +:+ method_name +:+ "' is blocked without --unsafe flag") s).
Proof.
  intros Hunsafe. repeat split.
  - unfold _handle_evaluate_expression; exec. by rewrite Hunsafe.
  - unfold _handle_wait_for_condition; exec. rewrite Hunsafe; cbn.
    by rewrite send_error_run.
  - intros Hpath. unfold _handle_call_method, as_String; exec. by rewrite Hpath.
  - intros node_path method_name Hpath Hne Hname Hblocked.
    unfold _handle_call_method, as_String; exec.
    rewrite Hpath; cbn [string_of]. rewrite Hne, Hname; cbn [string_of].
    assert (is_empty method_name = false) as ->.
    { destruct method_name; [discriminate Hblocked|done]. }
    by rewrite Hunsafe, Hblocked.
Qed.

(** ** C9: find_nodes is capped *)

Lemma Node_induction (P : Node → Prop) :
  (∀ i n c a p g children, Forall P children → P (mkNode i n c a p g children)) →
  ∀ node, P node.
Proof.
  intros H. fix IH 1. intros [i n c a p g children]. apply H.
  induction children as [|x l IHl]; constructor; [apply IH | apply IHl].
Qed.

Lemma find_nodes_recursive_bound node tf np gf (results : list Variant) :
  (length results ≤ 1000)%nat →
  (length (_find_nodes_recursive node tf np gf results) ≤ 1000)%nat.
Proof.
  revert results. induction node as [i n c a p g children IH] using Node_induction.
  intros results Hlen. cbn [_find_nodes_recursive].
  destruct (Z.of_nat (length results) >=? _MAX_FIND_RESULTS)%Z eqn:Hfull; [done|].
  unfold _MAX_FIND_RESULTS in Hfull.
  match goal with |- context [fold_left _ children ?r] => set (results1 := r) end.
  assert (length results1 ≤ 1000)%nat as Hlen1.
  { subst results1. destruct (if _ : bool then false else _); [|done].
    rewrite length_app; cbn. lia. }
  clearbody results1. clear Hlen Hfull results.
  revert results1 Hlen1. induction IH as [|child rest Hchild _ IHrest]; intros results1 Hlen1.
  - done.
  - cbn [fold_left]. apply IHrest. by apply Hchild.
Qed.

(** C9.  Whatever the filters and the scene, a [find_nodes] request ends
    in one of three ways: a run-time error on a parameter of the wrong
    type (no response), the error "Node not found", or a response whose
    result array has at most 1000 entries. *)
Theorem find_nodes_at_most_1000 id params s :
  (∃ why, _handle_find_nodes id params s = (s, Abort why))
  ∨ (∃ root_path,
       _handle_find_nodes id params s
       = _send_error id (-32602) ("Node not found: " +:+ root_path)
           (emit [GetNode root_path] s))
  ∨ (∃ root_path results,
       _handle_find_nodes id params s
       = _send_response id (VArray results) (emit [GetNode root_path] s)
       ∧ (length results ≤ 1000)%nat).
Proof.
  unfold _handle_find_nodes, as_String, get_node_or_null; exec.
  destruct (string_of (dict_get params "root_path" _)) as [root_path|]; [|by eauto].
  destruct (string_of (dict_get params "type" _)) as [type_filter|]; [|by eauto].
  destruct (string_of (dict_get params "name_pattern" _)) as [name_pattern|]; [|by eauto].
  destruct (string_of (dict_get params "group" _)) as [group_filter|]; [|by eauto].
  destruct (Host_get_node _ root_path) as [root|].
  - right; right. eexists _, _; split; [reflexivity|].
    apply find_nodes_recursive_bound. cbn; lia.
  - right; left. by eexists.
Qed.

(** ** C10: get_singleton takes a simple name *)


Lemma in_deliver e p response : In e (deliver p response) → ∃ n, e = SendText n response.
Proof.
  unfold deliver. destruct (peer_open p); cbn; [|done]. intros [<-|[]]. by eexists.
Qed.


(** ** What handlers and coroutines may do *)

Lemma same_frame_refl s : same_frame s s.
Proof. by repeat split. Qed.

Lemma same_frame_trans s1 s2 s3 : same_frame s1 s2 → same_frame s2 s3 → same_frame s1 s3.
Proof.
  unfold same_frame. intros (?&?&?&?&?&?&?) (?&?&?&?&?&?&?).
  repeat split; congruence.
Qed.

Lemma sends_app l1 l2 : sends (l1 ++ l2) = sends l1 ++ sends l2.
Proof. apply omap_app. Qed.

Lemma closes_app l1 l2 : closes (l1 ++ l2) = closes l1 ++ closes l2.
Proof. apply omap_app. Qed.

Lemma closes_deliver p response : closes (deliver p response) = [].
Proof. unfold deliver. by destruct (peer_open p). Qed.

Lemma quiet_ret {A} (a : A) : quiet (mret a : M E A).
Proof. intros s. split; [apply same_frame_refl|]. exists []. by rewrite app_nil_r. Qed.

Lemma quiet_lift {A} (r : result A) : quiet (lift r : M E A).
Proof. intros s. split; [apply same_frame_refl|]. exists []. by rewrite app_nil_r. Qed.

Lemma quiet_reads {A} (f : State E → A) : quiet (reads f).
Proof. intros s. split; [apply same_frame_refl|]. exists []. by rewrite app_nil_r. Qed.

Lemma quiet_bind {A B} (m : M E A) (k : A → M E B) :
  quiet m → (∀ a, quiet (k a)) → quiet (m ≫= k).
Proof.
  intros Hm Hk s. destruct (Hm s) as (Hf1 & new1 & He1 & Hs1 & Hc1).
  unfold mbind, M_bind. destruct (m s) as [s1 [a|why]]; cbn [fst snd] in *.
  - destruct (Hk a s1) as (Hf2 & new2 & He2 & Hs2 & Hc2).
    split; [by eapply same_frame_trans|].
    exists (new1 ++ new2). rewrite He2, He1, sends_app, closes_app, Hs1, Hs2, Hc1, Hc2.
    by rewrite app_assoc.
  - split; [done|]. by exists new1.
Qed.

Lemma quiet_effect e : sends [e] = [] → closes [e] = [] → quiet (effect e).
Proof. intros Hs Hc s. split; [by repeat split|]. by exists [e]. Qed.

Lemma quiet_mark_pending id : quiet (mark_pending id).
Proof. intros s. split; [by repeat split|]. exists []. cbn. by rewrite app_nil_r. Qed.

Lemma quiet_set_host (h : Host) : quiet (modify (set_host h)).
Proof. intros s. split; [by repeat split|]. exists []. cbn. by rewrite app_nil_r. Qed.

Create HintDb quiet.
#[local] Hint Resolve quiet_ret quiet_lift quiet_reads quiet_bind quiet_mark_pending
  quiet_set_host : quiet.
#[local] Hint Extern 1 (quiet (effect _)) => apply quiet_effect; reflexivity : quiet.
#[local] Hint Extern 2 (quiet (if ?b then _ else _)) => destruct b : quiet.
#[local] Hint Extern 2 (quiet (match ?x with _ => _ end)) => destruct x : quiet.
#[local] Hint Extern 3 (quiet _) => progress intros : quiet.

Ltac quiet := auto 30 with quiet.

Lemma quiet_get_node_or_null path : quiet (get_node_or_null path).
Proof. unfold get_node_or_null. quiet. Qed.

Lemma quiet_callv node method args : quiet (callv node method args).
Proof.
  unfold callv. apply quiet_bind; [quiet|intros _]. apply quiet_bind; [quiet|intros h].
  destruct (Host_callv h node method args). quiet.
Qed.

Lemma quiet_expr_parse e : quiet (expr_parse e).
Proof. unfold expr_parse. quiet. Qed.

Lemma quiet_expr_execute e b : quiet (expr_execute e b).
Proof.
  unfold expr_execute. apply quiet_bind; [quiet|intros _]. apply quiet_bind; [quiet|intros h].
  destruct (Host_execute h e b). quiet.
Qed.

Lemma quiet_read_properties node properties (result : Dict) :
  quiet (read_properties node properties result).
Proof.
  revert result. induction properties as [|p rest IH]; intros result; cbn [read_properties].
  - quiet.
  - unfold as_String, Object_get. quiet.
Qed.

Lemma quiet_drag_step (a b : Vector2) button steps i : quiet (drag_step a b button steps i).
Proof. unfold drag_step. quiet. Qed.

#[local] Hint Resolve quiet_get_node_or_null quiet_callv quiet_expr_parse quiet_expr_execute
  quiet_read_properties quiet_drag_step : quiet.
Lemma quiet_as_String v : quiet (as_String v).
Proof. apply quiet_lift. Qed.

Lemma quiet_as_Dictionary v : quiet (as_Dictionary v).
Proof. apply quiet_lift. Qed.

Lemma quiet_as_Array v : quiet (as_Array v).
Proof. apply quiet_lift. Qed.

Lemma quiet_to_int v : quiet (to_int v).
Proof. apply quiet_lift. Qed.

Lemma quiet_to_float v : quiet (to_float v).
Proof. apply quiet_lift. Qed.

Lemma quiet_is_instance_valid node : quiet (is_instance_valid node).
Proof. unfold is_instance_valid. quiet. Qed.

Lemma quiet_has_signal node signal_name : quiet (has_signal node signal_name).
Proof. unfold has_signal. quiet. Qed.

Lemma quiet_Object_get node property : quiet (Object_get node property).
Proof. unfold Object_get. quiet. Qed.

Lemma quiet_ticks : quiet Time_get_ticks_msec.
Proof. apply quiet_reads. Qed.

Lemma quiet_inject_key keycode pressed ctrl shift alt meta :
  quiet (_inject_key keycode pressed ctrl shift alt meta).
Proof. unfold _inject_key. quiet. Qed.

#[local] Hint Resolve quiet_as_String quiet_as_Dictionary quiet_as_Array quiet_to_int
  quiet_to_float quiet_is_instance_valid quiet_has_signal quiet_Object_get quiet_ticks
  quiet_inject_key : quiet.

Lemma response_id_reply id result error : response_id (reply id result error) = id.
Proof. unfold reply. by destruct (negb (is_nil error)). Qed.


Lemma answers_bind {A B} (view : B → option Coroutine) id (m : M E A) (k : A → M E B) :
  quiet m → (∀ a, answers view id (k a)) → answers view id (m ≫= k).
Proof.
  intros Hm Hk s. destruct (Hm s) as (Hf1 & new1 & He1 & Hs1 & Hc1).
  unfold mbind, M_bind. destruct (m s) as [s1 [a|why]]; cbn [fst snd] in *.
  - destruct (Hk a s1) as (Hf2 & new2 & He2 & Hc2 & Hr).
    split; [by eapply same_frame_trans|].
    exists (new1 ++ new2). rewrite He2, He1, closes_app, Hc1, Hc2, sends_app, Hs1.
    split; [by rewrite app_assoc|]. split; [done|].
    destruct Hf1 as (_ & _ & Hpeer & _). by rewrite <- Hpeer.
  - split; [done|]. by exists new1.
Qed.

Lemma answers_send_raw id result error :
  answers (λ _ : unit, None) id (_send_raw_response id result error).
Proof.
  intros s. rewrite send_raw_run; cbn [fst snd]. split; [by repeat split|].
  eexists; split; [reflexivity|]. split; [apply closes_deliver|].
  eexists; split; [apply response_id_reply|done].
Qed.

Lemma answers_send_response id result :
  answers (λ _ : unit, None) id (_send_response id result).
Proof.
  intros s. rewrite send_response_run; cbn [fst snd]. split; [by repeat split|].
  eexists; split; [reflexivity|]. split; [apply closes_deliver|].
  eexists; split; [apply response_id_reply|done].
Qed.

Lemma answers_send_error id code message :
  answers (λ _ : unit, None) id (_send_error id code message).
Proof.
  intros s. rewrite send_error_run; cbn [fst snd]. split; [by repeat split|].
  eexists; split; [reflexivity|]. split; [apply closes_deliver|].
  eexists; split; [apply response_id_reply|done].
Qed.

Lemma answers_then_none id (m : M E unit) :
  answers (λ _, None) id m → answers (λ c, c) id (m;; mret None).
Proof.
  intros Hm s. destruct (Hm s) as (Hf & new & He & Hc & Hr).
  unfold mbind, M_bind, mret, M_ret. destruct (m s) as [s1 [[]|why]]; cbn [fst snd] in *;
    (split; [done|]); by exists new.
Qed.

Lemma answers_suspend id c : co_id c = id → answers (λ c, c) id (mret (Some c)).
Proof.
  intros Hid s. split; [apply same_frame_refl|]. exists []. cbn. by rewrite app_nil_r.
Qed.

Ltac answers_step :=
  lazymatch goal with
  | |- answers _ _ (mbind _ (_send_error _ _ _)) =>
      apply answers_then_none, answers_send_error
  | |- answers _ _ (mbind _ (_send_response _ _)) =>
      apply answers_then_none, answers_send_response
  | |- answers _ _ (_send_error _ _ _) => apply answers_send_error
  | |- answers _ _ (_send_response _ _) => apply answers_send_response
  | |- answers _ _ (_send_raw_response _ _ _) => apply answers_send_raw
  | |- answers _ _ (mret (Some _)) => apply answers_suspend; reflexivity
  | |- answers _ _ (mbind _ _) => apply answers_bind; [solve [quiet] | intros ?]
  | |- answers _ _ (if ?b then _ else _) => destruct b
  | |- answers _ _ (match ?x with _ => _ end) => destruct x
  end.
Ltac answers := cbv zeta; repeat answers_step.







Lemma answers_poll_turn id e b t p st lv :
  answers (λ c, c) id (poll_turn id e b t p st lv).
Proof. unfold poll_turn. answers. Qed.


Lemma answers_wait_frames_from id count i :
  answers (λ c, c) id (wait_frames_from id count i).
Proof. unfold wait_frames_from. answers. Qed.


Lemma answers_signal_turn id node sg t st received sargs connected :
  answers (λ c, c) id (signal_turn id node sg t st received sargs connected).
Proof. unfold signal_turn. answers. Qed.


Lemma answers_resume c : answers (λ c, c) (co_id c) (resume c).
Proof.
  destruct c; cbn [resume co_id].
  - unfold resume_send_key. answers.
  - unfold resume_mouse_drag. answers.
  - apply answers_poll_turn.
  - apply answers_wait_frames_from.
  - apply answers_signal_turn.
Qed.

(** ** The agent as a whole *)












Lemma take_coroutine_perm k l c rest :
  take_coroutine k l = Some (c, rest) → l ≡ₚ (k, c) :: rest.
Proof.
  revert rest. induction l as [|[k' c'] l IH]; intros rest; cbn [take_coroutine]; [done|].
  destruct (k =? k')%nat eqn:Hk.
  - apply Nat.eqb_eq in Hk as ->. by intros [= -> ->].
  - destruct (take_coroutine k l) as [[c0 rest0]|]; [|done].
    intros [= -> <-]. rewrite (IH rest0 eq_refl). apply Permutation_swap.
Qed.




Lemma co_id_deliver_signal node signal args c :
  co_id (deliver_signal node signal args c) = co_id c.
Proof.
  destruct c as [| | | |id n sg t st received sargs []]; cbn; try done.
  destruct (_ && _); [|done]. by destruct (bind4 args).
Qed.

















Lemma pending_resume c s :
  match snd (resume c s) with
  | Done (Some c') =>
      _pending_responses (fst (resume c s)) = _pending_responses s
  | Done None =>
      _pending_responses (fst (resume c s))
      = delete (str (co_id c)) (_pending_responses s)
  | Abort _ => False
  end.
Proof.
  destruct c as [id keycode ctrl shift alt meta key_string
                |id from_pos to_pos button_index steps i
                |id e b t p st lv
                |id count i
                |id node sg t st received sargs connected]; cbn [resume co_id].
  - unfold resume_send_key, _inject_key; exec. by rewrite send_response_run.
  - unfold resume_mouse_drag, drag_step; exec.
    destruct (i + 1 <=? steps)%Z; exec; [done|]. by rewrite send_response_run.
  - unfold poll_turn, Time_get_ticks_msec, is_instance_valid, expr_parse, expr_execute; exec.
    destruct (_ >=? t)%Z; exec; [by rewrite send_response_run|].
    destruct (Host_is_valid _ _); exec; [|by rewrite send_error_run].
    destruct (Expression_parse e); exec; [by rewrite send_error_run|].
    destruct (Host_execute _ _ _) as [[result|text] h']; exec;
      [|by rewrite send_error_run].
    destruct (booleanize result); exec; [by rewrite send_response_run|done].
  - unfold wait_frames_from; exec.
    destruct (i + 1 <? count)%Z; exec; [done|]. by rewrite send_response_run.
  - unfold signal_turn, Time_get_ticks_msec, is_instance_valid; exec.
    destruct received; exec; [by rewrite send_response_run|].
    destruct (Host_is_valid _ _) eqn:Hvalid; exec; [|by rewrite send_error_run].
    destruct (_ >=? t)%Z; exec; [|done].
    rewrite Hvalid. destruct connected; exec; by rewrite send_response_run.
Qed.



(** ** C1: one response per asynchronous operation *)


(** ** C7: a superseded connection *)


(** ** C2: the condition poll *)

Ltac outcome H :=
  rewrite ?send_response_run, ?send_error_run in H;
  rewrite ?send_response_run, ?send_error_run;
  unfold evaluated, emit in H |- *; cbn in H |- *;
  rewrite <- ?app_assoc in H; rewrite <- ?app_assoc;
  cbn in H |- *; exact H.

Lemma poll_turn_outcome id e b t p st lv s :
  Expression_parse e = None →
  poll_outcome id e b t p st lv s (poll_turn id e b t p st lv s).
Proof.
  intros Hparse.
  unfold poll_turn, Time_get_ticks_msec, is_instance_valid, expr_parse, expr_execute; exec.
  destruct (_ >=? t)%Z eqn:Hdeadline; exec.
  { assert (t ≤ ticks_msec s - st)%Z as Hlate by lia.
    pose proof (poll_timed_out id e b t p st lv s Hlate) as H. outcome H. }
  assert (ticks_msec s - st < t)%Z as Hearly by lia.
  destruct (Host_is_valid (host s) b) eqn:Hvalid; exec.
  2:{ pose proof (poll_node_freed id e b t p st lv s Hearly Hvalid) as H. outcome H. }
  rewrite Hparse; exec.
  destruct (Host_execute (host s) e b) as [[value|text] h'] eqn:Hexec; exec.
  - destruct (booleanize value) eqn:Htruthy; exec.
    + pose proof (poll_satisfied id e b t p st lv s value h' Hearly Hvalid Hexec Htruthy) as H.
      outcome H.
    + pose proof (poll_again id e b t p st lv s value h' Hearly Hvalid Hexec Htruthy) as H.
      outcome H.
  - pose proof (poll_failed id e b t p st lv s text h' Hearly Hvalid Hexec) as H. outcome H.
Qed.

Lemma poll_turn_suspended id e b t p st lv s s' c :
  poll_turn id e b t p st lv s = (s', Done (Some c)) →
  (ticks_msec s - st < t)%Z ∧ ticks_msec s' = ticks_msec s
  ∧ ∃ lv', c = CoPollCondition id e b t p st lv'.
Proof.
  unfold poll_turn, Time_get_ticks_msec, is_instance_valid, expr_parse, expr_execute; exec.
  destruct (_ >=? t)%Z eqn:Hdeadline; exec; [by rewrite send_response_run|].
  destruct (Host_is_valid (host s) b); exec; [|by rewrite send_error_run].
  destruct (Expression_parse e); exec; [by rewrite send_error_run|].
  destruct (Host_execute (host s) e b) as [[value|text] h']; exec;
    [|by rewrite send_error_run].
  destruct (booleanize value); exec; [by rewrite send_response_run|].
  intros [= <- <-]. split; [lia|]. split; [done|]. by eexists.
Qed.

Lemma drive_none wakes s : drive None wakes s = (s, None).
Proof. by destruct wakes. Qed.

Lemma poll_over_by_deadline id e b t p st wakes :
  ∀ lv s,
    wakes ≠ [] →
    (t ≤ ticks_msec s + total_ms wakes - st)%Z →
    snd (drive (Some (CoPollCondition id e b t p st lv)) wakes s) = None.
Proof.
  induction wakes as [|[h dt] rest IH]; intros lv s Hne Hlate; [done|].
  cbn [drive resume].
  destruct (poll_turn id e b t p st lv (advance h dt s)) as [s' [[c|]|why]] eqn:Hturn;
    [|by rewrite drive_none|done].
  apply poll_turn_suspended in Hturn as (Hearly & Hticks & lv' & ->).
  cbn [advance ticks_msec set_ticks] in Hearly, Hticks. cbn [total_ms fold_right snd] in Hlate.
  destruct rest as [|w rest].
  - cbn in Hlate. lia.
  - apply IH; [done|]. fold (total_ms (w :: rest)) in Hlate. rewrite Hticks. lia.
Qed.

Lemma wait_for_condition_accepted id params s expr timeout_ms requested base_path n :
  _unsafe_mode s = true →
  dict_get params "expression" (VString "") = VString expr →
  is_empty expr = false →
  int_of (dict_get params "timeout_ms" (VInt 5000)) = Done timeout_ms →
  int_of (dict_get params "poll_interval_ms" (VInt 100)) = Done requested →
  dict_get params "base_node_path" (VString "/root") = VString base_path →
  Host_get_node (host s) base_path = Some n →
  Expression_parse expr = None →
  _handle_wait_for_condition id params s
  = poll_turn id expr (node_id n) timeout_ms (Z.max 16 requested) (ticks_msec s) VNil
      (set_pending (<[str id := VBool true]> (_pending_responses s))
         (emit [GetNode base_path; ExprParse expr] s)).
Proof.
  intros Hunsafe Hexpr Hne Htimeout Hinterval Hpath Hnode Hparse.
  unfold _handle_wait_for_condition, as_String, to_int, get_node_or_null, expr_parse,
    mark_pending, _poll_condition, Time_get_ticks_msec; exec.
  rewrite Hunsafe, Hexpr; cbn [negb string_of]. rewrite Hne, Htimeout, Hinterval, Hpath.
  cbn [string_of host set_effects]. rewrite Hnode, Hparse. cbn.
  unfold emit, set_effects; cbn. by rewrite <- app_assoc.
Qed.

(** C2 (as amended).  For a [wait_for_condition] request accepted for
    polling (unsafe mode set, a non-empty expression that parses, readable
    [timeout_ms] and [poll_interval_ms], an existing base node):
    - the id is registered as pending and the first turn of the poll runs
      at once, with the poll interval [max 16 requested] and the start
      time the current tick;
    - every turn, the first and each later one, goes in exactly one of
      five ways: the deadline has passed and the response is
      [{satisfied: false, timeout: true, last_value, elapsed_ms}]; the
      base node is no longer valid and the response is the error -32603;
      executing the expression fails and the response is the error -32603
      "Expression execution failed"; the value is truthy and the response
      is [{satisfied: true, value, elapsed_ms}]; the value is falsy and
      the coroutine suspends on a timer of the poll interval;
    - the poll is over by the first wake-up at or after the deadline;
    - once it is over nothing more is done for it. *)
Theorem wait_for_condition_polls id params s expr timeout_ms requested base_path n :
  _unsafe_mode s = true →
  dict_get params "expression" (VString "") = VString expr →
  is_empty expr = false →
  int_of (dict_get params "timeout_ms" (VInt 5000)) = Done timeout_ms →
  int_of (dict_get params "poll_interval_ms" (VInt 100)) = Done requested →
  dict_get params "base_node_path" (VString "/root") = VString base_path →
  Host_get_node (host s) base_path = Some n →
  Expression_parse expr = None →
  _handle_wait_for_condition id params s
  = poll_turn id expr (node_id n) timeout_ms (Z.max 16 requested) (ticks_msec s) VNil
      (set_pending (<[str id := VBool true]> (_pending_responses s))
         (emit [GetNode base_path; ExprParse expr] s))
  ∧ (∀ lv s',
       poll_outcome id expr (node_id n) timeout_ms (Z.max 16 requested) (ticks_msec s)
         lv s'
         (poll_turn id expr (node_id n) timeout_ms (Z.max 16 requested) (ticks_msec s)
            lv s'))
  ∧ (∀ lv wakes s',
       wakes ≠ [] →
       (timeout_ms ≤ ticks_msec s' + total_ms wakes - ticks_msec s)%Z →
       snd (drive (Some (CoPollCondition id expr (node_id n) timeout_ms
                                         (Z.max 16 requested) (ticks_msec s) lv))
                  wakes s') = None)
  ∧ (∀ wakes s', drive None wakes s' = (s', None)).
Proof.
  intros Hunsafe Hexpr Hne Htimeout Hinterval Hpath Hnode Hparse.
  split; [by eapply wait_for_condition_accepted|].
  split; [intros; by apply poll_turn_outcome|].
  split; [intros; by apply poll_over_by_deadline|].
  apply drive_none.
Qed.

(** ** C8: at least one evaluation before a timeout *)


Lemma error_is_no_timeout_reply id code message :
  is_timeout_reply (reply id VNil (error_dict code message)) = false.
Proof. done. Qed.



(** ** C4: waiting for a signal *)

Lemma signal_turn_outcome id node sg t st received sargs connected s :
  signal_outcome id node sg t st sargs connected s received
    (signal_turn id node sg t st received sargs connected s).
Proof.
  unfold signal_turn, Time_get_ticks_msec, is_instance_valid; exec.
  destruct received; exec.
  { pose proof (signal_received id node sg t st sargs connected s) as H. outcome H. }
  destruct (Host_is_valid (host s) node) eqn:Hvalid; exec.
  2:{ pose proof (signal_node_freed id node sg t st sargs connected s Hvalid) as H.
      outcome H. }
  destruct (_ >=? t)%Z eqn:Hdeadline; exec.
  - assert (t ≤ ticks_msec s - st)%Z as Hlate by lia.
    pose proof (signal_timed_out id node sg t st sargs connected s Hvalid Hlate) as H.
    rewrite Hvalid. destruct connected; exec; outcome H.
  - assert (ticks_msec s - st < t)%Z as Hearly by lia.
    pose proof (signal_wait_on id node sg t st sargs connected s Hvalid Hearly) as H.
    outcome H.
Qed.




End Properties.

(** * Properties of the client *)

Section ClientProperties.
Import BridgeClient.
Context `{R : Runtime}.

Implicit Types (c : Client) (n : nat).

(** ** Requests are told apart by their number *)

Lemma reject_all_fold error (l : list (string * nat)) :
  ∀ c, let c' := fold_left (λ c entry, settle entry.2 (Rejected error)
                                         (clearTimeout entry.2 c)) l c in
       next_request c' = next_request c
       ∧ pendingRequests c' = pendingRequests c
       ∧ ws_open c' = ws_open c
       ∧ (∀ k cl, timers c' !! k = Some cl → timers c !! k = Some cl ∧ k ∉ l.*2)
       ∧ (∀ k, timers c !! k = None → timers c' !! k = None)
       ∧ (∀ n, n ∉ l.*2 → settlements_of n c' = settlements_of n c).
Proof.
  induction l as [|[id m] l IH]; intros c; cbn [fold_left].
  - split_and!; try done. intros k cl Hk. split; [done|].
    rewrite fmap_nil. apply not_elem_of_nil.
  - destruct (IH (settle m (Rejected error) (clearTimeout m c)))
      as (Hn & Hp & Hw & Ht & Ht' & Hs).
    cbn [snd] in *. split_and!; try done.
    + intros k cl [Hk Hnot]%Ht. cbn in Hk. apply lookup_delete_Some in Hk.
      rewrite fmap_cons, not_elem_of_cons. cbn.
      destruct Hk as [Hne Hk]. split_and!; [done|congruence|done].
    + intros k Hk. apply Ht'. cbn. apply lookup_delete_None. tauto.
    + intros n Hnot. rewrite fmap_cons, not_elem_of_cons in Hnot.
      destruct Hnot as [Hne Hnot]. rewrite (Hs n Hnot).
      unfold settlements_of; cbn. rewrite List.filter_app, map_app; cbn.
      destruct (Nat.eqb_spec m n); [by subst|]. by rewrite app_nil_r.
Qed.

Lemma reject_all_run error c :
  let c' := rejectAllPending error c in
  next_request c' = next_request c
  ∧ pendingRequests c' = ∅
  ∧ (∀ k cl, timers c' !! k = Some cl →
             timers c !! k = Some cl ∧ ∀ id, pendingRequests c !! id ≠ Some k)
  ∧ (∀ k, timers c !! k = None → timers c' !! k = None)
  ∧ (∀ n, (∀ id, pendingRequests c !! id ≠ Some n) →
          settlements_of n c' = settlements_of n c).
Proof.
  unfold rejectAllPending.
  destruct (reject_all_fold error (map_to_list (pendingRequests c)) c)
    as (Hn & Hp & Hw & Ht & Ht' & Hs).
  cbn zeta in *. split_and!; try done.
  - intros k cl Hk. cbn in Hk. apply Ht in Hk as [Hk Hnot]. split; [done|].
    intros id Hid. apply Hnot. apply list_elem_of_fmap. exists (id, k).
    split; [done|]. by apply elem_of_map_to_list.
  - intros n Hnot. unfold settlements_of at 1; cbn. apply Hs.
    intros ((id & m) & Hm & Hin)%list_elem_of_fmap. cbn in Hm. subst m.
    apply elem_of_map_to_list in Hin. by apply (Hnot id).
Qed.

Lemma reject_all_logged error line c :
  let c' := rejectAllPending error (console_error line c) in
  next_request c' = next_request c
  ∧ pendingRequests c' = ∅
  ∧ (∀ k cl, timers c' !! k = Some cl →
             timers c !! k = Some cl ∧ ∀ id, pendingRequests c !! id ≠ Some k)
  ∧ (∀ k, timers c !! k = None → timers c' !! k = None)
  ∧ (∀ n, (∀ id, pendingRequests c !! id ≠ Some n) →
          settlements_of n c' = settlements_of n c).
Proof. exact (reject_all_run error (console_error line c)). Qed.

Lemma handleMessage_cases data c :
  fst (handleMessage data c) = c
  ∨ (∃ line, fst (handleMessage data c) = console_error line c)
  ∨ (∃ id n o,
       pendingRequests c !! id = Some n
       ∧ fst (handleMessage data c)
         = settle n o (set_pendingRequests (delete id (pendingRequests c))
                         (clearTimeout n c))).
Proof.
  unfold handleMessage. destruct (JSON_parse data) as [parsed|]; [|by eauto].
  destruct (prop parsed "id") as [id|]; [|by eauto].
  destruct (nullish id); [by eauto|].
  destruct (pendingRequests c !! String_ id) as [m|] eqn:Hm; [|by eauto].
  cbn zeta. right; right. destruct (truthy _); by eexists _, _, _.
Qed.

Lemma client_ok_new : client_ok new_client.
Proof. repeat split; intros *; cbn; by rewrite lookup_empty. Qed.

Lemma client_ok_step c ev : client_ok c → client_ok (client_step c ev).
Proof.
  intros (Hp & Ht & Hd). destruct ev as [|uuid method params ms|k|data| | |message|]; cbn [client_step].
  - done.
  - unfold send; cbn. destruct (ws_open c); cbn.
    + repeat split; cbn.
      * intros id n. rewrite lookup_insert. case_decide; [intros [= <-]; lia|].
        intros Hx%Hp. lia.
      * intros n cl. rewrite lookup_insert. case_decide; [intros _; lia|].
        intros Hx%Ht. lia.
      * intros id1 id2 n. rewrite !lookup_insert.
        repeat case_decide; subst; try done.
        -- intros [= <-] Hx%Hp. lia.
        -- intros Hx%Hp [= <-]. lia.
        -- apply Hd.
    + repeat split; cbn; [intros id n Hx%Hp; lia|intros n cl Hx%Ht; lia|apply Hd].
  - unfold timer_fires. destruct (timers c !! k) as [cl|] eqn:Hk; [|done]. cbn.
    destruct (pendingRequests c !! timer_id cl) as [m|] eqn:Hid; cbn.
    + repeat split; cbn.
      * intros id n Hx%lookup_delete_Some. apply (Hp id). tauto.
      * intros n cl' Hx%lookup_delete_Some. apply (Ht n cl'). tauto.
      * intros id1 id2 n H1%lookup_delete_Some H2%lookup_delete_Some.
        apply (Hd id1 id2 n); tauto.
    + repeat split; cbn; [apply Hp| |apply Hd].
      intros n cl' Hx%lookup_delete_Some. apply (Ht n cl'). tauto.
  - assert (client_ok (handleMessage data c).1) as Hmain.
    { destruct (handleMessage_cases data c) as [->|[[line ->]|(id & m & o & Hm & ->)]];
        [done..|].
      repeat split; cbn.
      - intros id' n Hx%lookup_delete_Some. apply (Hp id'). tauto.
      - intros n cl' Hx%lookup_delete_Some. apply (Ht n cl'). tauto.
      - intros id1 id2 n H1%lookup_delete_Some H2%lookup_delete_Some.
        apply (Hd id1 id2 n); tauto. }
    by destruct (handleMessage data c) as [c' [e|]].
  - unfold disconnect. pose proof (reject_all_run "Disconnected from game" c) as Hrun.
    cbn zeta in Hrun. set (c' := rejectAllPending _ c) in *. clearbody c'.
    destruct Hrun as (Hn & Hpe & Hts & _).
    repeat split; cbn [pendingRequests timers next_request set_ws]; rewrite ?Hpe, ?Hn.
    + intros id n. by rewrite lookup_empty.
    + intros n cl [Hx _]%Hts. by eapply Ht.
    + intros id1 id2 n. by rewrite lookup_empty.
  - pose proof (reject_all_run "WebSocket connection closed" c) as Hrun.
    cbn zeta in Hrun. set (c' := rejectAllPending _ c) in *. clearbody c'.
    destruct Hrun as (Hn & Hpe & Hts & _).
    repeat split; cbn [pendingRequests timers next_request set_ws]; rewrite ?Hpe, ?Hn.
    + intros id n. by rewrite lookup_empty.
    + intros n cl [Hx _]%Hts. by eapply Ht.
    + intros id1 id2 n. by rewrite lookup_empty.
  - pose proof (reject_all_logged ("WebSocket error: " +:+ message)
                  ("[BRIDGE] WebSocket error: " +:+ message) c) as Hrun.
    cbn zeta in Hrun. set (c' := rejectAllPending _ _) in *. clearbody c'.
    destruct Hrun as (Hn & Hpe & Hts & _).
    repeat split; cbn [pendingRequests timers next_request set_ws]; rewrite ?Hpe, ?Hn.
    + intros id n. by rewrite lookup_empty.
    + intros n cl [Hx _]%Hts. by eapply Ht.
    + intros id1 id2 n. by rewrite lookup_empty.
  - done.
Qed.

Lemma client_ok_run evs : ∀ c, client_ok c → client_ok (client_run c evs).
Proof.
  induction evs as [|ev evs IH]; intros c Hok; [done|].
  cbn. apply IH. by apply client_ok_step.
Qed.

(** ** C3: a response that arrives after the timeout *)

Lemma settlements_of_other n m o c c' :
  settlements c' = settlements c ++ [(m, o)] → m ≠ n →
  settlements_of n c' = settlements_of n c.
Proof.
  intros Hs Hmn. unfold settlements_of. rewrite Hs, List.filter_app, map_app; cbn.
  destruct (Nat.eqb_spec m n); [done|]. cbn. by rewrite app_nil_r.
Qed.

Ltac other_settlement c :=
  match goal with
  | |- _ = settlements_of ?n c =>
      match goal with
      | |- context [settlements c ++ [(?m, ?o)]] =>
          apply (settlements_of_other n m o c (settle m o c)); [done|]
      end
  end.

Lemma timer_fires_pending c n cl :
  client_ok c →
  timers c !! n = Some cl →
  pendingRequests c !! timer_id cl = Some n →
  pendingRequests (timer_fires n c) !! timer_id cl = None
  ∧ settlements (timer_fires n c)
    = settlements c ++ [(n, Rejected (timeout_message (timer_method cl) (timer_ms cl)))]
  ∧ forgotten n (timer_fires n c).
Proof.
  intros (Hp & Ht & Hd) Htimer Hentry. unfold timer_fires. rewrite Htimer; cbn.
  rewrite Hentry; cbn. split; [by rewrite lookup_delete_eq|]. split; [done|].
  repeat split; cbn.
  - by rewrite lookup_delete_eq.
  - intros id [Hne Hid]%lookup_delete_Some. by destruct (Hd _ _ _ Hentry Hid).
  - by eapply Ht.
Qed.

Lemma forgotten_step n c ev :
  forgotten n c →
  forgotten n (client_step c ev)
  ∧ settlements_of n (client_step c ev) = settlements_of n c.
Proof.
  intros (Ht & Hp & Hlt). destruct ev as [|uuid method params ms|k|data| | |message|]; cbn [client_step].
  - done.
  - unfold send; cbn. destruct (ws_open c); cbn.
    + split; [|done]. repeat split; cbn.
      * rewrite lookup_insert_ne by lia. done.
      * intros id. rewrite lookup_insert. case_decide; [intros [= ?]; lia|apply Hp].
      * lia.
    + split; [|other_settlement c; lia].
      repeat split; cbn; [done|apply Hp|lia].
  - unfold timer_fires. destruct (timers c !! k) as [cl|] eqn:Hk; [|done]. cbn.
    assert (k ≠ n) as Hkn by congruence.
    destruct (pendingRequests c !! timer_id cl) as [m|]; cbn.
    + split; [|by other_settlement c]. repeat split; cbn.
      * by rewrite lookup_delete_ne.
      * intros id [_ Hx]%lookup_delete_Some. by apply (Hp id).
      * done.
    + split; [|done]. repeat split; cbn; [by rewrite lookup_delete_ne|apply Hp|done].
  - assert (forgotten n (handleMessage data c).1
            ∧ settlements_of n (handleMessage data c).1 = settlements_of n c) as Hmain.
    { destruct (handleMessage_cases data c) as [->|[[line ->]|(id & m & o & Hm & ->)]];
        [done..|].
      assert (m ≠ n) as Hmn by (intros ->; by apply (Hp id)).
      split; [|by eapply settlements_of_other]. repeat split; cbn.
      - rewrite lookup_delete_ne by done. done.
      - intros id' [_ Hx]%lookup_delete_Some. by apply (Hp id').
      - done. }
    by destruct (handleMessage data c) as [c' [e|]].
  - unfold disconnect. pose proof (reject_all_run "Disconnected from game" c) as Hrun.
    cbn zeta in Hrun. set (c' := rejectAllPending _ c) in *. clearbody c'.
    destruct Hrun as (Hn & Hpe & _ & Hts & Hs).
    split; [|by apply Hs]. repeat split; cbn; rewrite ?Hpe, ?Hn; [by apply Hts| |done].
    intros id. by rewrite lookup_empty.
  - pose proof (reject_all_run "WebSocket connection closed" c) as Hrun.
    cbn zeta in Hrun. set (c' := rejectAllPending _ c) in *. clearbody c'.
    destruct Hrun as (Hn & Hpe & _ & Hts & Hs).
    split; [|by apply Hs]. repeat split; cbn; rewrite ?Hpe, ?Hn; [by apply Hts| |done].
    intros id. by rewrite lookup_empty.
  - pose proof (reject_all_logged ("WebSocket error: " +:+ message)
                  ("[BRIDGE] WebSocket error: " +:+ message) c) as Hrun.
    cbn zeta in Hrun. set (c' := rejectAllPending _ _) in *. clearbody c'.
    destruct Hrun as (Hn & Hpe & _ & Hts & Hs).
    split; [|by apply Hs]. repeat split; cbn; rewrite ?Hpe, ?Hn; [by apply Hts| |done].
    intros id. by rewrite lookup_empty.
  - done.
Qed.

Lemma forgotten_run n evs :
  ∀ c, forgotten n c →
       forgotten n (client_run c evs)
       ∧ settlements_of n (client_run c evs) = settlements_of n c.
Proof.
  induction evs as [|ev evs IH]; intros c Hf; [done|]. cbn.
  destruct (forgotten_step n c ev Hf) as [Hf' <-]. by apply IH.
Qed.

Lemma unsettled_new : unsettled new_client.
Proof. by intros n _. Qed.

Lemma unsettled_step c ev :
  client_ok c → unsettled c → unsettled (client_step c ev).
Proof.
  intros (Hp & Ht & Hd) Hu.
  destruct ev as [|uuid method params ms|k|data| | |message|]; cbn [client_step].
  - done.
  - unfold send; cbn. destruct (ws_open c); cbn.
    + intros n Hn. cbn in Hn. rewrite lookup_insert in Hn.
      change (settlements_of n c = []). apply Hu.
      case_decide; [left; lia|]. destruct Hn; [left; lia|by right].
    + intros n Hn. cbn in Hn.
      assert (next_request c ≠ n) as Hne.
      { destruct Hn as [?|[cl Hn%Ht]]; lia. }
      rewrite (settlements_of_other n (next_request c) _ c) by done.
      apply Hu. destruct Hn; [left; lia|by right].
  - unfold timer_fires. destruct (timers c !! k) as [cl|] eqn:Hk; [|done]. cbn.
    assert (k < next_request c)%nat as Hlt by by eapply Ht.
    assert (∀ n, (next_request c ≤ n)%nat ∨ is_Some (delete k (timers c) !! n) →
                 k ≠ n ∧ settlements_of n c = []) as Hrest.
    { intros n [Hn|[cl' [Hne Hn]%lookup_delete_Some]].
      - split; [lia|]. apply Hu. by left.
      - split; [done|]. apply Hu. by right. }
    destruct (pendingRequests c !! timer_id cl) as [m|]; cbn.
    + intros n [Hne Hn]%Hrest.
      by erewrite (settlements_of_other n k _ c); [|cbn; reflexivity|].
    + by intros n [_ Hn]%Hrest.
  - assert (unsettled (handleMessage data c).1) as Hmain.
    { destruct (handleMessage_cases data c) as [->|[[line ->]|(id & m & o & Hm & ->)]];
        [done..|].
      intros n Hn. cbn in Hn.
      assert (m ≠ n) as Hne.
      { destruct Hn as [Hn|[cl' [Hne Hn]%lookup_delete_Some]]; [|done].
        apply Hp in Hm. lia. }
      rewrite (settlements_of_other n m o c) by done. apply Hu.
      destruct Hn as [Hn|[cl' [_ Hn]%lookup_delete_Some]]; [by left|by right]. }
    by destruct (handleMessage data c) as [c' [e|]].
  - unfold disconnect. pose proof (reject_all_run "Disconnected from game" c) as Hrun.
    cbn zeta in Hrun. set (c' := rejectAllPending _ c) in *. clearbody c'.
    destruct Hrun as (Hn & Hpe & Hts & _ & Hs).
    intros n Hx. change (settlements_of n c' = []). cbn in Hx. rewrite Hn in Hx.
    destruct Hx as [Hx|[cl [Hx Hnot]%Hts]].
    + rewrite Hs; [apply Hu; by left|]. intros id Hid%Hp. lia.
    + rewrite Hs by done. apply Hu. by right.
  - pose proof (reject_all_run "WebSocket connection closed" c) as Hrun.
    cbn zeta in Hrun. set (c' := rejectAllPending _ c) in *. clearbody c'.
    destruct Hrun as (Hn & Hpe & Hts & _ & Hs).
    intros n Hx. change (settlements_of n c' = []). cbn in Hx. rewrite Hn in Hx.
    destruct Hx as [Hx|[cl [Hx Hnot]%Hts]].
    + rewrite Hs; [apply Hu; by left|]. intros id Hid%Hp. lia.
    + rewrite Hs by done. apply Hu. by right.
  - pose proof (reject_all_logged ("WebSocket error: " +:+ message)
                  ("[BRIDGE] WebSocket error: " +:+ message) c) as Hrun.
    cbn zeta in Hrun. set (c' := rejectAllPending _ _) in *. clearbody c'.
    destruct Hrun as (Hn & Hpe & Hts & _ & Hs).
    intros n Hx. change (settlements_of n c' = []). cbn in Hx. rewrite Hn in Hx.
    destruct Hx as [Hx|[cl [Hx Hnot]%Hts]].
    + rewrite Hs; [apply Hu; by left|]. intros id Hid%Hp. lia.
    + rewrite Hs by done. apply Hu. by right.
  - done.
Qed.

Lemma unsettled_run evs :
  ∀ c, client_ok c → unsettled c → unsettled (client_run c evs).
Proof.
  induction evs as [|ev evs IH]; intros c Hok Hu; [done|]. cbn.
  apply IH; [by apply client_ok_step|by apply unsettled_step].
Qed.

Lemma not_pending_step id c ev :
  pendingRequests c !! id = None → reuses id ev = false →
  pendingRequests (client_step c ev) !! id = None.
Proof.
  intros Hnone Hev. destruct ev as [|uuid method params ms|k|data| | |message|]; cbn [client_step].
  - done.
  - cbn in Hev. apply String.eqb_neq in Hev. unfold send; cbn.
    destruct (ws_open c); cbn; [|done]. by rewrite lookup_insert_ne.
  - unfold timer_fires. destruct (timers c !! k) as [cl|]; [|done]. cbn.
    destruct (pendingRequests c !! timer_id cl); cbn; [|done].
    apply lookup_delete_None. by right.
  - assert (pendingRequests (handleMessage data c).1 !! id = None) as Hmain.
    { destruct (handleMessage_cases data c) as [->|[[line ->]|(id' & m & o & Hm & ->)]];
        [done..|].
      cbn. apply lookup_delete_None. by right. }
    by destruct (handleMessage data c) as [c' [e|]].
  - unfold disconnect. pose proof (reject_all_run "Disconnected from game" c) as Hrun.
    cbn zeta in Hrun. set (c' := rejectAllPending _ c) in *. clearbody c'.
    destruct Hrun as (_ & Hpe & _). cbn. by rewrite Hpe, lookup_empty.
  - pose proof (reject_all_run "WebSocket connection closed" c) as Hrun.
    cbn zeta in Hrun. set (c' := rejectAllPending _ c) in *. clearbody c'.
    destruct Hrun as (_ & Hpe & _). cbn. by rewrite Hpe, lookup_empty.
  - pose proof (reject_all_logged ("WebSocket error: " +:+ message)
                  ("[BRIDGE] WebSocket error: " +:+ message) c) as Hrun.
    cbn zeta in Hrun. set (c' := rejectAllPending _ _) in *. clearbody c'.
    destruct Hrun as (_ & Hpe & _). cbn. by rewrite Hpe, lookup_empty.
  - done.
Qed.

Lemma not_pending_run id evs :
  ∀ c, pendingRequests c !! id = None →
       forallb (λ ev, negb (reuses id ev)) evs = true →
       pendingRequests (client_run c evs) !! id = None.
Proof.
  induction evs as [|ev evs IH]; intros c Hnone Hevs; [done|]. cbn in *.
  apply andb_true_iff in Hevs as [Hev Hevs]. apply negb_true_iff in Hev.
  apply IH; [by apply not_pending_step|done].
Qed.

Lemma handleMessage_unknown data parsed id c :
  JSON_parse data = Some parsed →
  prop parsed "id" = Some id →
  nullish id = false →
  pendingRequests c !! String_ id = None →
  handleMessage data c = (console_error (unknown_id_line id) c, None).
Proof.
  intros Hparse Hid Hnull Hnone. unfold handleMessage.
  by rewrite Hparse, Hid, Hnull, Hnone.
Qed.

(** C3.  Take any state the client can reach in which the timer of request
    [n] is still armed and the pending entry of its id is still that of
    request [n] (no matching response has arrived).  When the timer fires,
    the entry is removed and [reject] is called with the timeout error.
    After any further events, that [reject] is the only call ever made on
    the promise; and, as long as [randomUUID()] does not return the same id
    again, a message carrying that id returns normally, leaving the client
    as it was except for one more line on the console. *)
Theorem late_response_is_discarded evs0 n cl :
  timers (client_run new_client evs0) !! n = Some cl →
  pendingRequests (client_run new_client evs0) !! timer_id cl = Some n →
  pendingRequests (client_step (client_run new_client evs0) (CTimer n)) !! timer_id cl
  = None
  ∧ settlements (client_step (client_run new_client evs0) (CTimer n))
    = settlements (client_run new_client evs0)
        ++ [(n, Rejected (timeout_message (timer_method cl) (timer_ms cl)))]
  ∧ ∀ evs,
      settlements_of n
        (client_run (client_step (client_run new_client evs0) (CTimer n)) evs)
      = [Rejected (timeout_message (timer_method cl) (timer_ms cl))]
      ∧ (forallb (λ ev, negb (reuses (timer_id cl) ev)) evs = true →
         ∀ data parsed id,
           JSON_parse data = Some parsed →
           prop parsed "id" = Some id →
           nullish id = false →
           String_ id = timer_id cl →
           handleMessage data
             (client_run (client_step (client_run new_client evs0) (CTimer n)) evs)
           = (console_error (unknown_id_line id)
                (client_run (client_step (client_run new_client evs0) (CTimer n)) evs),
              None)).
Proof.
  intros Htimer Hentry.
  pose proof (client_ok_run evs0 new_client client_ok_new) as Hok.
  pose proof (unsettled_run evs0 new_client client_ok_new unsettled_new) as Hu.
  set (c := client_run new_client evs0) in *. clearbody c. cbn [client_step].
  destruct (timer_fires_pending _ n cl Hok Htimer Hentry) as (Hgone & Hsettled & Hforgotten).
  split; [done|]. split; [done|]. intros evs. split.
  - destruct (forgotten_run n evs _ Hforgotten) as [_ ->].
    unfold settlements_of. rewrite Hsettled, List.filter_app, map_app.
    fold (settlements_of n c). rewrite Hu by (right; by eexists). cbn.
    by rewrite Nat.eqb_refl.
  - intros Hevs data parsed id Hparse Hid Hnull Hsame.
    apply (handleMessage_unknown data parsed); [done..|]. rewrite Hsame.
    by apply not_pending_run.
Qed.

End ClientProperties.

(** * Worked examples

    The theorems above at concrete inputs, on the small engine and runtime
    of the examples, and runs that show where the code does something
    other than one might expect. *)
Section Examples.
Existing Instance toy.
Existing Instance toy_runtime.

(** ** The theorems at an input *)


(** Without the flag, [evaluate_expression] is refused at once. *)
Lemma unsafe_gate_example :
  _unsafe_mode (ready false (toy_host (inl VNil))) = false
  ∧ _handle_evaluate_expression (VInt 1) [] (ready false (toy_host (inl VNil)))
    = _send_error (VInt 1) (-32001)
        "evaluate_expression requires --unsafe flag on TestBridge"
        (ready false (toy_host (inl VNil))).
Proof.
  split; [reflexivity|].
  exact (proj1 (unsafe_gate (VInt 1) [] (ready false (toy_host (inl VNil))) eq_refl)).
Defined.

(** A poll of "x" with a requested interval of 5 ms runs every 16 ms. *)
Lemma wait_for_condition_polls_example :
  let params := [(VString "expression", VString "x");
                 (VString "timeout_ms", VInt 1000);
                 (VString "poll_interval_ms", VInt 5)] in
  let s := ready true (toy_host (inl (VBool false))) in
  (_unsafe_mode s = true
   ∧ dict_get params "expression" (VString "") = VString "x"
   ∧ is_empty "x" = false
   ∧ int_of (dict_get params "timeout_ms" (VInt 5000)) = Done 1000%Z
   ∧ int_of (dict_get params "poll_interval_ms" (VInt 100)) = Done 5%Z
   ∧ dict_get params "base_node_path" (VString "/root") = VString "/root"
   ∧ Host_get_node (host s) "/root" = Some toy_root
   ∧ Expression_parse "x" = None)
  ∧ _handle_wait_for_condition (VInt 3) params s
    = poll_turn (VInt 3) "x" 1 1000 16 0 VNil
        (set_pending (<["3" := VBool true]> ∅)
           (emit [GetNode "/root"; ExprParse "x"] s)).
Proof.
  intros params s. split; [by repeat split|].
  exact (proj1 (wait_for_condition_polls (VInt 3) params s "x" 1000 5 "/root" toy_root
                  eq_refl eq_refl eq_refl eq_refl eq_refl eq_refl eq_refl eq_refl)).
Defined.



(** A request "ping" whose timer fires, and the response that comes late:
    the promise was rejected once, with the timeout error, and stays so. *)
Lemma late_response_is_discarded_example :
  let evs0 := [BridgeClient.CConnected; BridgeClient.CSend "u1" "ping" None 5000] in
  let cl := {| BridgeClient.timer_id := "u1"; BridgeClient.timer_method := "ping";
               BridgeClient.timer_ms := 5000 |} in
  (BridgeClient.timers (BridgeClient.client_run BridgeClient.new_client evs0) !! 0%nat
   = Some cl
   ∧ BridgeClient.pendingRequests (BridgeClient.client_run BridgeClient.new_client evs0)
       !! "u1" = Some 0%nat)
  ∧ BridgeClient.settlements_of 0
      (BridgeClient.client_run
         (BridgeClient.client_step (BridgeClient.client_run BridgeClient.new_client evs0)
            (BridgeClient.CTimer 0))
         [BridgeClient.CMessage "late"])
    = [BridgeClient.Rejected (BridgeClient.timeout_message "ping" 5000)].
Proof.
  intros evs0 cl.
  assert (BridgeClient.timers (BridgeClient.client_run BridgeClient.new_client evs0)
            !! 0%nat = Some cl) as Htimer by (vm_compute; reflexivity).
  assert (BridgeClient.pendingRequests
            (BridgeClient.client_run BridgeClient.new_client evs0)
            !! BridgeClient.timer_id cl = Some 0%nat) as Hentry
    by (vm_compute; reflexivity).
  split; [by split|].
  exact (proj1 (proj2 (proj2 (late_response_is_discarded evs0 0 cl Htimer Hentry))
                  [BridgeClient.CMessage "late"])).
Defined.

(** ** Runs of the agent

    In each run a controller connects and the texts listed arrive in the
    same frame. *)


(** C6.  Without the flag, [call_method] naming the blocked method "free"
    but no node is answered with -32602, not with -32001. *)
Lemma blocked_method_without_node_path :
  string_in "free" _BLOCKED_METHODS = true
  ∧ effects (run toy_other (ready false (toy_host (inl VNil)))
               [EvProcess (open_with ["free"])])
    = [SendText 0 (reply (VInt 2) VNil
                     (error_dict (-32602) "Missing required parameter: node_path"))].
Proof. split; vm_compute; reflexivity. Qed.



(** C2.  A poll whose expression fails to execute ends with the error
    "Expression execution failed", although the deadline of 1000 ms has
    not passed and the base node is valid. *)
Lemma poll_ends_on_failed_execution :
  Host_is_valid (toy_host (inr "boom")) 1 = true
  ∧ effects (run toy_other (ready true (toy_host (inr "boom")))
               [EvProcess (open_with ["poll"])])
    = [GetNode "/root"; ExprParse "x"; ExprParse "x"; ExprExecute "x" 1;
       SendText 0 (reply (VInt 3) VNil
                     (error_dict (-32603) "Expression execution failed: boom"))].
Proof. split; vm_compute; reflexivity. Qed.



End Examples.

(** * Further properties *)

Ltac exec1 :=
  progress (unfold mbind, M_bind, mret, M_ret, reads, modify, effect, lift;
            cbn [negb andb orb fst snd
                 _active _unsafe_mode _ws_peer _pending_responses host ticks_msec
                 coroutines next_handle next_peer effects
                 set_peer set_pending set_host set_ticks set_coroutines
                 set_next_handle set_next_peer set_effects]).
Ltac exec := repeat exec1.

Section FindNodes.
Context `{E : Engine}.

Lemma firstn_app_rest {A} (k : nat) (l1 l2 : list A) :
  firstn k (l1 ++ l2) = firstn k l1 ++ firstn (k - length (firstn k l1)) l2.
Proof.
  rewrite firstn_app. f_equal. rewrite length_firstn.
  destruct (Nat.le_gt_cases k (length l1)).
  - replace (k - length l1)%nat with 0%nat by lia.
    by replace (k - k `min` length l1)%nat with 0%nat by lia.
  - f_equal. lia.
Qed.

Lemma find_nodes_recursive_preorder tf np gf node :
  ∀ results,
    _find_nodes_recursive node tf np gf results
    = results ++ firstn (1000 - length results)
                   (map node_entry (List.filter (passes_filters tf np gf) (preorder node))).
Proof.
  induction node as [i n c a p g children IH] using Node_induction.
  intros results. cbn [_find_nodes_recursive preorder List.filter].
  unfold _MAX_FIND_RESULTS.
  destruct (Z.of_nat (length results) >=? 1000)%Z eqn:Hfull.
  { replace (1000 - length results)%nat with 0%nat by lia. by rewrite app_nil_r. }
  set (node := mkNode i n c a p g children).
  assert ((if negb (is_empty gf) && negb (is_in_group node gf) then false
           else if negb (is_empty np) && negb (String_match (node_name node) np)
                then false
                else if negb (is_empty tf) && negb (is_class node tf) then false
                     else true)
          = passes_filters tf np gf node) as ->.
  { unfold passes_filters.
    by destruct (is_empty tf), (is_class node tf), (is_empty np),
         (String_match (node_name node) np), (is_empty gf), (is_in_group node gf). }
  assert (∀ acc,
            fold_left (λ results child, _find_nodes_recursive child tf np gf results)
              children acc
            = acc ++ firstn (1000 - length acc)
                       (map node_entry
                          (List.filter (passes_filters tf np gf)
                             (flat_map preorder children)))) as Hchildren.
  { clear Hfull results. induction IH as [|child rest Hchild _ IHrest]; intros acc.
    - cbn. by rewrite firstn_nil, app_nil_r.
    - cbn [fold_left flat_map]. rewrite IHrest, Hchild.
      rewrite List.filter_app, map_app, firstn_app_rest, <- app_assoc.
      do 2 f_equal. rewrite length_app. f_equal. lia. }
  rewrite Hchildren. destruct (passes_filters tf np gf node).
  - cbn [map]. rewrite <- app_assoc, length_app. cbn [length app].
    destruct (1000 - length results)%nat as [|k] eqn:Hk; [lia|].
    cbn [firstn]. do 3 f_equal. lia.
  - done.
Qed.

(** X1.  The result of a [find_nodes] search is the list of the first 1000
    nodes, in the order parent before children and children in their
    order, that pass the three filters. *)
Theorem find_nodes_first_matches root tf np gf :
  _find_nodes_recursive root tf np gf []
  = firstn 1000 (map node_entry (List.filter (passes_filters tf np gf) (preorder root))).
Proof. by rewrite find_nodes_recursive_preorder. Qed.

End FindNodes.

Section SerializationProperties.
Context `{E : Engine}.

Lemma Variant_induction (P : Variant → Prop) :
  P VNil → (∀ b, P (VBool b)) → (∀ z, P (VInt z)) → (∀ q, P (VFloat q)) →
  (∀ s, P (VString s)) → (∀ x y, P (VVector2 x y)) → (∀ x y z, P (VVector3 x y z)) →
  (∀ r g b a, P (VColor r g b a)) → (∀ px py sx sy, P (VRect2 px py sx sy)) →
  (∀ ox oy xx xy yx yy, P (VTransform2D ox oy xx xy yx yy)) →
  (∀ p, P (VNodePath p)) → (∀ rid, P (VRID rid)) →
  (∀ cls node_path, P (VObject cls node_path)) →
  (∀ l, Forall P l → P (VArray l)) →
  (∀ d, Forall (λ kv, P (snd kv)) d → P (VDictionary d)) →
  (∀ t r, P (VOther t r)) →
  ∀ v, P v.
Proof.
  intros Hnil Hbool Hint Hfloat Hstring Hv2 Hv3 Hcolor Hrect Htransform Hpath Hrid
    Hobject Harray Hdict Hother.
  fix IH 1. intros [ |b|z|q|s|x y|x y z|r g b a|px py sx sy|ox oy xx xy yx yy|p|rid
                    |cls node_path|l|d|t r].
  all: try solve [clear IH; eauto].
  - apply Harray. induction l as [|x l IHl]; constructor; [apply IH|apply IHl].
  - apply Hdict. induction d as [|[k x] d IHd]; constructor; [apply IH|apply IHd].
Qed.

Lemma json_entries_cons k item d :
  json_entries ((k, item) :: d)
  ↔ (∃ s, k = VString s ∧ string_in s (omap key_text d) = false)
    ∧ is_json item = true ∧ json_entries d.
Proof.
  unfold json_entries. cbn [is_json forallb].
  destruct k as [ | | | |s| | | | | | | | | | | ];
    try (split; [done|by intros [(s & [=] & _) _]]).
  change (omap key_text ((VString s, item) :: d)) with (s :: omap key_text d).
  cbn [distinct]. rewrite !andb_true_iff, negb_true_iff.
  split.
  - intros [[Hi Hd] [Hin Hn]]. split; [by eexists|]. by split.
  - intros [(s' & [= <-] & Hin) [Hi [Hd Hn]]]. by repeat split.
Qed.

Lemma dict_set_json d k v :
  json_entries d → is_json v = true → json_entries (dict_set d k v).
Proof.
  intros Hd Hv. induction d as [|[k' v'] d IH]; cbn [dict_set].
  - apply json_entries_cons. split; [by eexists|]. by split.
  - apply json_entries_cons in Hd as ((s & -> & Hfresh) & Hv' & Hd).
    cbn [is_key]. destruct (String.eqb_spec k s) as [->|Hne].
    + apply json_entries_cons. split; [by eexists|]. by split.
    + apply json_entries_cons. split; [|split; [done|by apply IH]].
      exists s. split; [done|].
      assert (∀ d', string_in s (omap key_text d') = false →
                    string_in s (omap key_text (dict_set d' k v)) = false) as Hkeep.
      { clear -Hne. induction d' as [|[k1 v1] d' IH']; cbn [dict_set].
        - intros _. cbn. destruct (String.eqb_spec s k); [congruence|done].
        - destruct k1; cbn [is_key omap key_text fst]; try (cbn; apply IH').
          destruct (String.eqb_spec k s0) as [->|Hne'].
          + done.
          + cbn. destruct (s =? s0)%string; [done|]. cbn. apply IH'. }
      by apply Hkeep.
Qed.

Lemma to_json_is_json v : is_json (_variant_to_json v) = true.
Proof.
  induction v as [| | | | | | | | | | | | |l IH|d IH|] using Variant_induction;
    try done.
  - by destruct node_path.
  - cbn [_variant_to_json is_json]. rewrite forallb_forall. intros x Hx.
    apply in_map_iff in Hx as (y & <- & Hy). rewrite Forall_forall in IH.
    apply IH. by apply list_elem_of_In.
  - cbn [_variant_to_json].
    assert (∀ acc, json_entries acc →
              json_entries
                (fold_left (λ (dict : Dict) (kv : Variant * Variant), let (key, item) := kv in
                                       dict_set dict (str key) (_variant_to_json item))
                   d acc)) as Hfold.
    { induction IH as [|[k x] d Hx _ IHd]; intros acc Hacc; [done|].
      cbn [fold_left]. apply IHd. by apply dict_set_json. }
    by apply Hfold.
Qed.

Lemma read_properties_json node properties :
  ∀ (result : Dict) (s : State E),
    json_entries result →
    match snd (read_properties node properties result s) with
    | Done r => json_entries r
    | Abort _ => True
    end.
Proof.
  induction properties as [|p rest IH]; intros result s Hresult; cbn [read_properties].
  - done.
  - unfold as_String, Object_get. exec. destruct (string_of p) as [prop_name|]; [|done].
    cbn [fst snd]. apply IH. apply dict_set_json; [done|apply to_json_is_json].
Qed.

(** X2.  The values the agent puts into its results are values JSON can
    carry.  Whatever the value, [_variant_to_json] returns one: vectors,
    colours, rectangles, transforms, node paths, RIDs, objects and values
    of any other type are all replaced.  So the arguments captured from a
    signal are JSON values, and so is the dictionary of properties that
    [get_singleton] reads. *)
Theorem serialized_values_are_json :
  (∀ v, is_json (_variant_to_json v) = true)
  ∧ (∀ l, forallb is_json (captured l) = true)
  ∧ (∀ node properties (s : State E),
       match snd (read_properties node properties [] s) with
       | Done r => is_json (VDictionary r) = true
       | Abort _ => True
       end).
Proof.
  split; [apply to_json_is_json|]. split.
  - intros l. unfold captured. apply forallb_forall.
    intros x (y & <- & _)%in_map_iff. apply to_json_is_json.
  - intros node properties s. by apply read_properties_json.
Qed.

Lemma dict_set_fresh d k v :
  json_entries d → string_in k (omap key_text d) = false →
  dict_set d k v = d ++ [(VString k, v)].
Proof.
  intros Hd Hk. induction d as [|[k' v'] d IH]; [done|].
  apply json_entries_cons in Hd as ((s & -> & _) & _ & Hd).
  cbn in Hk. cbn [dict_set is_key].
  destruct (String.eqb_spec k s) as [->|Hne]; [done|].
  cbn in Hk. rewrite IH; done.
Qed.

(** X3.  When [str] leaves a String as it is, a value that JSON can carry
    goes through [_variant_to_json] unchanged. *)
Theorem variant_to_json_keeps_json v :
  (∀ s, str (VString s) = s) → is_json v = true → _variant_to_json v = v.
Proof.
  intros Hstr.
  induction v as [| | | | | | | | | | | | |l IH|d IH|] using Variant_induction;
    try done.
  - cbn [is_json _variant_to_json]. intros Hl. f_equal.
    induction IH as [|x l Hx _ IHl]; [done|]. cbn in Hl.
    apply andb_true_iff in Hl as [Hx' Hl]. cbn. by rewrite Hx, IHl.
  - intros Hd. cbn [_variant_to_json]. f_equal.
    enough (∀ acc, json_entries (acc ++ d) →
              fold_left (λ (dict : Dict) (kv : Variant * Variant), let (key, item) := kv in
                                    dict_set dict (str key) (_variant_to_json item))
                d acc = acc ++ d) as Hfold by by apply (Hfold []).
    clear Hd. induction IH as [|[k x] d Hx _ IHd]; intros acc Hacc.
    + by rewrite app_nil_r.
    + cbn [fold_left].
      assert (json_entries acc
              ∧ (∃ s, k = VString s ∧ string_in s (omap key_text acc) = false)
              ∧ is_json x = true) as (Hacc' & (s & -> & Hfresh) & Hjx).
      { clear -Hacc. induction acc as [|[k' v'] acc IHacc].
        - apply json_entries_cons in Hacc as ((s & -> & _) & Hx & _).
          split; [done|]. split; [by exists s|done].
        - cbn [app] in Hacc.
          apply json_entries_cons in Hacc as ((s' & -> & Hf') & Hv' & Hrest).
          destruct (IHacc Hrest) as (Ha & (s & -> & Hs) & Hx).
          split.
          + apply json_entries_cons. split; [|by split]. exists s'. split; [done|].
            rewrite omap_app in Hf'. unfold string_in in *.
            rewrite existsb_app in Hf'. by apply orb_false_iff in Hf' as [? _].
          + split; [|done]. exists s. split; [done|].
            cbn. rewrite omap_app in Hf'. unfold string_in in Hf'.
            rewrite existsb_app in Hf'. apply orb_false_iff in Hf' as [_ Hf'].
            cbn in Hf'. apply orb_false_iff in Hf' as [Hne _].
            rewrite String.eqb_sym, Hne. exact Hs. }
      cbn [snd] in Hx.
      rewrite Hstr, (Hx Hjx), (dict_set_fresh acc s x Hacc' Hfresh).
      rewrite IHd; [by rewrite <- app_assoc|by rewrite <- app_assoc].
Qed.

End SerializationProperties.

Section Unprivileged.
Context `{E : Engine}.
Variable other : Method → Variant → Dict → M E unit.

Lemma mild_ret {A} (a : A) : mild (mret a).
Proof. by intros s. Qed.

Lemma mild_lift {A} (r : result A) : mild (lift r).
Proof. by intros s. Qed.

Lemma mild_reads {A} (f : State E → A) : mild (reads f).
Proof. by intros s. Qed.

Lemma mild_bind {A B} (m : M E A) (k : A → M E B) :
  mild m → (∀ a, mild (k a)) → mild (m ≫= k).
Proof.
  intros Hm Hk s Hs. specialize (Hm s Hs). unfold mbind, M_bind.
  destruct (m s) as [s1 [a|why]]; cbn [fst] in *; [by apply Hk|done].
Qed.

(** With the flag unset, the test of the flag reads [false]. *)
Lemma mild_gate {B} (k : bool → M E B) :
  mild (k false) → mild (reads _unsafe_mode ≫= k).
Proof.
  intros Hk s Hs. unfold mbind, M_bind, reads. destruct Hs as [Hu ?].
  rewrite Hu. apply Hk. by split.
Qed.

Lemma mild_effect e : privileged e = false → mild (effect e).
Proof.
  intros He s (Hu & Heff & Hco). split; [done|]. split; [|done].
  cbn. intros e' [Hin|[<-|[]]]%in_app_or; [by apply Heff|done].
Qed.

Lemma mild_modify (f : State E → State E) :
  (∀ s, _unsafe_mode (f s) = _unsafe_mode s ∧ effects (f s) = effects s
        ∧ coroutines (f s) = coroutines s) →
  mild (modify f).
Proof.
  intros Hf s (Hu & Heff & Hco). destruct (Hf s) as (Hu' & He' & Hc'). cbn.
  unfold unprivileged. by rewrite Hu', He', Hc'.
Qed.

Lemma mild_guarded (m : M E unit) : mild m → mild (guarded m).
Proof. intros Hm s Hs. by apply Hm. Qed.

Ltac mild_step :=
  lazymatch goal with
  | |- mild (mret _) => apply mild_ret
  | |- mild (lift _) => apply mild_lift
  | |- mild (reads _) => apply mild_reads
  | |- mild (modify _) => apply mild_modify; by intros ?
  | |- mild (effect _) => apply mild_effect; first [reflexivity | cbn; assumption]
  | |- mild (mbind _ (reads _unsafe_mode)) => apply mild_gate; cbn [negb andb]
  | |- mild (mbind _ _) => apply mild_bind; [|intros ?]
  | |- mild (if ?b then _ else _) => destruct b eqn:?
  | |- mild (match ?x with _ => _ end) => destruct x eqn:?
  | |- mild (let '(_, _) := ?x in _) => destruct x eqn:?
  end.
Ltac mild :=
  unfold as_String, as_Dictionary, as_Array, to_int, to_float, get_node_or_null,
    is_instance_valid, has_signal, Object_get, callv, expr_parse, expr_execute,
    Time_get_ticks_msec, _send_error, _send_response, _send_raw_response, erase_pending,
    mark_pending, _inject_key, drag_step;
  cbv zeta; repeat mild_step.

Lemma mild_send_error id code message : mild (_send_error id code message).
Proof. mild. Qed.

Lemma mild_send_response id result : mild (_send_response id result).
Proof. mild. Qed.

Lemma mild_read_properties node properties (result : Dict) :
  mild (read_properties node properties result).
Proof.
  revert result. induction properties as [|p rest IH]; intros result; cbn [read_properties].
  - mild.
  - apply mild_bind; [mild|intros prop_name]. apply mild_bind; [mild|intros v]. apply IH.
Qed.

Lemma mild_find_nodes id params : mild (_handle_find_nodes id params).
Proof. unfold _handle_find_nodes. mild. Qed.

Lemma mild_call_method id params : mild (_handle_call_method id params).
Proof. unfold _handle_call_method. mild. Qed.

Lemma mild_get_singleton id params : mild (_handle_get_singleton id params).
Proof.
  unfold _handle_get_singleton.
  repeat (first [apply mild_read_properties | progress mild]).
Qed.

Lemma mild_evaluate_expression id params : mild (_handle_evaluate_expression id params).
Proof. unfold _handle_evaluate_expression. mild. Qed.

Lemma calm_bind {A} (m : M E A) (k : A → M E (option Coroutine)) :
  mild m → (∀ a, calm (k a)) → calm (m ≫= k).
Proof.
  intros Hm Hk s Hs. specialize (Hm s Hs). unfold mbind, M_bind.
  destruct (m s) as [s1 [a|why]]; cbn [fst snd] in *; [by apply Hk|done].
Qed.

Lemma calm_gate (k : bool → M E (option Coroutine)) :
  calm (k false) → calm (reads _unsafe_mode ≫= k).
Proof.
  intros Hk s Hs. unfold mbind, M_bind, reads. destruct Hs as [Hu ?].
  rewrite Hu. apply Hk. by split.
Qed.

Lemma calm_ret (c : option Coroutine) :
  match c with Some co => is_poll co = false | None => True end → calm (mret c).
Proof. intros Hc s Hs. split; [done|]. by intros co [= ->]. Qed.

Ltac calm_step :=
  lazymatch goal with
  | |- calm (mret _) => apply calm_ret; exact eq_refl || exact I
  | |- calm (mbind _ (reads _unsafe_mode)) => apply calm_gate; cbn [negb andb]
  | |- calm (mbind _ _) => apply calm_bind; [solve [mild]|intros ?]
  | |- calm (if ?b then _ else _) => destruct b eqn:?
  | |- calm (match ?x with _ => _ end) => destruct x eqn:?
  end.
Ltac calm := cbv zeta; repeat calm_step.

Lemma calm_send_key id params : calm (_handle_send_key id params).
Proof. unfold _handle_send_key. calm. Qed.

Lemma calm_send_mouse_drag id params : calm (_handle_send_mouse_drag id params).
Proof. unfold _handle_send_mouse_drag, _do_mouse_drag. calm. Qed.

Lemma calm_wait_for_condition id params : calm (_handle_wait_for_condition id params).
Proof. unfold _handle_wait_for_condition. calm. Qed.

Lemma calm_wait_frames id params : calm (_handle_wait_frames id params).
Proof. unfold _handle_wait_frames, _do_wait_frames, wait_frames_from. calm. Qed.

Lemma calm_wait_for_signal id params : calm (_handle_wait_for_signal id params).
Proof. unfold _handle_wait_for_signal, _do_wait_for_signal, signal_turn. calm. Qed.

Lemma calm_resume c : is_poll c = false → calm (resume c).
Proof.
  destruct c; [| |done| |]; intros _; cbn [resume].
  - unfold resume_send_key. calm.
  - unfold resume_mouse_drag. calm.
  - unfold wait_frames_from. calm.
  - unfold signal_turn. calm.
Qed.

(** *** The agent as a whole *)

Lemma mild_start (m : M E (option Coroutine)) : calm m → mild (start m).
Proof.
  intros Hm s Hs. destruct (Hm s Hs) as [(Hu & Heff & Hco) Hc].
  unfold start, mbind, M_bind, mret, M_ret, modify, spawn.
  destruct (m s) as [s1 [[c|]|why]]; cbn [fst snd] in *; try done.
  split; [done|]. split; [done|]. cbn.
  intros kc [Hin|[<-|[]]]%in_app_or; [by apply Hco|]. by apply Hc.
Qed.

Lemma mild_dispatch id method params :
  match route method with Some m => embedded m | None => true end = true →
  mild (_dispatch other id method params).
Proof.
  unfold _dispatch. destruct (route method) as [[]|]; try discriminate; intros _.
  - apply mild_start, calm_send_key.
  - apply mild_start, calm_send_mouse_drag.
  - apply mild_find_nodes.
  - apply mild_call_method.
  - apply mild_get_singleton.
  - apply mild_evaluate_expression.
  - apply mild_start, calm_wait_for_condition.
  - apply mild_start, calm_wait_frames.
  - apply mild_start, calm_wait_for_signal.
  - apply mild_send_error.
Qed.

Lemma mild_handle_packet text :
  in_scope text = true → mild (_handle_packet other text).
Proof.
  unfold in_scope, _handle_packet, as_String, as_Dictionary.
  destruct (JSON_parse_string text) as [| | | | | | | | | | | | | |d|]; cbn [is_nil];
    try (intros _; solve [mild]).
  intros Hscope s Hs. exec.
  destruct (string_of (dict_get d "method" _)) as [method|]; cbn [fst]; [|done].
  destruct (is_empty method).
  { revert s Hs. change (mild (_send_raw_response (dict_get d "id" VNil) VNil
                                 (error_dict (-32600) "Invalid request: missing method"))).
    mild. }
  destruct (dictionary_of _) as [params|]; cbn [fst]; [|done].
  by apply mild_dispatch.
Qed.

Lemma mild_handle_packets texts :
  forallb in_scope texts = true → mild (handle_packets other texts).
Proof.
  induction texts as [|text rest IH]; cbn [handle_packets forallb]; [intros _; mild|].
  intros [Htext Hrest]%andb_prop. apply mild_bind; [|intros _; by apply IH].
  by apply mild_guarded, mild_handle_packet.
Qed.

Lemma mild_set_peer p : mild (modify (set_peer p)).
Proof. mild. Qed.

Lemma mild_process inp :
  forallb in_scope (packets inp) = true → mild (_process other inp).
Proof.
  intros Hscope. unfold _process, accept_connection.
  repeat (first [apply mild_handle_packets; assumption | progress mild]).
Qed.

Lemma unprivileged_resume_handle k s :
  unprivileged s → unprivileged (resume_handle k s).
Proof.
  intros (Hu & Heff & Hco). unfold resume_handle.
  destruct (take_coroutine k (coroutines s)) as [[c rest]|] eqn:Htake; [|done].
  apply take_coroutine_perm in Htake.
  assert (is_poll c = false) as Hc.
  { apply (Hco (k, c)). apply list_elem_of_In. rewrite Htake. left. }
  assert (unprivileged (set_coroutines rest s)) as Hs.
  { split; [done|]. split; [done|]. cbn. intros kc Hin. apply Hco.
    apply list_elem_of_In. rewrite Htake. right. by apply list_elem_of_In. }
  destruct (calm_resume c Hc _ Hs) as [(Hu' & Heff' & Hco') Hc'].
  destruct (resume c (set_coroutines rest s)) as [s' [[c'|]|why]]; cbn [fst snd] in *;
    try done.
  split; [done|]. split; [done|]. cbn.
  intros kc [Hin|[<-|[]]]%in_app_or; [by apply Hco'|]. by apply Hc'.
Qed.

Lemma unprivileged_step s ev :
  event_in_scope ev = true → unprivileged s → unprivileged (step other s ev).
Proof.
  intros Hev Hs. destruct ev as [inp|k| |node signal args|h dt]; cbn [step].
  - by apply mild_process.
  - destruct (take_coroutine k (coroutines s)) as [[c rest]|]; [|done].
    destruct (awaits_process_frame c); [done|]. by apply unprivileged_resume_handle.
  - generalize (frame_waiters s). intros l. revert s Hs.
    induction l as [|k l IH]; intros s Hs; [done|]. cbn [fold_left].
    by apply IH, unprivileged_resume_handle.
  - destruct (Host_is_valid (host s) node); [|done].
    destruct Hs as (Hu & Heff & Hco). split; [done|]. split; [done|]. cbn.
    intros kc [[k c] [<- Hin]]%in_map_iff. cbn [snd fst].
    specialize (Hco _ Hin). cbn [snd] in Hco.
    destruct c; try done. cbn [deliver_signal].
    destruct connected; [|done]. destruct (_ && _); [|done]. by destruct (bind4 args).
  - by destruct Hs as (Hu & Heff & Hco).
Qed.

(** X4.  An agent started without [--unsafe] never parses or executes an
    expression and never calls one of the blocked methods, whatever
    messages, timers, signals and changes of the scene come, as long as
    the messages go to the embedded handlers. *)
Theorem nothing_privileged_without_unsafe evs (h : Host) :
  forallb event_in_scope evs = true →
  existsb privileged (effects (run other (ready false h) evs)) = false.
Proof.
  intros Hscope.
  enough (unprivileged (run other (ready false h) evs)) as (_ & Heff & _).
  { apply not_true_is_false. intros (e & Hin & He)%existsb_exists.
    by rewrite (Heff e Hin) in He. }
  assert (unprivileged (ready false h)) as Hs by (by repeat split).
  revert Hs Hscope. generalize (ready false h).
  induction evs as [|ev evs IH]; intros s Hs Hscope; [done|].
  cbn in Hscope. apply andb_prop in Hscope as [Hev Hevs].
  cbn [run fold_left]. apply IH; [|done]. by apply unprivileged_step.
Qed.

End Unprivileged.

Section LivesProperties.
Context `{E : Engine}.

Lemma drive_done wakes (s : State E) : drive None wakes s = (s, None).
Proof. by destruct wakes. Qed.

Lemma effects_advance (h : Host) dt (s : State E) :
  effects (advance h dt s) = effects s ∧ _ws_peer (advance h dt s) = _ws_peer s.
Proof. done. Qed.

(** *** wait_frames *)

Lemma wait_frames_drive id count (s0 : State E) : ∀ wakes i s,
  (0 ≤ i < count)%Z →
  _ws_peer s = _ws_peer s0 →
  effects (fst (drive (Some (CoWaitFrames id count i)) wakes s))
  = effects s
      ++ repeat AwaitProcessFrame (length wakes `min` Z.to_nat (count - i - 1))
      ++ (if (Z.to_nat (count - i) <=? length wakes)%nat
          then deliver (_ws_peer s0)
                 (reply id (VDictionary [(VString "frames_waited", VInt count)]) VNil)
          else []).
Proof.
  induction wakes as [|[h dt] wakes IH]; intros i s Hi Hpeer.
  - cbn [drive fst length]. destruct (Nat.leb_spec (Z.to_nat (count - i)) 0); [lia|].
    cbn. by rewrite app_nil_r.
  - cbn [drive resume length]. unfold wait_frames_from.
    destruct (Z.ltb_spec (i + 1) count) as [Hlt|Hge].
    + exec. rewrite IH by (done || lia). cbn [effects advance set_ticks set_host set_effects].
      rewrite <- app_assoc. f_equal.
      replace (Z.to_nat (count - i - 1)) with (S (Z.to_nat (count - (i + 1) - 1))) by lia.
      replace (Z.to_nat (count - i)) with (S (Z.to_nat (count - (i + 1)))) by lia.
      done.
    + exec. rewrite send_response_run. exec. rewrite drive_done. cbn [fst].
      replace (Z.to_nat (count - i - 1)) with 0%nat by lia.
      replace (Z.to_nat (count - i)) with 1%nat by lia.
      rewrite Nat.min_0_r. cbn [repeat app Nat.leb].
      cbn [effects set_pending emit set_effects advance set_ticks set_host _ws_peer].
      by rewrite Hpeer.
Qed.

(** X5.  [wait_frames] with a count below 1 is refused.  Otherwise the
    request waits for [process_frame] exactly [count] times: nothing is
    sent before the [count]-th frame, and with that frame the response
    [{frames_waited: count}] goes to the peer of the request. *)
Theorem wait_frames_waits id params count (s : State E) :
  int_of (dict_get params "count" (VInt 1)) = Done count →
  ((count < 1)%Z →
   _handle_wait_frames id params s
   = (fst (_send_error id (-32602) "count must be >= 1" s), Done None))
  ∧ ((1 ≤ count)%Z →
     ∀ frames,
       effects (fst (life (_handle_wait_frames id params) frames s))
       = effects s
           ++ repeat AwaitProcessFrame (S (length frames) `min` Z.to_nat count)
           ++ (if (Z.to_nat count <=? length frames)%nat
               then deliver (_ws_peer s)
                      (reply id (VDictionary [(VString "frames_waited", VInt count)]) VNil)
               else [])).
Proof.
  intros Hcount. unfold life, _handle_wait_frames, to_int. exec. rewrite Hcount. cbn.
  split; intros Hc.
  - destruct (Z.ltb_spec count 1); [|lia]. exec. by rewrite send_error_run.
  - destruct (Z.ltb_spec count 1); [lia|]. unfold mark_pending, _do_wait_frames,
      wait_frames_from. exec. destruct (Z.ltb_spec 0 count); [|lia]. exec.
    intros frames. rewrite (wait_frames_drive id count s) by (done || lia).
    cbn [effects set_effects set_pending]. rewrite <- app_assoc. f_equal.
    replace (Z.to_nat count) with (S (Z.to_nat (count - 0 - 1))) at 1 by lia.
    replace (count - 0)%Z with count by lia. done.
Qed.

End LivesProperties.

Section InputProperties.
Context `{E : Engine}.

(** *** send_key *)

(** X6.  A tap presses the key, holds it for [hold_ms] and releases it:
    the release carries the key and the modifiers of the press, and the
    response follows the release. *)
Theorem send_key_tap_releases id params key_string hold_ms keycode (s : State E)
    wake wakes :
  dict_get params "key" (VString "") = VString key_string →
  is_empty key_string = false →
  dict_get params "action" (VString "tap") = VString "tap" →
  int_of (dict_get params "hold_ms" (VInt 100)) = Done hold_ms →
  resolve_keycode (key_name_of key_string) = Some keycode →
  effects (fst (life (_handle_send_key id params) [] s))
  = effects s
      ++ [ParseInputEvent
            (InputEventKey keycode true
               (modifier_of "Ctrl" key_string) (modifier_of "Shift" key_string)
               (modifier_of "Alt" key_string) (modifier_of "Meta" key_string));
          CreateTimer hold_ms]
  ∧ effects (fst (life (_handle_send_key id params) (wake :: wakes) s))
    = effects s
        ++ [ParseInputEvent
              (InputEventKey keycode true
                 (modifier_of "Ctrl" key_string) (modifier_of "Shift" key_string)
                 (modifier_of "Alt" key_string) (modifier_of "Meta" key_string));
            CreateTimer hold_ms;
            ParseInputEvent
              (InputEventKey keycode false
                 (modifier_of "Ctrl" key_string) (modifier_of "Shift" key_string)
                 (modifier_of "Alt" key_string) (modifier_of "Meta" key_string))]
        ++ deliver (_ws_peer s)
             (reply id (VDictionary [(VString "action", VString "tap");
                                     (VString "key", VString key_string)]) VNil).
Proof.
  intros Hkey Hne Haction Hhold Hcode.
  assert (_handle_send_key id params s
          = (set_pending (<[str id := VBool true]> (_pending_responses s))
               (emit [ParseInputEvent
                        (InputEventKey keycode true
                           (modifier_of "Ctrl" key_string) (modifier_of "Shift" key_string)
                           (modifier_of "Alt" key_string) (modifier_of "Meta" key_string));
                      CreateTimer hold_ms] s),
             Done (Some (CoSendKey id keycode
                           (modifier_of "Ctrl" key_string) (modifier_of "Shift" key_string)
                           (modifier_of "Alt" key_string) (modifier_of "Meta" key_string)
                           key_string)))) as Hrun.
  { unfold _handle_send_key, as_String, to_int, mark_pending, _inject_key. exec.
    rewrite Hkey; cbn [string_of]. rewrite Hne, Haction; cbn [string_of]. rewrite Hhold.
    cbv zeta. fold (key_name_of key_string). rewrite Hcode.
    cbn [String.eqb Ascii.eqb Bool.eqb]. exec. cbn.
    unfold emit, set_effects, modifier_of; cbn. by rewrite <- app_assoc. }
  unfold life. rewrite Hrun. split; [done|].
  destruct wake as [h dt]. cbn [drive resume]. unfold resume_send_key, _inject_key. exec.
  rewrite send_response_run. exec. rewrite drive_done.
  cbn [fst effects set_pending emit set_effects advance set_ticks set_host _ws_peer].
  by rewrite <- !app_assoc.
Qed.

Lemma split_on_cons sep s : ∃ w ws, split_on sep s = w :: ws.
Proof.
  destruct s as [|c s]; cbn [split_on]; [by eexists _, _|].
  destruct (Ascii.eqb c sep); [by eexists _, _|].
  destruct (split_on sep s); by eexists _, _.
Qed.

Lemma split_on_trailing sep s :
  split_on sep (s +:+ String sep "") = split_on sep s ++ [""].
Proof.
  induction s as [|c s IH].
  - change ("" +:+ String sep "") with (String sep ""). cbn [split_on].
    by destruct (Ascii.eqb_spec sep sep).
  - change (String c s +:+ String sep "") with (String c (s +:+ String sep "")).
    cbn [split_on]. rewrite IH. destruct (Ascii.eqb c sep); [done|].
    by destruct (split_on_cons sep s) as (w & ws & ->).
Qed.

(** X7.  The key name is what follows the last "+" of the key string, so
    a key string that ends in "+" names no key: it is answered with the
    error "Unknown key" and no input event is injected. *)
Theorem send_key_trailing_plus id params prefix action hold_ms (s : State E) :
  dict_get params "key" (VString "") = VString (prefix +:+ "+") →
  dict_get params "action" (VString "tap") = VString action →
  int_of (dict_get params "hold_ms" (VInt 100)) = Done hold_ms →
  _handle_send_key id params s
  = (fst (_send_error id (-32602)
            ("Unknown key: . Valid keys: A-Z, 0-9, " +:+ join ", " (key_names _key_map))
            s),
     Done None).
Proof.
  intros Hkey Haction Hhold.
  unfold _handle_send_key, as_String, to_int. exec.
  rewrite Hkey; cbn [string_of].
  assert (is_empty (prefix +:+ "+") = false) as -> by by destruct prefix.
  rewrite Haction; cbn [string_of]. rewrite Hhold. cbv zeta.
  rewrite split_on_trailing, last_snoc.
  change (default "" (Some "")) with "".
  change (resolve_keycode "") with (@None Key). exec.
  rewrite !send_error_run. reflexivity.
Qed.

(** *** send_mouse_drag *)



End InputProperties.

Section DispatchProperties.
Context `{E : Engine}.
Variable other : Method → Variant → Dict → M E unit.

(** X9.  A request whose method is none of the twenty the dispatcher
    knows is answered with the error -32601 "Method not found" under the
    id of the request, and nothing else is done. *)
Theorem unknown_method_not_found text d method params (s : State E) :
  JSON_parse_string text = VDictionary d →
  dict_get d "method" (VString "") = VString method →
  is_empty method = false →
  dict_get d "params" (VDictionary []) = VDictionary params →
  route method = None →
  _handle_packet other text s
  = (set_pending (delete (str (dict_get d "id" VNil)) (_pending_responses s))
       (emit (deliver (_ws_peer s)
                (reply (dict_get d "id" VNil) VNil
                   (error_dict (-32601) ("Method not found: " +:+ method)))) s),
     Done tt).
Proof.
  intros Hparse Hmethod Hne Hparams Hroute.
  unfold _handle_packet, as_String, as_Dictionary. rewrite Hparse. cbn [is_nil]. exec.
  rewrite Hmethod; cbn [string_of]. rewrite Hne, Hparams; cbn [dictionary_of].
  unfold _dispatch. rewrite Hroute. apply send_error_run.
Qed.

(** X10.  A bridge that is not active does nothing: whatever the engine
    presents to it, frame after frame, its effect log stays as it is and
    no coroutine appears. *)
Theorem inactive_bridge_does_nothing evs (s : State E) :
  _active s = false → coroutines s = [] →
  effects (run other s evs) = effects s
  ∧ coroutines (run other s evs) = []
  ∧ _ws_peer (run other s evs) = _ws_peer s.
Proof.
  revert s. induction evs as [|ev evs IH]; intros s Hactive Hco; [done|].
  cbn [run fold_left]. fold (run other (step other s ev) evs).
  assert (_active (step other s ev) = false ∧ coroutines (step other s ev) = []
          ∧ effects (step other s ev) = effects s
          ∧ _ws_peer (step other s ev) = _ws_peer s) as (Ha & Hc & He & Hp).
  { destruct ev as [inp|k| |node signal args|h dt]; cbn [step].
    - unfold _process. exec. by rewrite Hactive.
    - by rewrite Hco.
    - unfold frame_waiters. by rewrite Hco.
    - destruct (Host_is_valid (host s) node); [|done]. by rewrite Hco.
    - done. }
  destruct (IH _ Ha Hc) as (He' & Hc' & Hp'). by rewrite He', Hc', Hp', He, Hp.
Qed.

End DispatchProperties.

Section SceneTreeProperties.
Context `{E : Engine}.

Lemma levels_of_children (result : Dict) (children : list Variant) :
  dict_has result "children" = false →
  tree_levels (VDictionary (dict_set result "children" (VArray children)))
  = fold_right (λ child n, Nat.max (S (tree_levels child)) n) 0%nat children.
Proof.
  intros Hnone. induction result as [|[k item] result IH]; cbn [dict_set].
  - done.
  - cbn [dict_has] in Hnone. destruct (is_key "children" k) eqn:Hk; [done|].
    cbn [tree_levels]. rewrite Hk. by apply IH.
Qed.

Lemma build_tree_levels (h : Host) node :
  ∀ depth max_depth,
    tree_levels (_build_tree h node depth max_depth)
    = Nat.min (height node) (Z.to_nat (max_depth - depth)).
Proof.
  induction node as [i n c a p g children IH] using Node_induction.
  intros depth max_depth. cbn [_build_tree height].
  set (node := mkNode i n c a p g children).
  set (result := if is_class node "CanvasItem" then _ else _).
  assert (dict_has result "children" = false) as Hnone.
  { subst result. by destruct (is_class node "CanvasItem"), (is_class node "Node3D"). }
  destruct (Z.ltb_spec depth max_depth) as [Hlt|Hge]; rewrite levels_of_children by done.
  - clear Hnone result node.
    induction IH as [|child rest Hchild _ IHrest]; [done|].
    cbn [map fold_right]. rewrite Hchild, IHrest.
    replace (Z.to_nat (max_depth - (depth + 1))) with (Z.to_nat (max_depth - depth) - 1)%nat
      by lia.
    assert (1 ≤ Z.to_nat (max_depth - depth))%nat by lia. lia.
  - cbn. replace (Z.to_nat (max_depth - depth)) with 0%nat by lia. lia.
Qed.

(** X11.  A [get_scene_tree] request ends in one of three ways: a
    run-time error on a parameter of the wrong type (no response), the
    error "Node not found", or a response that describes the scene below
    the root node cut after [max_depth] levels of children: as many
    levels as the scene has, but no more than [max_depth]; with
    [max_depth] zero or negative, the root node alone. *)
Theorem get_scene_tree_levels id params (s : State E) :
  (∃ why, _handle_get_scene_tree id params s = (s, Abort why))
  ∨ (∃ root_path,
       _handle_get_scene_tree id params s
       = _send_error id (-32602) ("Node not found: " +:+ root_path)
           (emit [GetNode root_path] s))
  ∨ (∃ root_path root max_depth,
       int_of (dict_get params "max_depth" (VInt 4)) = Done max_depth
       ∧ Host_get_node (host s) root_path = Some root
       ∧ _handle_get_scene_tree id params s
         = _send_response id (_build_tree (host s) root 0 max_depth)
             (emit [GetNode root_path] s)
       ∧ tree_levels (_build_tree (host s) root 0 max_depth)
         = Nat.min (height root) (Z.to_nat max_depth)).
Proof.
  unfold _handle_get_scene_tree, as_String, to_int, get_node_or_null. exec.
  destruct (string_of (dict_get params "root_path" _)) as [root_path|why];
    [|left; by eexists].
  destruct (int_of (dict_get params "max_depth" _)) as [max_depth|why] eqn:Hdepth;
    [|left; by eexists].
  cbn [host set_effects]. right.
  destruct (Host_get_node (host s) root_path) as [root|] eqn:Hroot.
  - right. exists root_path, root, max_depth. split; [done|]. split; [done|].
    split; [done|]. rewrite build_tree_levels. f_equal. lia.
  - left. by exists root_path.
Qed.

End SceneTreeProperties.

Section ClientRoundTrip.
Import BridgeClient.
Context `{R : Runtime}.
Implicit Types (c : Client) (n : nat).



End ClientRoundTrip.

Section ClientSettlement.
Import BridgeClient.
Context `{R : Runtime}.
Implicit Types (c : Client) (n : nat).

Lemma linked_new : linked new_client.
Proof. intros id n. cbn. by rewrite lookup_empty. Qed.

Lemma linked_cleared c c' : pendingRequests c' = ∅ → linked c'.
Proof. intros Hp id n. by rewrite Hp, lookup_empty. Qed.

Lemma linked_step c ev : client_ok c → linked c → linked (client_step c ev).
Proof.
  intros (Hp & Ht & Hd) Hl.
  destruct ev as [|uuid method params ms|k|data| | |message|]; cbn [client_step].
  - done.
  - unfold send; cbn. destruct (ws_open c); cbn; [|done].
    intros id n. cbn. rewrite lookup_insert. case_decide as Hid.
    + intros [= <-]. rewrite lookup_insert_eq. by eexists.
    + intros Hn. destruct (Hl _ _ Hn) as (cl & Hcl & Hcid).
      exists cl. split; [|done]. rewrite lookup_insert_ne; [done|].
      apply Hp in Hn. lia.
  - unfold timer_fires. destruct (timers c !! k) as [cl|] eqn:Hk; [|done]. cbn.
    destruct (pendingRequests c !! timer_id cl) as [m|] eqn:Hid; cbn.
    + intros id n. cbn. intros [Hne Hn]%lookup_delete_Some.
      destruct (Hl _ _ Hn) as (cl' & Hcl' & Hcid). exists cl'. split; [|done].
      rewrite lookup_delete_ne; [done|]. intros <-. congruence.
    + intros id n. cbn. intros Hn. destruct (Hl _ _ Hn) as (cl' & Hcl' & Hcid).
      exists cl'. split; [|done]. rewrite lookup_delete_ne; [done|].
      intros <-. congruence.
  - assert (linked (handleMessage data c).1) as Hmain.
    { destruct (handleMessage_cases data c) as [->|[[line ->]|(id & m & o & Hm & ->)]];
        [done..|].
      intros id' n. cbn. intros [Hne Hn]%lookup_delete_Some.
      destruct (Hl _ _ Hn) as (cl' & Hcl' & Hcid). exists cl'. split; [|done].
      rewrite lookup_delete_ne; [done|]. intros <-. by apply Hne, (Hd id id' m). }
    by destruct (handleMessage data c) as [c' [e|]].
  - unfold disconnect. apply (linked_cleared c).
    by destruct (reject_all_run "Disconnected from game" c) as (_ & ? & _).
  - apply (linked_cleared c).
    by destruct (reject_all_run "WebSocket connection closed" c) as (_ & ? & _).
  - apply (linked_cleared c).
    by destruct (reject_all_logged ("WebSocket error: " +:+ message)
                   ("[BRIDGE] WebSocket error: " +:+ message) c) as (_ & ? & _).
  - done.
Qed.

Lemma reachable_ok evs :
  client_ok (client_run new_client evs) ∧ linked (client_run new_client evs)
  ∧ unsettled (client_run new_client evs).
Proof.
  assert (∀ c, client_ok c → linked c → unsettled c →
               client_ok (client_run c evs) ∧ linked (client_run c evs)
               ∧ unsettled (client_run c evs)) as Hrun.
  { induction evs as [|ev evs IH]; intros c Hok Hl Hu; [done|]. cbn.
    apply IH; [by apply client_ok_step|by apply linked_step|by apply unsettled_step]. }
  apply Hrun; [apply client_ok_new|apply linked_new|apply unsettled_new].
Qed.

(** *** Rejecting all pending requests *)

Lemma reject_all_fold_each error (l : list (string * nat)) :
  NoDup l.*2 →
  ∀ c n, n ∈ l.*2 →
    let c' := fold_left (λ c entry, settle entry.2 (Rejected error)
                                      (clearTimeout entry.2 c)) l c in
    settlements_of n c' = settlements_of n c ++ [Rejected error]
    ∧ timers c' !! n = None.
Proof.
  induction l as [|[id m] l IH]; intros Hnodup c n Hin; [by apply elem_of_nil in Hin|].
  rewrite fmap_cons in Hnodup, Hin. cbn [snd] in *.
  apply NoDup_cons in Hnodup as [Hm Hnodup]. cbn [fold_left snd].
  destruct (reject_all_fold error l (settle m (Rejected error) (clearTimeout m c)))
    as (_ & _ & _ & _ & Hnone & Hsame).
  cbn zeta in *.
  destruct (decide (n = m)) as [->|Hne].
  - rewrite (Hsame m Hm). split.
    + unfold settlements_of; cbn. rewrite List.filter_app, map_app; cbn.
      by rewrite Nat.eqb_refl.
    + apply Hnone. cbn. by rewrite lookup_delete_eq.
  - apply elem_of_cons in Hin as [?|Hin]; [done|].
    destruct (IH Hnodup (settle m (Rejected error) (clearTimeout m c)) n Hin) as [-> ->].
    split; [|done]. f_equal. by apply (settlements_of_other n m (Rejected error)).
Qed.

Lemma reject_all_each error c id n :
  client_ok c → pendingRequests c !! id = Some n →
  settlements_of n (rejectAllPending error c) = settlements_of n c ++ [Rejected error]
  ∧ timers (rejectAllPending error c) !! n = None.
Proof.
  intros (_ & _ & Hd) Hn. unfold rejectAllPending.
  assert (NoDup (map_to_list (pendingRequests c)).*2) as Hnodup.
  { apply NoDup_fmap_2_strong; [|apply NoDup_map_to_list].
    intros [id1 n1] [id2 n2] H1%elem_of_map_to_list H2%elem_of_map_to_list Heq.
    cbn in Heq. subst n2. by rewrite (Hd id1 id2 n1 H1 H2). }
  assert (n ∈ (map_to_list (pendingRequests c)).*2) as Hin.
  { apply list_elem_of_fmap. exists (id, n). split; [done|]. by apply elem_of_map_to_list. }
  destruct (reject_all_fold_each error _ Hnodup c n Hin) as [Hs Ht].
  cbn zeta in *. split; [exact Hs|exact Ht].
Qed.








(** X15.  [disconnect] rejects every pending request, each exactly once
    and with the error "Disconnected from game", clears their timers,
    leaves no pending entry and closes the socket. *)
Theorem disconnect_rejects_pending evs id n :
  pendingRequests (client_run new_client evs) !! id = Some n →
  settlements_of n (disconnect (client_run new_client evs))
  = [Rejected "Disconnected from game"]
  ∧ timers (disconnect (client_run new_client evs)) !! n = None
  ∧ pendingRequests (disconnect (client_run new_client evs)) = ∅
  ∧ ws_open (disconnect (client_run new_client evs)) = false.
Proof.
  intros Hn. destruct (reachable_ok evs) as (Hok & Hl & Hu).
  set (c := client_run new_client evs) in *. clearbody c.
  destruct (reject_all_each "Disconnected from game" c id n Hok Hn) as [Hs Ht].
  destruct (Hl _ _ Hn) as (cl & Hcl & _).
  assert (settlements_of n c = []) as Hnil by (apply Hu; right; by eexists).
  destruct (reject_all_run "Disconnected from game" c) as (_ & Hempty & _).
  unfold disconnect. split; [|by repeat split].
  change (settlements_of n (rejectAllPending "Disconnected from game" c)
          = [Rejected "Disconnected from game"]).
  by rewrite Hs, Hnil.
Qed.

End ClientSettlement.

Section ClientAccounting.
Import BridgeClient.
Context `{R : Runtime}.
Implicit Types (c : Client) (n : nat).











End ClientAccounting.

Section FrameProperties.
Context `{E : Engine}.
Variable other : Method → Variant → Dict → M E unit.

(** X17.  Packets are read from an open socket only.  In a frame in which
    the socket does not report [STATE_OPEN] no packet is handled, whatever
    has arrived: nothing is sent, no coroutine starts, the pending table
    stays as it is, and all that can happen is that the previous peer is
    closed for a new connection.  When the socket reports [STATE_CLOSED]
    the peer is dropped. *)
Theorem packets_need_open_socket inp (s : State E) :
  is_open (polled inp) = false →
  effects (fst (_process other inp s))
  = effects s ++ match connection inp, _ws_peer s with
                 | Some _, Some p => if _active s then [ClosePeer (peer_id p)] else []
                 | _, _ => []
                 end
  ∧ coroutines (fst (_process other inp s)) = coroutines s
  ∧ _pending_responses (fst (_process other inp s)) = _pending_responses s
  ∧ (_active s = true → polled inp = STATE_CLOSED →
     _ws_peer (fst (_process other inp s)) = None).
Proof.
  intros Hopen. unfold _process, accept_connection. exec.
  destruct (_active s) eqn:Hactive; cbn [negb].
  - destruct (connection inp) as [[|]|], (_ws_peer s) as [p|] eqn:Hpeer; exec;
      rewrite ?Hpeer; exec;
      destruct (polled inp); try discriminate; cbn; rewrite ?app_nil_r; by repeat split.
  - destruct (connection inp) as [ok|], (_ws_peer s) as [p|]; cbn [fst];
      rewrite app_nil_r; by repeat split.
Qed.

End FrameProperties.

Section EvaluateProperties.
Context `{E : Engine}.

(** X18.  With the flag set, [evaluate_expression] ends in one of six
    ways: a run-time error on a parameter of the wrong type; the error
    -32602 for a missing expression, for a base node that does not exist,
    or for an expression that does not parse (the last after the node was
    looked up, and in none of the three is anything executed); the error
    -32603 when the execution fails; or the value, serialized. *)
Theorem evaluate_expression_outcomes id params (s : State E) :
  _unsafe_mode s = true →
  (∃ why, _handle_evaluate_expression id params s = (s, Abort why))
  ∨ _handle_evaluate_expression id params s
    = _send_error id (-32602) "Missing required parameter: expression" s
  ∨ (∃ base_path,
       Host_get_node (host s) base_path = None
       ∧ _handle_evaluate_expression id params s
         = _send_error id (-32602) ("Base node not found: " +:+ base_path)
             (emit [GetNode base_path] s))
  ∨ (∃ base_path expr text,
       Expression_parse expr = Some text
       ∧ _handle_evaluate_expression id params s
         = _send_error id (-32602) ("Expression parse error: " +:+ text)
             (emit [GetNode base_path; ExprParse expr] s))
  ∨ (∃ base_path expr node text h',
       Host_get_node (host s) base_path = Some node
       ∧ Host_execute (host s) expr (node_id node) = (inr text, h')
       ∧ _handle_evaluate_expression id params s
         = _send_error id (-32603) ("Expression execution failed: " +:+ text)
             (set_host h' (emit [GetNode base_path; ExprParse expr;
                                 ExprExecute expr (node_id node)] s)))
  ∨ (∃ base_path expr node value h',
       Host_get_node (host s) base_path = Some node
       ∧ Host_execute (host s) expr (node_id node) = (inl value, h')
       ∧ _handle_evaluate_expression id params s
         = _send_response id (_variant_to_json value)
             (set_host h' (emit [GetNode base_path; ExprParse expr;
                                 ExprExecute expr (node_id node)] s))).
Proof.
  intros Hunsafe.
  unfold _handle_evaluate_expression, as_String, get_node_or_null, expr_parse,
    expr_execute. exec. rewrite Hunsafe. cbn [negb].
  destruct (string_of (dict_get params "expression" _)) as [expr|why];
    [|left; by eexists].
  destruct (is_empty expr); [right; by left|].
  destruct (string_of (dict_get params "base_node_path" _)) as [base_path|why];
    [|left; by eexists].
  cbn [host set_effects]. do 2 right.
  destruct (Host_get_node (host s) base_path) as [node|] eqn:Hnode;
    [|left; by exists base_path].
  right. exec. destruct (Expression_parse expr) as [text|] eqn:Hparse.
  { left. exists base_path, expr, text. split; [done|].
    unfold emit, set_effects; cbn. by rewrite <- app_assoc. }
  right. cbn [host set_effects].
  destruct (Host_execute (host s) expr (node_id node)) as [[value|text] h'] eqn:Hexec; exec.
  - right. exists base_path, expr, node, value, h'. split; [done|]. split; [done|].
    unfold emit, set_effects, set_host; cbn. by rewrite <- !app_assoc.
  - left. exists base_path, expr, node, text, h'. split; [done|]. split; [done|].
    unfold emit, set_effects, set_host; cbn. by rewrite <- !app_assoc.
Qed.

End EvaluateProperties.

Section WireProperties.
Context `{E : Engine}.
Variable other : Method → Variant → Dict → M E unit.

Lemma tidy_ret {A} (a : A) : tidy (mret a).
Proof. by intros s. Qed.

Lemma tidy_lift {A} (r : result A) : tidy (lift r).
Proof. by intros s. Qed.

Lemma tidy_reads {A} (f : State E → A) : tidy (reads f).
Proof. by intros s. Qed.

Lemma tidy_bind {A B} (m : M E A) (k : A → M E B) :
  tidy m → (∀ a, tidy (k a)) → tidy (m ≫= k).
Proof.
  intros Hm Hk s Hs. specialize (Hm s Hs). unfold mbind, M_bind.
  destruct (m s) as [s1 [a|why]]; cbn [fst] in *; [by apply Hk|done].
Qed.

Lemma tidy_effect e :
  match e with SendText _ r => is_json r | _ => true end = true → tidy (effect e).
Proof.
  intros He s (Heff & Hco). split; [|done]. cbn.
  intros p r [Hin|[->|[]]]%in_app_or; [by eapply Heff|done].
Qed.

Lemma tidy_modify (f : State E → State E) :
  (∀ s, effects (f s) = effects s ∧ coroutines (f s) = coroutines s) →
  tidy (modify f).
Proof.
  intros Hf s (Heff & Hco). destruct (Hf s) as (He' & Hc'). cbn.
  unfold speaks_json. by rewrite He', Hc'.
Qed.

Lemma tidy_guarded (m : M E unit) : tidy m → tidy (guarded m).
Proof. intros Hm s Hs. by apply Hm. Qed.

Lemma reply_json id result error :
  is_json id = true → is_json result = true → is_json error = true →
  is_json (reply id result error) = true.
Proof.
  intros Hid Hresult Herror. unfold reply.
  destruct (negb (is_nil error)); by repeat apply dict_set_json.
Qed.

Lemma tidy_send_raw id result error :
  is_json id = true → is_json result = true → is_json error = true →
  tidy (_send_raw_response id result error).
Proof.
  intros Hid Hresult Herror s (Heff & Hco). rewrite send_raw_run. split; [|done].
  cbn. intros p r [Hin|Hin]%in_app_or; [by eapply Heff|].
  apply in_deliver in Hin as [n [= _ ->]]. by apply reply_json.
Qed.

Lemma tidy_send_response id result :
  is_json id = true → is_json result = true → tidy (_send_response id result).
Proof.
  intros Hid Hresult. unfold _send_response, erase_pending.
  apply tidy_bind; [by apply tidy_send_raw|intros _]. by apply tidy_modify.
Qed.

Lemma tidy_send_error id code message :
  is_json id = true → tidy (_send_error id code message).
Proof.
  intros Hid. unfold _send_error, erase_pending.
  apply tidy_bind; [by apply tidy_send_raw|intros _]. by apply tidy_modify.
Qed.

Ltac json_value :=
  cbn [is_json forallb omap key_text fst snd distinct string_in existsb negb andb orb
       timeout_result satisfied_result received_result not_received_result vec_json
       error_dict node_entry];
  rewrite ?to_json_is_json;
  repeat match goal with H : _ = true |- _ => rewrite H end;
  reflexivity.

Ltac tidy_step :=
  lazymatch goal with
  | |- tidy (mret _) => apply tidy_ret
  | |- tidy (lift _) => apply tidy_lift
  | |- tidy (reads _) => apply tidy_reads
  | |- tidy (modify _) => apply tidy_modify; by intros ?
  | |- tidy (_send_error _ _ _) => apply tidy_send_error; assumption
  | |- tidy (_send_response _ _) => apply tidy_send_response; [assumption|json_value]
  | |- tidy (effect _) => apply tidy_effect; reflexivity
  | |- tidy (mbind _ _) => apply tidy_bind; [|intros ?]
  | |- tidy (if ?b then _ else _) => destruct b eqn:?
  | |- tidy (match ?x with _ => _ end) => destruct x eqn:?
  | |- tidy (let '(_, _) := ?x in _) => destruct x eqn:?
  end.
Ltac tidy :=
  unfold as_String, as_Dictionary, as_Array, to_int, to_float, get_node_or_null,
    is_instance_valid, has_signal, Object_get, callv, expr_parse, expr_execute,
    Time_get_ticks_msec, mark_pending, _inject_key, drag_step;
  cbv zeta; repeat tidy_step.

Lemma tidy_find_nodes id params :
  is_json id = true → tidy (_handle_find_nodes id params).
Proof.
  intros Hid. unfold _handle_find_nodes. tidy.
  apply tidy_send_response; [done|]. cbn [is_json].
  rewrite find_nodes_recursive_preorder. cbn [app]. apply forallb_forall.
  intros x Hx.
  match type of Hx with In _ (firstn ?k ?l) =>
    assert (In x l) as Hin by (rewrite <- (firstn_skipn k l); apply in_or_app; by left)
  end.
  by apply in_map_iff in Hin as (node & <- & _).
Qed.

Lemma tidy_call_method id params :
  is_json id = true → tidy (_handle_call_method id params).
Proof. intros Hid. unfold _handle_call_method. tidy. Qed.

Lemma tidy_evaluate_expression id params :
  is_json id = true → tidy (_handle_evaluate_expression id params).
Proof. intros Hid. unfold _handle_evaluate_expression. tidy. Qed.

Lemma tidy_read_properties node properties (result : Dict) :
  tidy (read_properties node properties result).
Proof.
  revert result. induction properties as [|p rest IH]; intros result; cbn [read_properties].
  - apply tidy_ret.
  - unfold as_String, Object_get. apply tidy_bind; [apply tidy_lift|intros prop_name].
    apply tidy_bind; [|intros v; apply IH]. tidy.
Qed.

Lemma tidy_read_then {B} node properties (k : Dict → M E B) :
  (∀ r, json_entries r → tidy (k r)) → tidy (read_properties node properties [] ≫= k).
Proof.
  intros Hk s Hs. unfold mbind, M_bind.
  pose proof (read_properties_json node properties [] s eq_refl) as Hjson.
  pose proof (tidy_read_properties node properties [] s Hs) as Hs1.
  destruct (read_properties node properties [] s) as [s1 [result|why]]; cbn [fst snd] in *;
    [|done].
  by apply Hk.
Qed.

Lemma tidy_get_singleton id params :
  is_json id = true → tidy (_handle_get_singleton id params).
Proof.
  intros Hid. unfold _handle_get_singleton, as_String, as_Array, get_node_or_null.
  repeat (first [apply tidy_read_then; intros r Hr; by apply tidy_send_response
                | tidy_step]).
Qed.

Lemma tidy_co_bind {A} (m : M E A) (k : A → M E (option Coroutine)) :
  tidy m → (∀ a, tidy_co (k a)) → tidy_co (m ≫= k).
Proof.
  intros Hm Hk s Hs. specialize (Hm s Hs). unfold mbind, M_bind.
  destruct (m s) as [s1 [a|why]]; cbn [fst snd] in *; [by apply Hk|done].
Qed.

Lemma tidy_co_ret (c : option Coroutine) :
  match c with Some co => co_json co | None => true end = true → tidy_co (mret c).
Proof. intros Hc s Hs. split; [done|]. by intros co [= ->]. Qed.

Ltac tidy_co_step :=
  lazymatch goal with
  | |- tidy_co (mret None) => by apply tidy_co_ret
  | |- tidy_co (mret (Some _)) =>
      apply tidy_co_ret; unfold co_json; cbn [co_id forallb];
      repeat match goal with H : _ = true |- _ => rewrite H end;
      reflexivity
  | |- tidy_co (mbind _ _) => apply tidy_co_bind; [solve [tidy]|intros ?]
  | |- tidy_co (if ?b then _ else _) => destruct b eqn:?
  | |- tidy_co (match ?x with _ => _ end) => destruct x eqn:?
  end.
Ltac tidy_co := cbv zeta; repeat tidy_co_step.

Lemma tidy_send_key id params : is_json id = true → tidy_co (_handle_send_key id params).
Proof. intros Hid. unfold _handle_send_key. tidy_co. Qed.

Lemma tidy_send_mouse_drag id params :
  is_json id = true → tidy_co (_handle_send_mouse_drag id params).
Proof. intros Hid. unfold _handle_send_mouse_drag, _do_mouse_drag. tidy_co. Qed.

Lemma tidy_poll_turn id e b t p st lv :
  is_json id = true → tidy_co (poll_turn id e b t p st lv).
Proof. intros Hid. unfold poll_turn. tidy_co. Qed.

Lemma tidy_wait_for_condition id params :
  is_json id = true → tidy_co (_handle_wait_for_condition id params).
Proof.
  intros Hid. unfold _handle_wait_for_condition, _poll_condition. tidy_co.
  by apply tidy_poll_turn.
Qed.

Lemma tidy_wait_frames_from id count i :
  is_json id = true → tidy_co (wait_frames_from id count i).
Proof. intros Hid. unfold wait_frames_from. tidy_co. Qed.

Lemma tidy_wait_frames id params :
  is_json id = true → tidy_co (_handle_wait_frames id params).
Proof.
  intros Hid. unfold _handle_wait_frames, _do_wait_frames. tidy_co.
  by apply tidy_wait_frames_from.
Qed.

Lemma tidy_signal_turn id node sg t st received signal_args connected :
  is_json id = true → forallb is_json signal_args = true →
  tidy_co (signal_turn id node sg t st received signal_args connected).
Proof. intros Hid Hargs. unfold signal_turn. tidy_co. Qed.

Lemma tidy_wait_for_signal id params :
  is_json id = true → tidy_co (_handle_wait_for_signal id params).
Proof.
  intros Hid. unfold _handle_wait_for_signal, _do_wait_for_signal. tidy_co.
  by apply tidy_signal_turn.
Qed.

Lemma tidy_resume c : co_json c = true → tidy_co (resume c).
Proof.
  destruct c; unfold co_json; cbn [co_id resume]; rewrite ?andb_true_r.
  - intros Hid. unfold resume_send_key. tidy_co.
  - intros Hid. unfold resume_mouse_drag. tidy_co.
  - apply tidy_poll_turn.
  - apply tidy_wait_frames_from.
  - intros [Hid Hargs]%andb_prop. by apply tidy_signal_turn.
Qed.

(** *** The agent as a whole *)

Lemma tidy_start (m : M E (option Coroutine)) : tidy_co m → tidy (start m).
Proof.
  intros Hm s Hs. destruct (Hm s Hs) as [(Heff & Hco) Hc].
  unfold start, mbind, M_bind, mret, M_ret, modify, spawn.
  destruct (m s) as [s1 [[c|]|why]]; cbn [fst snd] in *; try done.
  split; [done|]. cbn.
  intros kc [Hin|[<-|[]]]%in_app_or; [by apply Hco|]. by apply Hc.
Qed.

Lemma tidy_dispatch id method params :
  is_json id = true →
  match route method with Some m => embedded m | None => true end = true →
  tidy (_dispatch other id method params).
Proof.
  intros Hid. unfold _dispatch. destruct (route method) as [[]|]; try discriminate; intros _.
  - by apply tidy_start, tidy_send_key.
  - by apply tidy_start, tidy_send_mouse_drag.
  - by apply tidy_find_nodes.
  - by apply tidy_call_method.
  - by apply tidy_get_singleton.
  - by apply tidy_evaluate_expression.
  - by apply tidy_start, tidy_wait_for_condition.
  - by apply tidy_start, tidy_wait_frames.
  - by apply tidy_start, tidy_wait_for_signal.
  - by apply tidy_send_error.
Qed.

Lemma dict_get_json (d : Dict) k default :
  json_entries d → is_json default = true → is_json (dict_get d k default) = true.
Proof.
  intros Hd Hdefault. induction d as [|[k' v] d IH]; [done|].
  apply json_entries_cons in Hd as (_ & Hv & Hd). cbn [dict_get].
  destruct (is_key k k'); [done|by apply IH].
Qed.

Section Parsed.
Hypothesis parse_json : ∀ text, is_json (JSON_parse_string text) = true.

Lemma tidy_handle_packet text :
  in_scope text = true → tidy (_handle_packet other text).
Proof.
  pose proof (parse_json text) as Hjson. revert Hjson.
  unfold in_scope, _handle_packet, as_String, as_Dictionary.
  destruct (JSON_parse_string text) as [| | | | | | | | | | | | | |d|]; cbn [is_nil];
    try (intros _ _; by apply tidy_send_raw).
  intros Hd Hscope s Hs. exec.
  assert (is_json (dict_get d "id" VNil) = true) as Hid by by apply dict_get_json.
  destruct (string_of (dict_get d "method" _)) as [method|]; cbn [fst]; [|done].
  destruct (is_empty method); [by apply tidy_send_raw|].
  destruct (dictionary_of _) as [params|]; cbn [fst]; [|done].
  by apply tidy_dispatch.
Qed.

Lemma tidy_handle_packets texts :
  forallb in_scope texts = true → tidy (handle_packets other texts).
Proof.
  induction texts as [|text rest IH]; cbn [handle_packets forallb]; [intros _; apply tidy_ret|].
  intros [Htext Hrest]%andb_prop. apply tidy_bind; [|intros _; by apply IH].
  by apply tidy_guarded, tidy_handle_packet.
Qed.

Lemma tidy_process inp :
  forallb in_scope (packets inp) = true → tidy (_process other inp).
Proof.
  intros Hscope. unfold _process, accept_connection.
  repeat (first [apply tidy_handle_packets; assumption | tidy_step]).
Qed.

Lemma speaks_json_resume_handle k s :
  speaks_json s → speaks_json (resume_handle k s).
Proof.
  intros (Heff & Hco). unfold resume_handle.
  destruct (take_coroutine k (coroutines s)) as [[c rest]|] eqn:Htake; [|done].
  apply take_coroutine_perm in Htake.
  assert (co_json c = true) as Hc.
  { apply (Hco (k, c)). apply list_elem_of_In. rewrite Htake. left. }
  assert (speaks_json (set_coroutines rest s)) as Hs.
  { split; [done|]. cbn. intros kc Hin. apply Hco.
    apply list_elem_of_In. rewrite Htake. right. by apply list_elem_of_In. }
  destruct (tidy_resume c Hc _ Hs) as [(Heff' & Hco') Hc'].
  destruct (resume c (set_coroutines rest s)) as [s' [[c'|]|why]]; cbn [fst snd] in *;
    try done.
  split; [done|]. cbn.
  intros kc [Hin|[<-|[]]]%in_app_or; [by apply Hco'|]. by apply Hc'.
Qed.

Lemma speaks_json_step s ev :
  event_in_scope ev = true → speaks_json s → speaks_json (step other s ev).
Proof.
  intros Hev Hs. destruct ev as [inp|k| |node signal args|h dt]; cbn [step].
  - by apply tidy_process.
  - destruct (take_coroutine k (coroutines s)) as [[c rest]|]; [|done].
    destruct (awaits_process_frame c); [done|]. by apply speaks_json_resume_handle.
  - generalize (frame_waiters s). intros l. revert s Hs.
    induction l as [|k l IH]; intros s Hs; [done|]. cbn [fold_left].
    by apply IH, speaks_json_resume_handle.
  - destruct (Host_is_valid (host s) node); [|done].
    destruct Hs as (Heff & Hco). split; [done|]. cbn.
    intros kc [[k c] [<- Hin]]%in_map_iff. cbn [snd fst].
    specialize (Hco _ Hin). cbn [snd] in Hco.
    destruct c; try done. cbn [deliver_signal].
    destruct connected; [|done]. destruct (_ && _); [|done].
    destruct (bind4 args) as [l|]; [|done].
    unfold co_json in *. cbn [co_id] in *. apply andb_prop in Hco as [Hid Hargs].
    rewrite Hid, forallb_app, Hargs. cbn [andb]. apply forallb_forall.
    unfold captured. intros x (y & <- & _)%in_map_iff. apply to_json_is_json.
  - by destruct Hs.
Qed.

(** X19.  When the JSON parser returns JSON values, so does the agent:
    every response it sends, in any run, is a dictionary that JSON can
    carry, whatever the scene, the expressions and the signals put into
    the results, as long as the messages go to the embedded handlers. *)
Theorem responses_are_json evs unsafe (h : Host) p r :
  forallb event_in_scope evs = true →
  In (SendText p r) (effects (run other (ready unsafe h) evs)) →
  is_json r = true.
Proof.
  intros Hscope.
  enough (speaks_json (run other (ready unsafe h) evs)) as [Heff _] by apply Heff.
  assert (speaks_json (ready unsafe h)) as Hs by (by split).
  revert Hs Hscope. generalize (ready unsafe h).
  induction evs as [|ev evs IH]; intros s Hs Hscope; [done|].
  cbn in Hscope. apply andb_prop in Hscope as [Hev Hevs].
  cbn [run fold_left]. apply IH; [|done]. by apply speaks_json_step.
Qed.

End Parsed.

End WireProperties.

Section SignalDeadline.
Context `{E : Engine}.

Lemma signal_turn_suspended id node sg t st received sargs connected (s s' : State E) c :
  signal_turn id node sg t st received sargs connected s = (s', Done (Some c)) →
  (ticks_msec s - st < t)%Z
  ∧ ticks_msec s' = ticks_msec s
  ∧ c = CoWaitForSignal id node sg t st received sargs connected.
Proof.
  intros Hturn.
  pose proof (signal_turn_outcome id node sg t st received sargs connected s) as Hout.
  rewrite Hturn in Hout. inversion Hout; subst; try done.
Qed.

(** X20.  A signal wait does not outlast its timeout: whatever the scene
    does meanwhile, the wait is over with the first wake-up at or after
    the deadline, if not before. *)
Theorem signal_wait_over_by_deadline id node sg t st wakes :
  ∀ received sargs connected (s : State E),
    wakes ≠ [] →
    (t ≤ ticks_msec s + total_ms wakes - st)%Z →
    snd (drive (Some (CoWaitForSignal id node sg t st received sargs connected)) wakes s)
    = None.
Proof.
  induction wakes as [|[h dt] rest IH]; intros received sargs connected s Hne Hlate;
    [done|].
  cbn [drive resume].
  destruct (signal_turn id node sg t st received sargs connected (advance h dt s))
    as [s' [[c|]|why]] eqn:Hturn; [|by destruct rest|done].
  apply signal_turn_suspended in Hturn as (Hearly & Hticks & ->).
  cbn [advance ticks_msec set_ticks] in Hearly, Hticks.
  cbn [total_ms fold_right snd] in Hlate.
  destruct rest as [|w rest].
  - cbn in Hlate. lia.
  - apply IH; [done|]. fold (total_ms (w :: rest)) in Hlate. rewrite Hticks. lia.
Qed.

End SignalDeadline.

Section BookkeepingProperties.
Context `{E : Engine}.
Variable other : Method → Variant → Dict → M E unit.

Lemma dom_delete_sub (key : string) (m : gmap string Variant) :
  dom (delete key m) ⊆ dom m.
Proof. rewrite dom_delete_L. by apply subseteq_difference_l. Qed.

Lemma shrinks_ret {A} (a : A) : shrinks (mret a).
Proof. by intros s. Qed.

Lemma shrinks_lift {A} (r : result A) : shrinks (lift r).
Proof. by intros s. Qed.

Lemma shrinks_reads {A} (f : State E → A) : shrinks (reads f).
Proof. by intros s. Qed.

Lemma shrinks_bind {A B} (m : M E A) (k : A → M E B) :
  shrinks m → (∀ a, shrinks (k a)) → shrinks (m ≫= k).
Proof.
  intros Hm Hk s. destruct (Hm s) as [Hc1 Hp1]. unfold mbind, M_bind.
  destruct (m s) as [s1 [a|why]]; cbn [fst] in *; [|done].
  destruct (Hk a s1) as [Hc2 Hp2]. split; [congruence|by etrans].
Qed.

Lemma shrinks_effect e : shrinks (effect e).
Proof. by intros s. Qed.

Lemma shrinks_modify (f : State E → State E) :
  (∀ s, coroutines (f s) = coroutines s
        ∧ dom (_pending_responses (f s)) ⊆ dom (_pending_responses s)) →
  shrinks (modify f).
Proof. intros Hf s. apply Hf. Qed.

Lemma shrinks_erase id : shrinks (erase_pending id).
Proof.
  apply shrinks_modify. intros s. split; [done|]. apply dom_delete_sub.
Qed.

Lemma shrinks_guarded (m : M E unit) : shrinks m → shrinks (guarded m).
Proof. intros Hm s. apply Hm. Qed.

Ltac shrinks_step :=
  lazymatch goal with
  | |- shrinks (mret _) => apply shrinks_ret
  | |- shrinks (lift _) => apply shrinks_lift
  | |- shrinks (reads _) => apply shrinks_reads
  | |- shrinks (effect _) => apply shrinks_effect
  | |- shrinks (erase_pending _) => apply shrinks_erase
  | |- shrinks (modify _) => apply shrinks_modify; by intros ?
  | |- shrinks (mbind _ _) => apply shrinks_bind; [|intros ?]
  | |- shrinks (if ?b then _ else _) => destruct b
  | |- shrinks (match ?x with _ => _ end) => destruct x
  | |- shrinks (let '(_, _) := ?x in _) => destruct x
  end.
Ltac shrinks :=
  unfold as_String, as_Dictionary, as_Array, to_int, to_float, get_node_or_null,
    is_instance_valid, has_signal, Object_get, callv, expr_parse, expr_execute,
    Time_get_ticks_msec, _send_error, _send_response, _send_raw_response,
    _inject_key, drag_step;
  cbv zeta; repeat shrinks_step.

Lemma shrinks_send_error id code message : shrinks (_send_error id code message).
Proof. shrinks. Qed.

Lemma shrinks_read_properties node properties (result : Dict) :
  shrinks (read_properties node properties result).
Proof.
  revert result. induction properties as [|p rest IH]; intros result; cbn [read_properties].
  - shrinks.
  - apply shrinks_bind; [shrinks|intros prop_name]. apply shrinks_bind; [shrinks|intros v].
    apply IH.
Qed.

Lemma shrinks_find_nodes id params : shrinks (_handle_find_nodes id params).
Proof. unfold _handle_find_nodes. shrinks. Qed.

Lemma shrinks_call_method id params : shrinks (_handle_call_method id params).
Proof. unfold _handle_call_method. shrinks. Qed.

Lemma shrinks_get_singleton id params : shrinks (_handle_get_singleton id params).
Proof.
  unfold _handle_get_singleton.
  repeat (first [apply shrinks_read_properties | progress shrinks]).
Qed.

Lemma shrinks_evaluate_expression id params :
  shrinks (_handle_evaluate_expression id params).
Proof. unfold _handle_evaluate_expression. shrinks. Qed.

(** *** Handlers that may suspend *)

Lemma books_bind {A} id (m : M E A) (k : A → M E (option Coroutine)) :
  shrinks m → (∀ a, books id (k a)) → books id (m ≫= k).
Proof.
  intros Hm Hk s. destruct (Hm s) as [Hc1 Hp1]. unfold mbind, M_bind.
  destruct (m s) as [s1 [a|why]]; cbn [fst snd] in *; [|done].
  destruct (Hk a s1) as [Hc2 Hp2]. split; [congruence|].
  destruct (snd (k a s1)) as [[c|]|]; [|by etrans..].
  destruct Hp2 as [Hid Hp2]. split; [done|].
  etrans; [exact Hp2|by apply union_mono_r].
Qed.

Lemma books_none id : books id (mret None).
Proof. intros s. by cbn. Qed.

Lemma books_error id code message :
  books id (_send_error id code message;; mret None).
Proof.
  intros s. destruct (shrinks_send_error id code message s) as [Hc Hp].
  unfold mbind, M_bind, mret, M_ret.
  by destruct (_send_error id code message s) as [s1 [[]|why]].
Qed.

Lemma books_mark id (rest : M E (option Coroutine)) :
  settles id rest → books id (mark_pending id;; rest).
Proof.
  intros Hrest s. unfold mark_pending. exec.
  match goal with |- context [rest ?s1] => destruct (Hrest s1) as [Hc Hp] end.
  cbn [coroutines set_pending _pending_responses] in *. split; [done|].
  destruct (snd (rest _)) as [[c|]|]; [| |done].
  - destruct Hp as [Hid ->]. split; [done|].
    by rewrite dom_insert_L, (comm_L (∪)).
  - rewrite Hp, delete_insert_eq. apply dom_delete_sub.
Qed.

Lemma settles_resume c : settles (co_id c) (resume c).
Proof.
  intros s. pose proof (pending_resume c s) as Hp.
  destruct (answers_resume c s) as ((_ & _ & _ & _ & _ & Hco & _) & new & _ & _ & Hr).
  split; [done|]. destruct (snd (resume c s)) as [[c'|]|]; [|done..].
  by destruct Hr as [Hid _].
Qed.

Ltac books_step :=
  lazymatch goal with
  | |- books _ (mret None) => apply books_none
  | |- books _ (mbind _ (mark_pending _)) => apply books_mark
  | |- books _ (mbind _ _) => apply books_bind; [solve [shrinks]|intros ?]
  | |- books _ (if ?b then _ else _) => destruct b
  | |- books _ (match ?x with _ => _ end) => destruct x
  end.
Ltac books := cbv zeta; repeat books_step.

Lemma books_sent id result :
  books id (_send_response id result;; mret None).
Proof.
  intros s. unfold mbind, M_bind, mret, M_ret. rewrite send_response_run. cbn.
  split; [done|]. apply dom_delete_sub.
Qed.

Lemma books_send_key id params : books id (_handle_send_key id params).
Proof.
  unfold _handle_send_key. books.
  intros s. unfold _inject_key. exec. by repeat split.
Qed.

Lemma books_send_mouse_drag id params : books id (_handle_send_mouse_drag id params).
Proof.
  unfold _handle_send_mouse_drag. books.
  intros s. unfold _do_mouse_drag, drag_step. exec. by repeat split.
Qed.

Lemma books_wait_for_condition id params : books id (_handle_wait_for_condition id params).
Proof.
  unfold _handle_wait_for_condition. books.
  intros s. unfold _poll_condition, Time_get_ticks_msec. exec.
  match goal with
  | |- context [poll_turn id ?e ?b ?t ?p ?st VNil s] =>
      exact (settles_resume (CoPollCondition id e b t p st VNil) s)
  end.
Qed.

Lemma books_wait_frames id params : books id (_handle_wait_frames id params).
Proof.
  unfold _handle_wait_frames. books.
  intros s. unfold _do_wait_frames.
  match goal with
  | |- context [wait_frames_from id ?count 0 s] =>
      exact (settles_resume (CoWaitFrames id count (-1)) s)
  end.
Qed.

Lemma books_wait_for_signal id params : books id (_handle_wait_for_signal id params).
Proof.
  unfold _handle_wait_for_signal. books.
  intros s. unfold _do_wait_for_signal, Time_get_ticks_msec. exec.
  match goal with
  | |- context [signal_turn id ?n ?sg ?t ?st false [] true ?s1] =>
      exact (settles_resume (CoWaitForSignal id n sg t st false [] true) s1)
  end.
Qed.

(** *** The agent as a whole *)

Lemma in_flight_shrinks {A} (m : M E A) s :
  shrinks m → in_flight s → in_flight (fst (m s)).
Proof.
  intros Hm Hs key Hkey. destruct (Hm s) as [Hc Hp]. rewrite Hc. apply Hs. by apply Hp.
Qed.

Lemma in_flight_start id (handler : M E (option Coroutine)) s :
  books id handler → in_flight s → in_flight (fst (start handler s)).
Proof.
  intros Hm Hs key. destruct (Hm s) as [Hc Hp]. unfold start, mbind, M_bind.
  destruct (handler s) as [s1 [[c|]|why]]; cbn [fst snd] in *.
  - destruct Hp as [Hid Hp]. cbn. intros [Hkey| ->%elem_of_singleton]%Hp%elem_of_union.
    + destruct (Hs key Hkey) as (kc & Hin & Hkc). exists kc. split; [|done].
      apply in_or_app. left. by rewrite Hc.
    + exists (next_handle s1, c). split; [|by rewrite <- Hid]. apply in_or_app. right. by left.
  - intros Hkey%Hp. cbn. rewrite Hc. by apply Hs.
  - intros Hkey%Hp. cbn. rewrite Hc. by apply Hs.
Qed.

Lemma in_flight_dispatch id method params s :
  match route method with Some m => embedded m | None => true end = true →
  in_flight s → in_flight (fst (_dispatch other id method params s)).
Proof.
  intros Hscope Hs. unfold _dispatch.
  destruct (route method) as [[]|]; try discriminate Hscope.
  all: first
    [ apply in_flight_start with id; [|done];
      first [ apply books_send_key | apply books_send_mouse_drag
            | apply books_wait_for_condition | apply books_wait_frames
            | apply books_wait_for_signal ]
    | apply in_flight_shrinks; [|done];
      first [ apply shrinks_find_nodes | apply shrinks_call_method
            | apply shrinks_get_singleton | apply shrinks_evaluate_expression
            | apply shrinks_send_error ] ].
Qed.

Lemma in_flight_handle_packet text s :
  in_scope text = true → in_flight s → in_flight (fst (_handle_packet other text s)).
Proof.
  unfold in_scope, _handle_packet. cbv zeta. intros Hscope Hs. revert Hscope.
  destruct (JSON_parse_string text) as [| | | | | | | | | | | | | |d|]; cbn [is_nil];
    try (intros _; apply in_flight_shrinks; [solve [shrinks]|done]).
  intros Hscope. unfold as_String, as_Dictionary, lift, mbind, M_bind.
  destruct (string_of (dict_get d "method" _)) as [method|]; cbn [fst]; [|done].
  destruct (is_empty method); [apply in_flight_shrinks; [shrinks|done]|].
  destruct (dictionary_of _) as [params|]; cbn [fst]; [|done].
  by apply in_flight_dispatch.
Qed.

Lemma in_flight_handle_packets texts s :
  forallb in_scope texts = true → in_flight s →
  in_flight (fst (handle_packets other texts s)).
Proof.
  revert s. induction texts as [|text rest IH]; intros s; cbn [handle_packets forallb];
    [done|].
  intros [Htext Hrest]%andb_prop Hs. unfold mbind, M_bind, guarded. cbn [fst snd].
  apply IH; [done|]. by apply in_flight_handle_packet.
Qed.

Lemma in_flight_process inp s :
  forallb in_scope (packets inp) = true → in_flight s →
  in_flight (fst (_process other inp s)).
Proof.
  intros Hscope Hs. unfold _process. exec. destruct (negb (_active s)); [done|].
  assert (∃ s1, in_flight s1
                ∧ match connection inp with
                  | Some ok => accept_connection ok
                  | None => mret tt
                  end s = (s1, Done tt)) as (s1 & Hs1 & Heq).
  { destruct (connection inp) as [ok|]; [|by exists s].
    assert (shrinks (accept_connection ok)) as Haccept
      by (unfold accept_connection; shrinks).
    pose proof (in_flight_shrinks _ s Haccept Hs) as Hs1. revert Hs1.
    unfold accept_connection. exec. destruct (_ws_peer s); exec; destruct ok; eauto. }
  unfold mret, M_ret in Heq. rewrite Heq.
  destruct (_ws_peer s1) as [p|]; [|done].
  destruct (polled inp); try done. by apply in_flight_handle_packets.
Qed.

Lemma in_flight_resume_handle k s : in_flight s → in_flight (resume_handle k s).
Proof.
  intros Hs. unfold resume_handle.
  destruct (take_coroutine k (coroutines s)) as [[c rest]|] eqn:Htake; [|done].
  apply take_coroutine_perm in Htake.
  destruct (settles_resume c (set_coroutines rest s)) as [Hc Hp].
  destruct (resume c (set_coroutines rest s)) as [s' [[c'|]|why]]; cbn [fst snd] in *;
    [| |done].
  - destruct Hp as [Hid Hp]. intros key. cbn. rewrite Hp, Hc.
    intros (kc & Hin & Hkc)%Hs.
    apply list_elem_of_In in Hin. rewrite Htake in Hin.
    apply list_elem_of_In in Hin as [<-|Hin].
    + exists (k, c'). split; [|cbn [snd] in *; by rewrite Hid]. apply in_or_app. right. by left.
    + exists kc. split; [|done]. apply in_or_app. by left.
  - intros key. rewrite Hp, Hc, dom_delete_L.
    intros [(kc & Hin & Hkc)%Hs Hne%not_elem_of_singleton]%elem_of_difference.
    apply list_elem_of_In in Hin. rewrite Htake in Hin.
    apply list_elem_of_In in Hin as [<-|Hin]; [done|]. by exists kc.
Qed.

Lemma in_flight_step s ev :
  event_in_scope ev = true → in_flight s → in_flight (step other s ev).
Proof.
  intros Hev Hs. destruct ev as [inp|k| |node signal args|h dt]; cbn [step].
  - by apply in_flight_process.
  - destruct (take_coroutine k (coroutines s)) as [[c rest]|]; [|done].
    destruct (awaits_process_frame c); [done|]. by apply in_flight_resume_handle.
  - generalize (frame_waiters s). intros l. revert s Hs.
    induction l as [|k l IH]; intros s Hs; [done|]. cbn [fold_left].
    by apply IH, in_flight_resume_handle.
  - destruct (Host_is_valid (host s) node); [|done].
    intros key (kc & Hin & Hkc)%Hs. cbn.
    exists (fst kc, deliver_signal node signal args (snd kc)). split.
    + apply in_map_iff. by exists kc.
    + cbn [snd]. by rewrite co_id_deliver_signal.
  - done.
Qed.

(** X21.  The pending table keeps no stale id: in any run of the agent
    over messages for the embedded handlers, every key of
    [_pending_responses] is the text of the id of a coroutine that is
    still suspended.  A handler that answers at once, or a coroutine that
    ends, leaves no entry behind. *)
Theorem pending_ids_are_in_flight evs unsafe (h : Host) key :
  forallb event_in_scope evs = true →
  key ∈ dom (_pending_responses (run other (ready unsafe h) evs)) →
  ∃ k c, In (k, c) (coroutines (run other (ready unsafe h) evs))
         ∧ str (co_id c) = key.
Proof.
  intros Hscope Hkey.
  enough (in_flight (run other (ready unsafe h) evs)) as Hs.
  { destruct (Hs key Hkey) as ([k c] & Hin & Hkc). by exists k, c. }
  clear Hkey. assert (in_flight (ready unsafe h)) as Hs.
  { intros key'. cbn. by rewrite dom_empty_L. }
  revert Hs Hscope. generalize (ready unsafe h).
  induction evs as [|ev evs IH]; intros s Hs Hscope; [done|].
  cbn in Hscope. apply andb_prop in Hscope as [Hev Hevs].
  cbn [run fold_left]. apply IH; [|done]. by apply in_flight_step.
Qed.

End BookkeepingProperties.

(** ** The further properties at an input *)

Section MoreExamples.
Existing Instance toy.
Existing Instance toy_runtime.

(** A dictionary holding an array goes through unchanged. *)
Lemma variant_to_json_keeps_json_example :
  (∀ s, str (VString s) = s)
  ∧ is_json (VDictionary [(VString "a", VArray [VInt 1; VNil]); (VString "b", VBool true)])
    = true
  ∧ _variant_to_json
      (VDictionary [(VString "a", VArray [VInt 1; VNil]); (VString "b", VBool true)])
    = VDictionary [(VString "a", VArray [VInt 1; VNil]); (VString "b", VBool true)].
Proof.
  assert (∀ s, str (VString s) = s) as Hstr by (intros s; reflexivity).
  split; [exact Hstr|]. split; [reflexivity|].
  exact (variant_to_json_keeps_json
           (VDictionary [(VString "a", VArray [VInt 1; VNil]); (VString "b", VBool true)])
           Hstr eq_refl).
Defined.

(** Without the flag, a condition poll, a call of "free" and a signal wait
    arrive in one frame; the signal fires and a timer runs out. *)
Lemma nothing_privileged_without_unsafe_example :
  forallb event_in_scope
    [EvProcess (open_with ["poll"; "free"; "signal"]); EvSignal 1 "sig" [VInt 1];
     EvTimeout 0] = true
  ∧ existsb privileged
      (effects (run toy_other (ready false (toy_host (inl VNil)))
                  [EvProcess (open_with ["poll"; "free"; "signal"]);
                   EvSignal 1 "sig" [VInt 1]; EvTimeout 0])) = false.
Proof.
  assert (forallb event_in_scope
            [EvProcess (open_with ["poll"; "free"; "signal"]); EvSignal 1 "sig" [VInt 1];
             EvTimeout 0] = true) as Hscope by reflexivity.
  split; [exact Hscope|].
  exact (nothing_privileged_without_unsafe toy_other _ (toy_host (inl VNil)) Hscope).
Defined.

(** Two frames asked for, three frames pass: the response goes out with
    the second. *)
Lemma wait_frames_waits_example :
  let s := run toy_other (ready false (toy_host (inl VNil))) [EvProcess (open_with [])] in
  int_of (dict_get [(VString "count", VInt 2)] "count" (VInt 1)) = Done 2%Z
  ∧ effects (fst (life (_handle_wait_frames (VInt 1) [(VString "count", VInt 2)])
                    (replicate 3 (toy_host (inl VNil), 0%N)) s))
    = [AwaitProcessFrame; AwaitProcessFrame;
       SendText 0 (reply (VInt 1) (VDictionary [(VString "frames_waited", VInt 2)]) VNil)].
Proof.
  intros s. split; [reflexivity|].
  exact (proj2 (wait_frames_waits (VInt 1) [(VString "count", VInt 2)] 2 s eq_refl)
           ltac:(lia) (replicate 3 (toy_host (inl VNil), 0%N))).
Defined.

(** A tap of "Ctrl+A" held for 100 ms. *)
Lemma send_key_tap_releases_example :
  let params := [(VString "key", VString "Ctrl+A")] in
  let s := run toy_other (ready false (toy_host (inl VNil))) [EvProcess (open_with [])] in
  (dict_get params "key" (VString "") = VString "Ctrl+A"
   ∧ is_empty "Ctrl+A" = false
   ∧ dict_get params "action" (VString "tap") = VString "tap"
   ∧ int_of (dict_get params "hold_ms" (VInt 100)) = Done 100%Z
   ∧ resolve_keycode (key_name_of "Ctrl+A") = Some (KEY_UNICODE 65))
  ∧ effects (fst (life (_handle_send_key (VInt 1) params)
                    [(toy_host (inl VNil), 100%N)] s))
    = [ParseInputEvent (InputEventKey (KEY_UNICODE 65) true true false false false);
       CreateTimer 100;
       ParseInputEvent (InputEventKey (KEY_UNICODE 65) false true false false false);
       SendText 0 (reply (VInt 1)
                     (VDictionary [(VString "action", VString "tap");
                                   (VString "key", VString "Ctrl+A")]) VNil)].
Proof.
  intros params s. split; [by repeat split|].
  exact (proj2 (send_key_tap_releases (VInt 1) params "Ctrl+A" 100 (KEY_UNICODE 65) s
                  (toy_host (inl VNil), 100%N) []
                  eq_refl eq_refl eq_refl eq_refl eq_refl)).
Defined.

(** The key string "Ctrl+" names no key. *)
Lemma send_key_trailing_plus_example :
  let params := [(VString "key", VString "Ctrl+")] in
  let s := run toy_other (ready false (toy_host (inl VNil))) [EvProcess (open_with [])] in
  (dict_get params "key" (VString "") = VString ("Ctrl" +:+ "+")
   ∧ dict_get params "action" (VString "tap") = VString "tap"
   ∧ int_of (dict_get params "hold_ms" (VInt 100)) = Done 100%Z)
  ∧ sends (effects (fst (_handle_send_key (VInt 1) params s)))
    = [(0%nat,
        reply (VInt 1) VNil
          (error_dict (-32602)
             ("Unknown key: . Valid keys: A-Z, 0-9, " +:+ join ", " (key_names _key_map))))].
Proof.
  intros params s. split; [by repeat split|].
  rewrite (send_key_trailing_plus (VInt 1) params "Ctrl" "tap" 100 s
             eq_refl eq_refl eq_refl).
  reflexivity.
Defined.


(** The method "teleport" is unknown. *)
Lemma unknown_method_not_found_example :
  let E' := toy_engine [("teleport", request (VInt 9) "teleport" [])] in
  let s := run (E:=E') toy_other (ready false (toy_host (inl VNil)))
             [EvProcess (open_with [])] in
  (JSON_parse_string (Engine:=E') "teleport" = request (VInt 9) "teleport" []
   ∧ route "teleport" = None)
  ∧ sends (effects (fst (_handle_packet (E:=E') toy_other "teleport" s)))
    = [(0%nat, reply (VInt 9) VNil
                 (error_dict (-32601) "Method not found: teleport"))].
Proof.
  intros E' s. split; [by split|].
  rewrite (unknown_method_not_found (E:=E') toy_other "teleport" _ "teleport" [] s
             eq_refl eq_refl eq_refl eq_refl eq_refl).
  reflexivity.
Defined.

(** A bridge started without its flag, with a controller knocking. *)
Lemma inactive_bridge_does_nothing_example :
  let s := mkState false false None ∅ (toy_host (inl VNil)) 0 [] 0 0 [] in
  (_active s = false ∧ coroutines s = [])
  ∧ effects (run toy_other s [EvProcess (open_with ["poll"]); EvProcessFrame]) = [].
Proof.
  intros s. split; [by split|].
  exact (proj1 (inactive_bridge_does_nothing toy_other
                  [EvProcess (open_with ["poll"]); EvProcessFrame] s eq_refl eq_refl)).
Defined.


(** The request "u1" is pending when [disconnect] is called. *)
Lemma disconnect_rejects_pending_example :
  let evs := [BridgeClient.CConnected; BridgeClient.CSend "u1" "ping" None 5000] in
  BridgeClient.pendingRequests (BridgeClient.client_run BridgeClient.new_client evs)
    !! "u1" = Some 0%nat
  ∧ BridgeClient.settlements_of 0
      (BridgeClient.disconnect (BridgeClient.client_run BridgeClient.new_client evs))
    = [BridgeClient.Rejected "Disconnected from game"].
Proof.
  intros evs.
  assert (BridgeClient.pendingRequests (BridgeClient.client_run BridgeClient.new_client evs)
            !! "u1" = Some 0%nat) as Hentry by (vm_compute; reflexivity).
  split; [exact Hentry|].
  exact (proj1 (disconnect_rejects_pending evs "u1" 0 Hentry)).
Defined.


(** The socket reports closed in the frame a request arrives: the request
    is not read and the peer is dropped. *)
Lemma packets_need_open_socket_example :
  let s := run toy_other (ready true (toy_host (inl VNil))) [EvProcess (open_with [])] in
  let inp := {| connection := None; polled := STATE_CLOSED; packets := ["poll"] |} in
  is_open (polled inp) = false
  ∧ effects (fst (_process toy_other inp s)) = []
  ∧ _ws_peer (fst (_process toy_other inp s)) = None.
Proof.
  intros s inp.
  pose proof (packets_need_open_socket toy_other inp s eq_refl) as (He & _ & _ & Hp).
  split; [reflexivity|]. split; [exact He|exact (Hp eq_refl eq_refl)].
Defined.

(** The expression "x" evaluates to 7. *)
Lemma evaluate_expression_outcomes_example :
  let s := ready true (toy_host (inl (VInt 7))) in
  let params := [(VString "expression", VString "x")] in
  _unsafe_mode s = true
  ∧ _handle_evaluate_expression (VInt 1) params s
    = _send_response (VInt 1) (VInt 7)
        (emit [GetNode "/root"; ExprParse "x"; ExprExecute "x" 1] s).
Proof.
  intros s params. split; [reflexivity|].
  destruct (evaluate_expression_outcomes (VInt 1) params s eq_refl) as [_|_];
    reflexivity.
Defined.

(** The answer to the message [{id: 7}] is a JSON value. *)
Lemma responses_are_json_example :
  let r := reply (VInt 7) VNil (error_dict (-32600) "Invalid request: missing method") in
  ((∀ text, is_json (JSON_parse_string text) = true)
   ∧ forallb event_in_scope [EvProcess (open_with ["no method"])] = true
   ∧ In (SendText 0 r)
        (effects (run toy_other (ready false (toy_host (inl VNil)))
                    [EvProcess (open_with ["no method"])])))
  ∧ is_json r = true.
Proof.
  intros r.
  assert (∀ text, is_json (JSON_parse_string text) = true) as Hparse.
  { intros text. cbn. unfold request.
    repeat (match goal with |- context [String.eqb text ?k] =>
              destruct (String.eqb text k) end; [reflexivity|]).
    reflexivity. }
  assert (forallb event_in_scope [EvProcess (open_with ["no method"])] = true) as Hscope
    by reflexivity.
  assert (In (SendText 0 r)
             (effects (run toy_other (ready false (toy_host (inl VNil)))
                         [EvProcess (open_with ["no method"])]))) as Hin
    by (left; reflexivity).
  split; [by repeat split|].
  exact (responses_are_json toy_other Hparse _ false (toy_host (inl VNil)) 0 r Hscope Hin).
Defined.

(** A wait of 100 ms, woken after 60 ms and again after 60 ms. *)
Lemma signal_wait_over_by_deadline_example :
  let s := ready false (toy_host (inl VNil)) in
  let wakes := [(toy_host (inl VNil), 60%N); (toy_host (inl VNil), 60%N)] in
  (wakes ≠ [] ∧ (100 ≤ ticks_msec s + total_ms wakes - 0)%Z)
  ∧ snd (drive (Some (CoWaitForSignal (VInt 4) 1 "sig" 100 0 false [] true)) wakes s)
    = None.
Proof.
  intros s wakes.
  assert (wakes ≠ []) as Hne by done.
  assert (100 ≤ ticks_msec s + total_ms wakes - 0)%Z as Hlate by (vm_compute; discriminate).
  split; [by split|].
  exact (signal_wait_over_by_deadline (VInt 4) 1 "sig" 100 0 wakes false [] true s Hne Hlate).
Defined.


(** While the wait of request 1 for two frames is suspended, its id is
    in the table and its coroutine is there. *)
Lemma pending_ids_are_in_flight_example :
  let s := run toy_other (ready false (toy_host (inl VNil)))
             [EvProcess (open_with ["two frames"])] in
  (forallb event_in_scope [EvProcess (open_with ["two frames"])] = true
   ∧ str (VInt 1) ∈ dom (_pending_responses s))
  ∧ ∃ k c, In (k, c) (coroutines s) ∧ str (co_id c) = str (VInt 1).
Proof.
  intros s.
  assert (forallb event_in_scope [EvProcess (open_with ["two frames"])] = true) as Hscope
    by reflexivity.
  assert (str (VInt 1) ∈ dom (_pending_responses s)) as Hkey.
  { apply elem_of_dom. exists (VBool true). reflexivity. }
  split; [by split|].
  exact (pending_ids_are_in_flight toy_other _ false (toy_host (inl VNil)) (str (VInt 1))
           Hscope Hkey).
Defined.

End MoreExamples.
